(** * DICe stereo triangulation (src/core/DICe_Triangulation.cpp)

    A shallow embedding of the [DICe::Triangulation] member functions:
    calibration loading, radial lens-distortion correction, least-squares
    triangulation, projection into the sensor of camera 1 and the
    eight-parameter projective map with its estimator.

    [scalar_t] (a C++ [double]) is read as a real number: every statement
    below is about the arithmetic the code writes down, carried out
    exactly.  [std::vector] is a [list], [Teuchos::SerialDenseMatrix] a
    column-major value array with its two dimensions, member variables and
    function-local [static] variables are fields of an explicit program
    state, and the ways a call can end other than by returning (a thrown
    [std::runtime_error], a failed [assert], an access outside an array) are constructors of [outcome].

    The image reader and writer of src/utils/src/DICe_Tiff.cpp are modelled
    after the triangulation, in the module [Tiff]. *)

From Stdlib Require Import String Ascii.
From Stdlib Require Import Reals Lra Lia List ZArith Bool Arith.
From Stdlib Require Import RNsatz ClassicalEpsilon.
Import ListNotations.
Open Scope R_scope.

(** ** How a call ends *)

(** The [TEUCHOS_TEST_FOR_EXCEPTION(..., std::runtime_error, ...)] sites of
    the file, one constructor per site. *)
Inductive runtime_error : Set :=
| CalibrationFileNotGood          (* load_calibration_parameters: !dataFile.good() *)
| CouldNotInvertCamera0           (* invert_transform: catch around GETRI *)
| ErrorReadingCalibrationText     (* txt format: neither 22 nor 28 values *)
| UnrecognizedCalibrationFormat   (* neither "xml" nor "txt" in the file name *)
| InvalidCx (camera : nat)        (* cal_intrinsics_[camera][0] <= 0 *)
| InvalidCy (camera : nat)        (* cal_intrinsics_[camera][1] <= 0 *)
| CouldNotInvertM                 (* triangulate: catch around GETRI *)
| ProjectionPointsNotGood         (* projection_points.dat cannot be opened *)
| ProjectionLineNotFourValues     (* a line of projection_points.dat without 4 tokens *)
| NotEnoughCoordinates            (* fewer than 4 lines in projection_points.dat *)
| ProjectiveTransformNotDetermined. (* simplex status is not CORRELATION_SUCCESSFUL *)

(** The error taxonomy of the design document. *)
Inductive error_class : Set :=
| ParseError | UnsupportedFormatError | InvalidIntrinsicsError
| SingularMatrixError | InsufficientDataError | NotInitializedError
| OptimizationError.

Definition classify (e : runtime_error) : error_class :=
  match e with
  | CalibrationFileNotGood | ErrorReadingCalibrationText
  | ProjectionPointsNotGood | ProjectionLineNotFourValues => ParseError
  | UnrecognizedCalibrationFormat => UnsupportedFormatError
  | InvalidCx _ | InvalidCy _ => InvalidIntrinsicsError
  | CouldNotInvertCamera0 | CouldNotInvertM => SingularMatrixError
  | NotEnoughCoordinates => InsufficientDataError
  | ProjectiveTransformNotDetermined => OptimizationError
  end.

(** The [assert(...)] sites of the file. *)
Inductive assertion : Set :=
| Assert_camera_index_lt_2 | Assert_tokens_size_gt_17
| Assert_second_token_is_hash | Assert_cal_intrinsics_nonempty
| Assert_psi2_nonzero | Assert_z2_near_one
| Assert_projectives_not_null | Assert_projectives_size_8
| Assert_tokens_size_eq_4.

Inductive outcome (A : Type) : Type :=
| Normal (a : A)               (* the call returns *)
| Throws (e : runtime_error)   (* a std::runtime_error leaves the call *)
| AssertFails (a : assertion)  (* assert(...) aborts the program *)
| Uncaught                     (* an exception of a collaborator leaves the call *)
| Undefined.                   (* operator[] outside a vector, or a null RCP dereferenced *)
Arguments Normal {A} a.
Arguments Throws {A} e.
Arguments AssertFails {A} a.
Arguments Uncaught {A}.
Arguments Undefined {A}.

(** ** Containers *)

(** [v[i] = x] on a [std::vector]; the callers check the index first. *)
Fixpoint vset {A : Type} (i : nat) (x : A) (v : list A) : list A :=
  match v, i with
  | [], _ => []
  | _ :: t, O => x :: t
  | h :: t, S i' => h :: vset i' x t
  end.

Definition vget (v : list R) (i : nat) : R := nth i v 0.

(** [v[i][j]] on a [std::vector<std::vector<scalar_t> >]. *)
Definition at2 (v : list (list R)) (i j : nat) : R := nth j (nth i v []) 0.

Definition set2 (i j : nat) (x : R) (v : list (list R)) : list (list R) :=
  vset i (vset j x (nth i v [])) v.

(** Both indices are inside the vector of vectors. *)
Definition inside2 (v : list (list R)) (i j : nat) : bool :=
  (i <? length v)%nat && (j <? length (nth i v []))%nat.

(** [std::vector<std::vector<scalar_t> >(rows, std::vector<scalar_t>(cols, 0.0))]. *)
Definition zeros2 (rows cols : nat) : list (list R) :=
  repeat (repeat 0 cols) rows.

(** [Teuchos::SerialDenseMatrix<int_t,double>]: [values()] is the
    column-major array, [A(i,j)] is [values()[i + j*numRows]]. *)
Record SerialDenseMatrix : Type := {
  numRows : nat;
  numCols : nat;
  values : list R
}.

Definition sdm_zero (rows cols : nat) : SerialDenseMatrix :=
  {| numRows := rows; numCols := cols; values := repeat 0 (rows * cols) |}.

Definition sdm_get (A : SerialDenseMatrix) (i j : nat) : R :=
  nth (i + j * numRows A) (values A) 0.

Definition sdm_set (i j : nat) (x : R) (A : SerialDenseMatrix) : SerialDenseMatrix :=
  {| numRows := numRows A; numCols := numCols A;
     values := vset (i + j * numRows A) x (values A) |}.

Definition sdm_add (i j : nat) (x : R) (A : SerialDenseMatrix) : SerialDenseMatrix :=
  sdm_set i j (sdm_get A i j + x) A.

(** A routine that works in place on a caller's buffer overwrites a prefix
    of it and cannot change its length. *)
Definition write_buffer {A : Type} (buf new : list A) : list A :=
  firstn (length buf) (new ++ skipn (length new) buf).

Definition sdm_write (A : SerialDenseMatrix) (new : list R) : SerialDenseMatrix :=
  {| numRows := numRows A; numCols := numCols A;
     values := write_buffer (values A) new |}.

(** ** Column-major square matrices as LAPACK sees them *)

Fixpoint sum_upto (n : nat) (f : nat -> R) : R :=
  match n with
  | O => 0
  | S n' => sum_upto n' f + f n'
  end.

Definition cm_get (n : nat) (A : list R) (i j : nat) : R := nth (i + j * n) A 0.

Definition cm_mul (n : nat) (A B : list R) : list R :=
  map (fun idx => sum_upto n (fun k =>
         cm_get n A (idx mod n) k * cm_get n B k (idx / n)))
      (seq 0 (n * n)).

Definition cm_id (n : nat) : list R :=
  map (fun idx => if (idx mod n =? idx / n)%nat then 1 else 0) (seq 0 (n * n)).

(** [B] is the inverse of the [n] by [n] matrix [A]. *)
Definition cm_inverse (n : nat) (A B : list R) : Prop :=
  length A = (n * n)%nat /\ length B = (n * n)%nat /\
  cm_mul n B A = cm_id n /\ cm_mul n A B = cm_id n.

Definition cm_invertible (n : nat) (A : list R) : Prop :=
  exists B, cm_inverse n A B.

(** ** The collaborators *)

(** How a call into [Teuchos::LAPACK] ends. *)
Inductive lapack_call (A : Type) : Type :=
| Returned (a : A)
| Raised.          (* a std::exception leaves the wrapper *)
Arguments Returned {A} a.
Arguments Raised {A}.

(** [Teuchos::LAPACK<int_t,double>], an external library: the two routines
    the file calls, in exact arithmetic, by their documented contract.
    [GETRF m n A lda] gives the factors written over [A], the pivot indices
    written to [IPIV] and [INFO]; [GETRI n A lda IPIV lwork] gives the array
    written over [A], the workspace written to [WORK] and [INFO]; it reads
    the first [n] entries of [IPIV].  The wrappers forward to the Fortran
    routines DGETRF and DGETRI, which report an exactly singular factor
    through [INFO > 0] and return. *)
Class LAPACK : Type := {
  GETRF : nat -> nat -> list R -> nat -> list R * list Z * Z;
  GETRI : nat -> list R -> nat -> list Z -> nat -> lapack_call (list R * list R * Z);
  GETRI_returns : forall n A lda ipiv lwork,
    GETRI n A lda ipiv lwork <> Raised;
  GETRF_lengths : forall m n A lda,
    length (fst (fst (GETRF m n A lda))) = length A /\
    length (snd (fst (GETRF m n A lda))) = Nat.min m n;
  GETRF_GETRI_inverse : forall n A lwork,
    (n <= lwork)%nat -> cm_invertible n A ->
    exists F P B W,
      GETRF n n A n = (F, P, 0%Z) /\
      GETRI n F n P lwork = Returned (B, W, 0%Z) /\
      cm_inverse n A B;
  GETRF_GETRI_singular : forall n A lwork,
    (n <= lwork)%nat -> ~ cm_invertible n A ->
    exists F P i G W k,
      GETRF n n A n = (F, P, i) /\ (0 < i)%Z /\
      GETRI n F n P lwork = Returned (G, W, k) /\ (0 < k)%Z
}.

(** The other collaborators, none of which is in this file: [strtod] of the
    C library, the [DICe::Image] class (as far as the estimator uses it) and
    [DICe::Homography_Simplex::minimize], which is handed the coefficient
    vector and the step sizes and gives back the refined coefficients, the
    iteration count and whether the status is [CORRELATION_SUCCESSFUL]. *)
Class Collaborators : Type := {
  strtod : string -> R;
  Image : Type;
  width : Image -> nat;
  height : Image -> nat;
  pixel : Image -> nat -> nat -> R;
  interpolate_keys_fourth : Image -> R -> R -> R;
  minimize : Image -> Image -> list R -> list R -> list R * nat * bool
}.

(** ** Program state *)

(** The member variables of [DICe::Triangulation].  [projectives_] is a
    [Teuchos::RCP<std::vector<scalar_t> >]; [None] is [Teuchos::null]. *)
Record Triangulation : Type := {
  cal_intrinsics_ : list (list R);
  cal_extrinsics_ : list (list R);
  trans_extrinsics_ : list (list R);
  projectives_ : option (list R)
}.

Definition with_cal_intrinsics_ (v : list (list R)) (t : Triangulation) :=
  {| cal_intrinsics_ := v; cal_extrinsics_ := cal_extrinsics_ t;
     trans_extrinsics_ := trans_extrinsics_ t; projectives_ := projectives_ t |}.
Definition with_cal_extrinsics_ (v : list (list R)) (t : Triangulation) :=
  {| cal_intrinsics_ := cal_intrinsics_ t; cal_extrinsics_ := v;
     trans_extrinsics_ := trans_extrinsics_ t; projectives_ := projectives_ t |}.
Definition with_trans_extrinsics_ (v : list (list R)) (t : Triangulation) :=
  {| cal_intrinsics_ := cal_intrinsics_ t; cal_extrinsics_ := cal_extrinsics_ t;
     trans_extrinsics_ := v; projectives_ := projectives_ t |}.
Definition with_projectives_ (v : option (list R)) (t : Triangulation) :=
  {| cal_intrinsics_ := cal_intrinsics_ t; cal_extrinsics_ := cal_extrinsics_ t;
     trans_extrinsics_ := trans_extrinsics_ t; projectives_ := v |}.

(** The [static] locals of [Triangulation::triangulate] ([LWORK] is never assigned and stays 9). *)
Module Tri.
Record t : Type := mk {
  xc0 : R;
  yc0 : R;
  xc1 : R;
  yc1 : R;
  M : SerialDenseMatrix;
  MTM : SerialDenseMatrix;
  MTMMT : SerialDenseMatrix;
  r : list R;
  XYZc0 : list R;
  XYZ : list R;
  cmx : R;
  cmy : R;
  IPIV : list Z;
  WORK : list R;
  INFO : Z
}.
Definition with_xc0 (v : R) (s : t) : t :=
  mk v (yc0 s) (xc1 s) (yc1 s) (M s) (MTM s) (MTMMT s) (r s) (XYZc0 s) (XYZ s) (cmx s) (cmy s) (IPIV s) (WORK s) (INFO s).
Definition with_yc0 (v : R) (s : t) : t :=
  mk (xc0 s) v (xc1 s) (yc1 s) (M s) (MTM s) (MTMMT s) (r s) (XYZc0 s) (XYZ s) (cmx s) (cmy s) (IPIV s) (WORK s) (INFO s).
Definition with_xc1 (v : R) (s : t) : t :=
  mk (xc0 s) (yc0 s) v (yc1 s) (M s) (MTM s) (MTMMT s) (r s) (XYZc0 s) (XYZ s) (cmx s) (cmy s) (IPIV s) (WORK s) (INFO s).
Definition with_yc1 (v : R) (s : t) : t :=
  mk (xc0 s) (yc0 s) (xc1 s) v (M s) (MTM s) (MTMMT s) (r s) (XYZc0 s) (XYZ s) (cmx s) (cmy s) (IPIV s) (WORK s) (INFO s).
Definition with_M (v : SerialDenseMatrix) (s : t) : t :=
  mk (xc0 s) (yc0 s) (xc1 s) (yc1 s) v (MTM s) (MTMMT s) (r s) (XYZc0 s) (XYZ s) (cmx s) (cmy s) (IPIV s) (WORK s) (INFO s).
Definition with_MTM (v : SerialDenseMatrix) (s : t) : t :=
  mk (xc0 s) (yc0 s) (xc1 s) (yc1 s) (M s) v (MTMMT s) (r s) (XYZc0 s) (XYZ s) (cmx s) (cmy s) (IPIV s) (WORK s) (INFO s).
Definition with_MTMMT (v : SerialDenseMatrix) (s : t) : t :=
  mk (xc0 s) (yc0 s) (xc1 s) (yc1 s) (M s) (MTM s) v (r s) (XYZc0 s) (XYZ s) (cmx s) (cmy s) (IPIV s) (WORK s) (INFO s).
Definition with_r (v : list R) (s : t) : t :=
  mk (xc0 s) (yc0 s) (xc1 s) (yc1 s) (M s) (MTM s) (MTMMT s) v (XYZc0 s) (XYZ s) (cmx s) (cmy s) (IPIV s) (WORK s) (INFO s).
Definition with_XYZc0 (v : list R) (s : t) : t :=
  mk (xc0 s) (yc0 s) (xc1 s) (yc1 s) (M s) (MTM s) (MTMMT s) (r s) v (XYZ s) (cmx s) (cmy s) (IPIV s) (WORK s) (INFO s).
Definition with_XYZ (v : list R) (s : t) : t :=
  mk (xc0 s) (yc0 s) (xc1 s) (yc1 s) (M s) (MTM s) (MTMMT s) (r s) (XYZc0 s) v (cmx s) (cmy s) (IPIV s) (WORK s) (INFO s).
Definition with_cmx (v : R) (s : t) : t :=
  mk (xc0 s) (yc0 s) (xc1 s) (yc1 s) (M s) (MTM s) (MTMMT s) (r s) (XYZc0 s) (XYZ s) v (cmy s) (IPIV s) (WORK s) (INFO s).
Definition with_cmy (v : R) (s : t) : t :=
  mk (xc0 s) (yc0 s) (xc1 s) (yc1 s) (M s) (MTM s) (MTMMT s) (r s) (XYZc0 s) (XYZ s) (cmx s) v (IPIV s) (WORK s) (INFO s).
Definition with_IPIV (v : list Z) (s : t) : t :=
  mk (xc0 s) (yc0 s) (xc1 s) (yc1 s) (M s) (MTM s) (MTMMT s) (r s) (XYZc0 s) (XYZ s) (cmx s) (cmy s) v (WORK s) (INFO s).
Definition with_WORK (v : list R) (s : t) : t :=
  mk (xc0 s) (yc0 s) (xc1 s) (yc1 s) (M s) (MTM s) (MTMMT s) (r s) (XYZc0 s) (XYZ s) (cmx s) (cmy s) (IPIV s) v (INFO s).
Definition with_INFO (v : Z) (s : t) : t :=
  mk (xc0 s) (yc0 s) (xc1 s) (yc1 s) (M s) (MTM s) (MTMMT s) (r s) (XYZc0 s) (XYZ s) (cmx s) (cmy s) (IPIV s) (WORK s) v.
End Tri.

(** The [static] locals of [Triangulation::correct_lens_distortion_radial]. *)
Module Rad.
Record t : Type := mk {
  rho_tilde : R;
  r1 : R;
  r2 : R;
  factor : R
}.
Definition with_rho_tilde (v : R) (s : t) : t :=
  mk v (r1 s) (r2 s) (factor s).
Definition with_r1 (v : R) (s : t) : t :=
  mk (rho_tilde s) v (r2 s) (factor s).
Definition with_r2 (v : R) (s : t) : t :=
  mk (rho_tilde s) (r1 s) v (factor s).
Definition with_factor (v : R) (s : t) : t :=
  mk (rho_tilde s) (r1 s) (r2 s) v.
End Rad.

Definition LWORK : nat := 9.

(** The values the [static] definitions give on the first call. *)
Definition Tri_initial : Tri.t :=
  Tri.mk 0 0 0 0 (sdm_zero 4 3) (sdm_zero 3 3) (sdm_zero 3 4)
         (repeat 0 4) (repeat 0 4) (repeat 0 4) 0 0
         (repeat 0%Z 4) (repeat 0 LWORK) 0%Z.

Definition Rad_initial : Rad.t := Rad.mk 0 0 0 0.

(** The static buffers keep the shape their definitions give them. *)
Definition Tri_shaped (t : Tri.t) : Prop :=
  numRows (Tri.M t) = 4%nat /\ length (values (Tri.M t)) = 12%nat /\
  numRows (Tri.MTM t) = 3%nat /\ length (values (Tri.MTM t)) = 9%nat /\
  numRows (Tri.MTMMT t) = 3%nat /\ length (values (Tri.MTMMT t)) = 12%nat /\
  length (Tri.r t) = 4%nat /\ length (Tri.XYZc0 t) = 4%nat /\
  length (Tri.XYZ t) = 4%nat /\ length (Tri.IPIV t) = 4%nat /\
  length (Tri.WORK t) = LWORK.

Record State : Type := {
  self : Triangulation;   (* the object the member functions are called on *)
  tri : Tri.t;
  rad : Rad.t
}.

Definition upd_self (f : Triangulation -> Triangulation) (s : State) : State :=
  {| self := f (self s); tri := tri s; rad := rad s |}.
Definition upd_tri (f : Tri.t -> Tri.t) (s : State) : State :=
  {| self := self s; tri := f (tri s); rad := rad s |}.
Definition upd_rad (f : Rad.t -> Rad.t) (s : State) : State :=
  {| self := self s; tri := tri s; rad := f (rad s) |}.

(** ** Calls: state passing, and the ways out *)

Definition prog (A : Type) : Type := State -> State * outcome A.

Definition ret {A : Type} (a : A) : prog A := fun s => (s, Normal a).

Definition bind {A B : Type} (m : prog A) (k : A -> prog B) : prog B :=
  fun s =>
    match m s with
    | (s', Normal a) => k a s'
    | (s', Throws e) => (s', Throws e)
    | (s', AssertFails a) => (s', AssertFails a)
    | (s', Uncaught) => (s', Uncaught)
    | (s', Undefined) => (s', Undefined)
    end.

Notation "x <- m ;; k" := (bind m (fun x => k))
  (at level 61, m at next level, right associativity).
Notation "m ;; k" := (bind m (fun _ => k))
  (at level 61, right associativity).
Notation "m >>= k" := (bind m k) (at level 58, left associativity).

Definition get : prog State := fun s => (s, Normal s).
Definition assign (f : State -> State) : prog unit := fun s => (f s, Normal tt).
Definition throw {A : Type} (e : runtime_error) : prog A := fun s => (s, Throws e).
Definition undefined {A : Type} : prog A := fun s => (s, Undefined).

(** [TEUCHOS_TEST_FOR_EXCEPTION(b, std::runtime_error, ...)]. *)
Definition test_for_exception (b : bool) (e : runtime_error) : prog unit :=
  if b then throw e else ret tt.

(** [assert(b)], in a build that keeps assertions. *)
Definition assert_ (b : bool) (a : assertion) : prog unit :=
  fun s => if b then (s, Normal tt) else (s, AssertFails a).

(** The indices about to be used are inside their vectors. *)
Definition in_range (b : bool) : prog unit :=
  if b then ret tt else undefined.

(** [for(int_t i = lo; i < hi; ++i) body], for a body that only assigns. *)
Definition loop {X : Type} (lo hi : nat) (body : nat -> X -> X) (x : X) : X :=
  fold_left (fun acc i => body i acc) (seq lo (hi - lo)) x.

(** A brace block of assignments. *)
Definition block {X : Type} (stmts : list (X -> X)) (x : X) : X :=
  fold_left (fun acc f => f acc) stmts x.

(** The comparisons of the code, on real numbers. *)
Definition Rleb (x y : R) : bool := if Rle_dec x y then true else false.
Definition Rltb (x y : R) : bool := if Rlt_dec x y then true else false.
Definition Reqb (x y : R) : bool := if Req_dec_T x y then true else false.

(** [s.find(sub) != std::string::npos]. *)
Definition string_contains (sub s : string) : bool :=
  match index 0 sub s with
  | Some _ => true
  | None => false
  end.

(** [tokens[i]] on the [Teuchos::ArrayRCP<std::string>] of a line. *)
Definition token (tokens : list string) (i : nat) : string := nth i tokens EmptyString.

(** Modelled from the spec: the macro [DICE_PI] of DICe.h, a header that is
    not among the sources; the design document has the angles given in
    degrees and converted to radians. *)
Definition DICE_PI : R := PI.

(** ** Matrix and transform algebra *)

Definition convert_CB_angles_to_T (alpha beta gamma tx ty tz : R) : SerialDenseMatrix :=
  let cx := cos (alpha * DICE_PI / 180) in
  let sx := sin (alpha * DICE_PI / 180) in
  let cy := cos (beta * DICE_PI / 180) in
  let sy := sin (beta * DICE_PI / 180) in
  let cz := cos (gamma * DICE_PI / 180) in
  let sz := sin (gamma * DICE_PI / 180) in
  block [ sdm_set 0 0 (cy * cz);
          sdm_set 0 1 (sx * sy * cz - cx * sz);
          sdm_set 0 2 (cx * sy * cz + sx * sz);
          sdm_set 1 0 (cy * sz);
          sdm_set 1 1 (sx * sy * sz + cx * cz);
          sdm_set 1 2 (cx * sy * sz - sx * cz);
          sdm_set 2 0 (- sy);
          sdm_set 2 1 (sx * cy);
          sdm_set 2 2 (cx * cy);
          sdm_set 0 3 tx;
          sdm_set 1 3 ty;
          sdm_set 2 3 tz;
          sdm_set 3 3 1 ]
        (sdm_zero 4 4).   (* T_out.reshape(4,4); T_out.putScalar(0.0); *)

Section Members.
Context {lapack : LAPACK} {collaborators : Collaborators}.

(** [invert_transform] works in place on [T_out]; [INFO] is written by both
    routines and never read. *)
Definition invert_transform (T_out : SerialDenseMatrix) : outcome SerialDenseMatrix :=
  let '(F, IPIV, INFO) := GETRF 4 4 (values T_out) 4 in
  let T_out := sdm_write T_out F in
  match GETRI 4 (values T_out) 4 IPIV 16 with
  | Returned (A, WORK, INFO) => Normal (sdm_write T_out A)
  | Raised => Throws CouldNotInvertCamera0
  end.

Definition lift {A : Type} (o : outcome A) : prog A := fun s => (s, o).

(** ** Calibration loading *)

(** The [while (!dataFile.eof())] loop of the xml branch; [lines] are the
    token arrays the successive [tokenize_line(dataFile," \t<>")] calls
    give.  The result is [vec_of_Ts]. *)
Fixpoint read_cameras (lines : list (list string)) (camera_index : nat)
    (cam_orientation : list (list R)) (vec_of_Ts : list SerialDenseMatrix)
    : prog (list SerialDenseMatrix) :=
  match lines with
  | [] => ret vec_of_Ts
  | tokens :: rest =>
    if (length tokens =? 0)%nat then
      read_cameras rest camera_index cam_orientation vec_of_Ts
    else if negb (String.eqb (token tokens 0) "CAMERA") then
      read_cameras rest camera_index cam_orientation vec_of_Ts
    else
      assert_ (camera_index <? 2)%nat Assert_camera_index_lt_2 ;;
      assert_ (17 <? length tokens)%nat Assert_tokens_size_gt_17 ;;
      assign (upd_self (fun t =>
        with_cal_intrinsics_
          (loop 2 10 (fun i => set2 camera_index (i - 2) (strtod (token tokens i)))
                (cal_intrinsics_ t)) t)) ;;
      let cam_orientation :=
        loop 11 17 (fun i => set2 camera_index (i - 11) (strtod (token tokens i)))
             cam_orientation in
      let vec_of_Ts :=
        vset camera_index
             (convert_CB_angles_to_T (at2 cam_orientation camera_index 0)
                                     (at2 cam_orientation camera_index 1)
                                     (at2 cam_orientation camera_index 2)
                                     (at2 cam_orientation camera_index 3)
                                     (at2 cam_orientation camera_index 4)
                                     (at2 cam_orientation camera_index 5))
             vec_of_Ts in
      read_cameras rest (S camera_index) cam_orientation vec_of_Ts
  end.

(** The [while (!dataFile.eof())] loop of the txt branch.  The result is
    [num_values] and the two local vectors [extrinsics] and
    [trans_extrinsics], each of six entries. *)
Fixpoint read_values (lines : list (list string)) (num_values : nat)
    (extrinsics trans_extrinsics : list R) : prog (nat * list R * list R) :=
  match lines with
  | [] => ret (num_values, extrinsics, trans_extrinsics)
  | tokens :: rest =>
    if (length tokens =? 0)%nat then
      read_values rest num_values extrinsics trans_extrinsics
    else if String.eqb (token tokens 0) "#" then
      read_values rest num_values extrinsics trans_extrinsics
    else
      (if (1 <? length tokens)%nat
       then assert_ (String.eqb (token tokens 1) "#") Assert_second_token_is_hash
       else ret tt) ;;
      let camera_index := if (8 <=? num_values)%nat then 1%nat else 0%nat in
      if (num_values <? 16)%nat then
        assign (upd_self (fun t =>
          with_cal_intrinsics_
            (set2 camera_index (num_values - camera_index * 8)
                  (strtod (token tokens 0)) (cal_intrinsics_ t)) t)) ;;
        read_values rest (S num_values) extrinsics trans_extrinsics
      else if (num_values <? 22)%nat then
        read_values rest (S num_values)
          (vset (num_values - 16) (strtod (token tokens 0)) extrinsics)
          trans_extrinsics
      else
        in_range (num_values - 22 <? 6)%nat ;;
        read_values rest (S num_values) extrinsics
          (vset (num_values - 22) (strtod (token tokens 0)) trans_extrinsics)
  end.

(** The part of [load_calibration_parameters] before the four tests on the
    principal points: the members are cleared and filled from the file. *)
Definition parse_calibration_file (param_file_name : string)
    (dataFile : option (list (list string))) : prog unit :=
  match dataFile with
  | None => throw CalibrationFileNotGood
  | Some lines =>
    assign (upd_self (with_cal_extrinsics_
      (loop 0 4 (fun _ v => v ++ [repeat 0 4]) []))) ;;
    assign (upd_self (with_trans_extrinsics_
      (loop 0 4 (fun i v => set2 i i 1 (v ++ [repeat 0 4])) []))) ;;
    assign (upd_self (with_cal_intrinsics_
      (loop 0 2 (fun _ v => v ++ [repeat 0 8]) []))) ;;
    if string_contains "xml" param_file_name then
      vec_of_Ts <- read_cameras lines 0 (zeros2 2 6) [sdm_zero 4 4; sdm_zero 4 4] ;;
      (* compute the inverse of camera 0, in place *)
      T0 <- lift (invert_transform (nth 0 vec_of_Ts (sdm_zero 4 4))) ;;
      let vec_of_Ts := vset 0 T0 vec_of_Ts in
      assign (upd_self (fun t => with_trans_extrinsics_
        (loop 0 4 (fun i => loop 0 4 (fun j =>
           set2 i j (sdm_get (nth 0 vec_of_Ts (sdm_zero 4 4)) i j)))
           (trans_extrinsics_ t)) t)) ;;
      assign (upd_self (fun t => with_cal_extrinsics_
        (loop 0 4 (fun i => loop 0 4 (fun j => loop 0 4 (fun k v =>
           set2 i j (at2 v i j
                     + sdm_get (nth 1 vec_of_Ts (sdm_zero 4 4)) i k
                       * sdm_get (nth 0 vec_of_Ts (sdm_zero 4 4)) k j) v)))
           (cal_extrinsics_ t)) t))
    else if string_contains "txt" param_file_name then
      assign (upd_self (fun t => with_trans_extrinsics_
        (loop 0 4 (fun i => set2 i i 1) (trans_extrinsics_ t)) t)) ;;
      res <- read_values lines 0 (repeat 0 6) (repeat 0 6) ;;
      let '(num_values, extrinsics, trans_extrinsics) := res in
      test_for_exception (negb (num_values =? 22)%nat && negb (num_values =? 28)%nat)
                         ErrorReadingCalibrationText ;;
      let converted_extrinsics :=
        convert_CB_angles_to_T (vget extrinsics 0) (vget extrinsics 1)
                               (vget extrinsics 2) (vget extrinsics 3)
                               (vget extrinsics 4) (vget extrinsics 5) in
      assign (upd_self (fun t => with_cal_extrinsics_
        (loop 0 4 (fun i => loop 0 4 (fun j =>
           set2 i j (sdm_get converted_extrinsics i j))) (cal_extrinsics_ t)) t)) ;;
      if (num_values =? 28)%nat then
        let converted_extrinsics :=
          convert_CB_angles_to_T (vget trans_extrinsics 0) (vget trans_extrinsics 1)
                                 (vget trans_extrinsics 2) (vget trans_extrinsics 3)
                                 (vget trans_extrinsics 4) (vget trans_extrinsics 5) in
        converted_extrinsics <- lift (invert_transform converted_extrinsics) ;;
        assign (upd_self (fun t => with_trans_extrinsics_
          (loop 0 4 (fun i => loop 0 4 (fun j =>
             set2 i j (sdm_get converted_extrinsics i j))) (trans_extrinsics_ t)) t))
      else ret tt
    else throw UnrecognizedCalibrationFormat
  end.

(** The four tests that end [load_calibration_parameters]. *)
Definition check_principal_points : prog unit :=
  s <- get ;;
  test_for_exception (Rleb (at2 (cal_intrinsics_ (self s)) 0 0) 0) (InvalidCx 0) ;;
  test_for_exception (Rleb (at2 (cal_intrinsics_ (self s)) 0 1) 0) (InvalidCy 0) ;;
  test_for_exception (Rleb (at2 (cal_intrinsics_ (self s)) 1 0) 0) (InvalidCx 1) ;;
  test_for_exception (Rleb (at2 (cal_intrinsics_ (self s)) 1 1) 0) (InvalidCy 1).

Definition load_calibration_parameters (param_file_name : string)
    (dataFile : option (list (list string))) : prog unit :=
  parse_calibration_file param_file_name dataFile ;;
  check_principal_points.

(** The same four tests on the [double] values the member vector holds.  A
    [double] is a number, read exactly as everywhere else, or not a number:
    [strtod] gives NaN for the token "nan", and every comparison with a NaN
    is false.  (The infinities are left out; they pass or fail the tests as
    large numbers do.) *)
Inductive double : Type :=
| Number (v : R)
| NaN.

Definition double_le (a b : double) : bool :=
  match a, b with
  | Number x, Number y => Rleb x y
  | _, _ => false
  end.


Definition principal_point_tests (cx0 cy0 cx1 cy1 : double) : outcome unit :=
  if double_le cx0 (Number 0) then Throws (InvalidCx 0)
  else if double_le cy0 (Number 0) then Throws (InvalidCy 0)
  else if double_le cx1 (Number 0) then Throws (InvalidCx 1)
  else if double_le cy1 (Number 0) then Throws (InvalidCy 1)
  else Normal tt.

(** ** Lens distortion *)

(** Shorthands for what an expression reads from the state. *)
Definition ci (s : State) (i j : nat) : R := at2 (cal_intrinsics_ (self s)) i j.
Definition ce (s : State) (i j : nat) : R := at2 (cal_extrinsics_ (self s)) i j.
Definition te (s : State) (i j : nat) : R := at2 (trans_extrinsics_ (self s)) i j.

(** [x_s] and [y_s] are passed by reference; the result is their final value. *)
Definition correct_lens_distortion_radial (x_s y_s : R) (camera_id : nat) : prog (R * R) :=
  s <- get ;;
  assert_ (0 <? length (cal_intrinsics_ (self s)))%nat Assert_cal_intrinsics_nonempty ;;
  in_range (inside2 (cal_intrinsics_ (self s)) camera_id 7) ;;
  assign (fun s => upd_rad (Rad.with_r1 ((x_s - ci s camera_id 0) / ci s camera_id 0)) s) ;;
  assign (fun s => upd_rad (Rad.with_r2 ((y_s - ci s camera_id 1) / ci s camera_id 1)) s) ;;
  assign (fun s => upd_rad (Rad.with_rho_tilde
    (Rad.r1 (rad s) * Rad.r1 (rad s) + Rad.r2 (rad s) * Rad.r2 (rad s))) s) ;;
  assign (fun s => upd_rad (Rad.with_factor
    (ci s camera_id 5 * Rad.rho_tilde (rad s)
     + ci s camera_id 6 * Rad.rho_tilde (rad s) * Rad.rho_tilde (rad s)
     + ci s camera_id 7 * Rad.rho_tilde (rad s) * Rad.rho_tilde (rad s)
       * Rad.rho_tilde (rad s))) s) ;;
  s <- get ;;
  let x_s := x_s - Rad.factor (rad s) * Rad.r1 (rad s) * ci s camera_id 0 in
  let y_s := y_s - Rad.factor (rad s) * Rad.r2 (rad s) * ci s camera_id 1 in
  ret (x_s, y_s).

(** ** Triangulation *)

(** Assignments to the static buffers: [A(i,j) = e], [A(i,j) += e],
    [v[i] = e] and [v[i] += e], where [e] reads the current state. *)
Definition set_sdm (get_ : Tri.t -> SerialDenseMatrix)
    (with_ : SerialDenseMatrix -> Tri.t -> Tri.t)
    (i j : nat) (e : State -> R) (s : State) : State :=
  upd_tri (fun t => with_ (sdm_set i j (e s) (get_ t)) t) s.
Definition add_sdm (get_ : Tri.t -> SerialDenseMatrix)
    (with_ : SerialDenseMatrix -> Tri.t -> Tri.t)
    (i j : nat) (e : State -> R) (s : State) : State :=
  upd_tri (fun t => with_ (sdm_add i j (e s) (get_ t)) t) s.
Definition set_vec (get_ : Tri.t -> list R) (with_ : list R -> Tri.t -> Tri.t)
    (i : nat) (e : State -> R) (s : State) : State :=
  upd_tri (fun t => with_ (vset i (e s) (get_ t)) t) s.
Definition add_vec (get_ : Tri.t -> list R) (with_ : list R -> Tri.t -> Tri.t)
    (i : nat) (e : State -> R) (s : State) : State :=
  upd_tri (fun t => with_ (vset i (vget (get_ t) i + e s) (get_ t)) t) s.

Definition zero (_ : State) : R := 0.

(** Every index [triangulate] uses on the three member vectors. *)
Definition triangulate_indices_inside (t : Triangulation) : bool :=
  inside2 (cal_intrinsics_ t) 0 4 && inside2 (cal_intrinsics_ t) 1 4 &&
  inside2 (cal_extrinsics_ t) 0 3 && inside2 (cal_extrinsics_ t) 1 3 &&
  inside2 (cal_extrinsics_ t) 2 3 &&
  inside2 (trans_extrinsics_ t) 0 3 && inside2 (trans_extrinsics_ t) 1 3 &&
  inside2 (trans_extrinsics_ t) 2 3 && inside2 (trans_extrinsics_ t) 3 3.

(** [triangulate] from "clear the storage" on: the least-squares solve on
    the sensor coordinates held in [xc0], [yc0], [xc1], [yc1].  The result
    is [(xc_out, yc_out, zc_out, xw_out, yw_out, zw_out)]. *)
Definition triangulate_solve : prog (R * R * R * R * R * R) :=
  let Mat (s : State) := sdm_get (Tri.M (tri s)) in
  let MTMat (s : State) := sdm_get (Tri.MTM (tri s)) in
  let MTMMTat (s : State) := sdm_get (Tri.MTMMT (tri s)) in
  let cmx (s : State) := Tri.cmx (tri s) in
  let cmy (s : State) := Tri.cmy (tri s) in
  (* clear the storage *)
  assign (loop 0 3 (fun i => block [
    loop 0 4 (fun j => block [ set_sdm Tri.M Tri.with_M j i zero;
                               set_sdm Tri.MTMMT Tri.with_MTMMT i j zero ]);
    loop 0 3 (fun j => set_sdm Tri.MTM Tri.with_MTM j i zero) ])) ;;
  assign (loop 0 4 (fun i => block [
    set_vec Tri.XYZc0 Tri.with_XYZc0 i zero;
    set_vec Tri.XYZ Tri.with_XYZ i zero;
    upd_tri (fun t => Tri.with_IPIV (vset i 0%Z (Tri.IPIV t)) t);
    set_vec Tri.r Tri.with_r i zero ])) ;;
  assign (loop 0 LWORK (fun i => set_vec Tri.WORK Tri.with_WORK i zero)) ;;
  (* calculate the M matrix *)
  s <- get ;;
  in_range (triangulate_indices_inside (self s)) ;;
  assign (block [
    set_sdm Tri.M Tri.with_M 0 0 (fun s => ci s 0 2);
    set_sdm Tri.M Tri.with_M 0 1 (fun s => ci s 0 4);
    set_sdm Tri.M Tri.with_M 0 2 (fun s => ci s 0 0 - Tri.xc0 (tri s));
    set_sdm Tri.M Tri.with_M 1 1 (fun s => ci s 0 3);
    set_sdm Tri.M Tri.with_M 1 2 (fun s => ci s 0 1 - Tri.yc0 (tri s));
    (fun s => upd_tri (Tri.with_cmx (ci s 1 0 - Tri.xc1 (tri s))) s);
    (fun s => upd_tri (Tri.with_cmy (ci s 1 1 - Tri.yc1 (tri s))) s);
    set_sdm Tri.M Tri.with_M 2 0
      (fun s => cmx s * ce s 2 0 + ci s 1 2 * ce s 0 0 + ci s 1 4 * ce s 1 0);
    set_sdm Tri.M Tri.with_M 2 1
      (fun s => cmx s * ce s 2 1 + ci s 1 2 * ce s 0 1 + ci s 1 4 * ce s 1 1);
    set_sdm Tri.M Tri.with_M 2 2
      (fun s => cmx s * ce s 2 2 + ci s 1 2 * ce s 0 2 + ci s 1 4 * ce s 1 2);
    set_sdm Tri.M Tri.with_M 3 0 (fun s => cmy s * ce s 2 0 + ci s 1 3 * ce s 1 0);
    set_sdm Tri.M Tri.with_M 3 1 (fun s => cmy s * ce s 2 1 + ci s 1 3 * ce s 1 1);
    set_sdm Tri.M Tri.with_M 3 2 (fun s => cmy s * ce s 2 2 + ci s 1 3 * ce s 1 2);
    set_vec Tri.r Tri.with_r 2
      (fun s => - ci s 1 2 * ce s 0 3 - ci s 1 4 * ce s 1 3 - cmx s * ce s 2 3);
    set_vec Tri.r Tri.with_r 3
      (fun s => - ci s 1 3 * ce s 1 3 - cmy s * ce s 2 3) ]) ;;
  (* compute M^TM *)
  assign (loop 0 3 (fun i => loop 0 3 (fun j => loop 0 4 (fun k =>
    add_sdm Tri.MTM Tri.with_MTM i j (fun s => Mat s k i * Mat s k j))))) ;;
  (* compute the inverse of M^TM *)
  assign (fun s =>
    let '(F, P, info) := GETRF 3 3 (values (Tri.MTM (tri s))) 3 in
    upd_tri (fun t => Tri.with_INFO info
                        (Tri.with_IPIV (write_buffer (Tri.IPIV t) P)
                           (Tri.with_MTM (sdm_write (Tri.MTM t) F) t))) s) ;;
  s <- get ;;
  match GETRI 3 (values (Tri.MTM (tri s))) 3 (firstn 3 (Tri.IPIV (tri s))) LWORK with
  | Returned (A, W, info) =>
      assign (upd_tri (fun t => Tri.with_INFO info
                                  (Tri.with_WORK (write_buffer (Tri.WORK t) W)
                                     (Tri.with_MTM (sdm_write (Tri.MTM t) A) t))))
  | Raised => throw CouldNotInvertM
  end ;;
  (* now MTM is inverted; compute MTM*MT *)
  assign (loop 0 3 (fun i => loop 0 4 (fun j => loop 0 3 (fun k =>
    add_sdm Tri.MTMMT Tri.with_MTMMT i j (fun s => MTMat s i k * Mat s j k))))) ;;
  (* compute the 3d point *)
  assign (loop 0 3 (fun i => loop 0 4 (fun j =>
    add_vec Tri.XYZc0 Tri.with_XYZc0 i
            (fun s => MTMMTat s i j * vget (Tri.r (tri s)) j)))) ;;
  assign (set_vec Tri.XYZc0 Tri.with_XYZc0 3 (fun _ => 1)) ;;
  s <- get ;;
  let xc_out := vget (Tri.XYZc0 (tri s)) 0 in
  let yc_out := vget (Tri.XYZc0 (tri s)) 1 in
  let zc_out := vget (Tri.XYZc0 (tri s)) 2 in
  (* apply the camera 0 to world coord transform *)
  assign (loop 0 4 (fun i => loop 0 4 (fun j =>
    add_vec Tri.XYZ Tri.with_XYZ i
            (fun s => te s i j * vget (Tri.XYZc0 (tri s)) j)))) ;;
  s <- get ;;
  ret (xc_out, yc_out, zc_out,
       vget (Tri.XYZ (tri s)) 0, vget (Tri.XYZ (tri s)) 1, vget (Tri.XYZ (tri s)) 2).

Definition triangulate (x0 y0 x1 y1 : R) (correct_lens_distortion : bool)
    : prog (R * R * R * R * R * R) :=
  assign (upd_tri (Tri.with_xc0 x0)) ;;
  assign (upd_tri (Tri.with_yc0 y0)) ;;
  assign (upd_tri (Tri.with_xc1 x1)) ;;
  assign (upd_tri (Tri.with_yc1 y1)) ;;
  (if correct_lens_distortion then
     s <- get ;;
     c0 <- correct_lens_distortion_radial (Tri.xc0 (tri s)) (Tri.yc0 (tri s)) 0 ;;
     assign (upd_tri (Tri.with_xc0 (fst c0))) ;;
     assign (upd_tri (Tri.with_yc0 (snd c0))) ;;
     s <- get ;;
     c1 <- correct_lens_distortion_radial (Tri.xc1 (tri s)) (Tri.yc1 (tri s)) 1 ;;
     assign (upd_tri (Tri.with_xc1 (fst c1))) ;;
     assign (upd_tri (Tri.with_yc1 (snd c1)))
   else ret tt) ;;
  triangulate_solve.

(** ** Projection into the sensors *)

(** The 3 by 4 matrix [F2_T] built from the intrinsics [(cx, cy, fx, fy, fs)]
    of a camera and a 4 by 4 transform, as the two loops of
    [project_camera_0_to_sensor_1] build it. *)
Definition projection_matrix (cx cy fx fy fs : R) (T : list (list R)) : SerialDenseMatrix :=
  let F2 := block [ sdm_set 0 0 fx; sdm_set 0 1 fs; sdm_set 0 2 cx;
                    sdm_set 1 1 fy; sdm_set 1 2 cy; sdm_set 2 2 1 ]
                  (sdm_zero 3 4) in
  loop 0 3 (fun j => loop 0 4 (fun k => loop 0 4 (fun i =>
    sdm_add j k (sdm_get F2 j i * at2 T i k))))
    (sdm_zero 3 4).

Definition rows_inside (T : list (list R)) : bool :=
  inside2 T 0 3 && inside2 T 1 3 && inside2 T 2 3 && inside2 T 3 3.

(** [psi2], and the sum that each of [xs2_out], [ys2_out] and [z2]
    multiplies by [1.0/psi2]. *)
Definition depth_term (T : list (list R)) (xc yc zc : R) : R :=
  at2 T 2 0 * xc + at2 T 2 1 * yc + at2 T 2 2 * zc + at2 T 2 3.

Definition homogeneous_row (F2_T : SerialDenseMatrix) (j : nat) (xc yc zc : R) : R :=
  sdm_get F2_T j 0 * xc + sdm_get F2_T j 1 * yc + sdm_get F2_T j 2 * zc
  + sdm_get F2_T j 3.

(** The body of [project_camera_0_to_sensor_1] after [F2_T] is built; the
    two lines it prints are not modelled.  The result is
    [(xs2_out, ys2_out)]. *)
Definition perspective_divide (F2_T : SerialDenseMatrix) (T : list (list R))
    (xc yc zc : R) : prog (R * R) :=
  let psi2 := depth_term T xc yc zc in
  assert_ (negb (Reqb psi2 0)) Assert_psi2_nonzero ;;
  let xs2_out := 1 / psi2 * homogeneous_row F2_T 0 xc yc zc in
  let ys2_out := 1 / psi2 * homogeneous_row F2_T 1 xc yc zc in
  let z2 := 1 / psi2 * homogeneous_row F2_T 2 xc yc zc in
  assert_ (Rltb (Rabs (z2 - 1)) (1 / 10)) Assert_z2_near_one ;;
  ret (xs2_out, ys2_out).

Definition project_camera_0_to_sensor_1 (xc yc zc : R) : prog (R * R) :=
  s <- get ;;
  in_range (inside2 (cal_intrinsics_ (self s)) 1 4 &&
            rows_inside (cal_extrinsics_ (self s))) ;;
  let F2_T := projection_matrix (ci s 1 0) (ci s 1 1) (ci s 1 2) (ci s 1 3) (ci s 1 4)
                                (cal_extrinsics_ (self s)) in
  perspective_divide F2_T (cal_extrinsics_ (self s)) xc yc zc.

(** The 4 by 4 identity, as [load_calibration_parameters] builds it. *)
Definition identity_transform : list (list R) :=
  loop 0 4 (fun i v => set2 i i 1 (v ++ [repeat 0 4])) [].

(** Not a function of the source: the projection into the sensor of camera 0
    that the round-trip law pairs with [project_camera_0_to_sensor_1].  It
    is that function with the intrinsics of camera 0 in place of those of
    camera 1 and the identity in place of the camera 0 to camera 1
    transform. *)
Definition project_camera_0_to_sensor_0 (xc yc zc : R) : prog (R * R) :=
  s <- get ;;
  in_range (inside2 (cal_intrinsics_ (self s)) 0 4) ;;
  let F_T := projection_matrix (ci s 0 0) (ci s 0 1) (ci s 0 2) (ci s 0 3) (ci s 0 4)
                               identity_transform in
  perspective_divide F_T identity_transform xc yc zc.

Definition project_left_to_right_sensor_coords (xl yl : R) : prog (R * R) :=
  s <- get ;;
  match projectives_ (self s) with
  | None => assert_ false Assert_projectives_not_null ;; undefined
  | Some p =>
    assert_ (length p =? 8)%nat Assert_projectives_size_8 ;;
    let xr := (vget p 0 * xl + vget p 1 * yl + vget p 2)
              / (vget p 6 * xl + vget p 7 * yl + 1) in
    let yr := (vget p 3 * xl + vget p 4 * yl + vget p 5)
              / (vget p 6 * xl + vget p 7 * yl + 1) in
    ret (xr, yr)
  end.

(** ** Estimation of the projective transform *)

(** The first pass over projection_points.dat; [lines] are the token arrays
    of the successive [tokenize_line(projDataFile)] calls. *)
Fixpoint count_coords (lines : list (list string)) (num_coords : nat) : prog nat :=
  match lines with
  | [] => ret num_coords
  | tokens :: rest =>
    if (length tokens =? 0)%nat then count_coords rest num_coords
    else
      test_for_exception (negb (length tokens =? 4)%nat) ProjectionLineNotFourValues ;;
      count_coords rest (S num_coords)
  end.

(** The second pass, after [seekg(0)]: the four coordinate vectors. *)
Fixpoint read_coords (lines : list (list string)) (coord_index : nat)
    (proj : list R * list R * list R * list R)
    : prog (list R * list R * list R * list R) :=
  match lines with
  | [] => ret proj
  | tokens :: rest =>
    if (length tokens =? 0)%nat then read_coords rest coord_index proj
    else
      assert_ (length tokens =? 4)%nat Assert_tokens_size_eq_4 ;;
      let '(proj_xl, proj_yl, proj_xr, proj_yr) := proj in
      in_range (coord_index <? length proj_xl)%nat ;;
      read_coords rest (S coord_index)
        (vset coord_index (strtod (token tokens 0)) proj_xl,
         vset coord_index (strtod (token tokens 1)) proj_yl,
         vset coord_index (strtod (token tokens 2)) proj_xr,
         vset coord_index (strtod (token tokens 3)) proj_yr)
  end.

(** What a successful call leaves outside the object: the two coefficient
    lists and the iteration count printed to projection_out.dat and, when
    asked for, the intensities of projection_diff.tif and of
    right_projected_to_left.tif.  (A call that throws after the first list
    was printed leaves that file behind; the files are not part of [State].) *)
Record estimate_output : Type := {
  point_matching_parameters : list R;
  optimized_parameters : list R;
  num_iterations : nat;
  projected_images : option (list R * list R)
}.

(** [for(int_t j = 0.05*n; j < 0.95*n; ++j)]: the indices the loop visits. *)
Definition central_range (n : nat) : list nat :=
  let start := Z.to_nat (Int_part (5 / 100 * INR n)) in
  filter (fun j => Rltb (INR j) (95 / 100 * INR n)) (seq start (n - start)).

Fixpoint for_each {X : Type} (l : list nat) (body : nat -> X -> prog X) (x : X) : prog X :=
  match l with
  | [] => ret x
  | i :: rest => x' <- body i x ;; for_each rest body x'
  end.

Definition estimate_projective_transform (left_img right_img : Image)
    (output_projected_image : bool) (projDataFile : option (list (list string)))
    : prog estimate_output :=
  match projDataFile with
  | None => throw ProjectionPointsNotGood
  | Some lines =>
    num_coords <- count_coords lines 0 ;;
    test_for_exception (num_coords <? 4)%nat NotEnoughCoordinates ;;
    proj <- read_coords lines 0 (repeat 0 num_coords, repeat 0 num_coords,
                                 repeat 0 num_coords, repeat 0 num_coords) ;;
    let '(proj_xl, proj_yl, proj_xr, proj_yr) := proj in
    (* use a least squares fit to estimate the parameters *)
    let N := 8%nat in
    let K := loop 0 num_coords (fun i => block [
      sdm_set (i * 2 + 0) 0 (vget proj_xl i);
      sdm_set (i * 2 + 0) 1 (vget proj_yl i);
      sdm_set (i * 2 + 0) 2 1;
      sdm_set (i * 2 + 0) 6 (- 1 * vget proj_xl i * vget proj_xr i);
      sdm_set (i * 2 + 0) 7 (- 1 * vget proj_yl i * vget proj_xr i);
      sdm_set (i * 2 + 1) 3 (vget proj_xl i);
      sdm_set (i * 2 + 1) 4 (vget proj_yl i);
      sdm_set (i * 2 + 1) 5 1;
      sdm_set (i * 2 + 1) 6 (- 1 * vget proj_xl i * vget proj_yr i);
      sdm_set (i * 2 + 1) 7 (- 1 * vget proj_yl i * vget proj_yr i) ])
      (sdm_zero (num_coords * 2) N) in
    let F := loop 0 num_coords (fun i => block [
      vset (i * 2 + 0) (vget proj_xr i);
      vset (i * 2 + 1) (vget proj_yr i) ]) (repeat 0 (num_coords * 2)) in
    let KTK := loop 0 N (fun k => loop 0 N (fun m => loop 0 (num_coords * 2) (fun j =>
      sdm_add k m (sdm_get K j k * sdm_get K j m)))) (sdm_zero N N) in
    (* invert the KTK matrix; no handler here, and INFO is not read *)
    let '(LU, IPIV, INFO) :=
      GETRF (numRows KTK) (numCols KTK) (values KTK) (numRows KTK) in
    let KTK := sdm_write KTK LU in
    match GETRI (numRows KTK) (values KTK) (numRows KTK) IPIV (N * N) with
    | Raised => lift Uncaught
    | Returned (A, WORK, INFO) =>
      let KTK := sdm_write KTK A in
      let KTu := loop 0 N (fun i => loop 0 (num_coords * 2) (fun j v =>
        vset i (vget v i + sdm_get K j i * vget F j) v)) (repeat 0 N) in
      s <- get ;;
      match projectives_ (self s) with
      | None => undefined
      | Some p =>
        let p := loop 0 (length p) (fun i => vset i 0) p in
        in_range (N <=? length p)%nat ;;
        let p := loop 0 N (fun i => loop 0 N (fun j v =>
          vset i (vget v i + sdm_get KTK i j * vget KTu j) v)) p in
        assign (upd_self (with_projectives_ (Some p))) ;;
        let initial := p in
        (* simplex optimize the coefficients *)
        let deltas := block [ vset 0 (1 / 1000); vset 1 (1 / 1000); vset 2 1;
                              vset 3 (1 / 1000); vset 4 (1 / 1000); vset 5 1;
                              vset 6 (1 / 10000); vset 7 (1 / 10000) ]
                            (repeat 0 8) in
        let '(refined, iterations, successful) := minimize left_img right_img p deltas in
        let p := write_buffer p refined in
        assign (upd_self (with_projectives_ (Some p))) ;;
        test_for_exception (negb successful) ProjectiveTransformNotDetermined ;;
        (if output_projected_image then
           let w := width left_img in
           let h := height left_img in
           imgs <- for_each (central_range h) (fun j => for_each (central_range w)
             (fun i '(diff_intens, intens) =>
                c <- project_left_to_right_sensor_coords (INR i) (INR j) ;;
                let '(xr, yr) := c in
                ret (vset (j * w + i)
                          (pixel left_img i j - interpolate_keys_fourth right_img xr yr)
                          diff_intens,
                     vset (j * w + i) (interpolate_keys_fourth right_img xr yr) intens)))
             (repeat 0 (w * h), repeat 0 (w * h)) ;;
           ret (Some imgs)
         else ret None) >>= (fun images =>
        ret {| point_matching_parameters := initial;
               optimized_parameters := p;
               num_iterations := iterations;
               projected_images := images |})
      end
    end
  end.

End Members.

(** ** The least-squares system in closed form *)

(** The entries of the calibration, read with their names. *)
Definition intr (t : Triangulation) (i j : nat) : R := at2 (cal_intrinsics_ t) i j.
Definition extr (t : Triangulation) (i j : nat) : R := at2 (cal_extrinsics_ t) i j.

(** The design matrix [M] (4 by 3, column-major) and the vector [r] that
    [triangulate] builds from the calibration and the four sensor
    coordinates it works with. *)
Definition design_values (t : Triangulation) (xc0 yc0 xc1 yc1 : R) : list R :=
  let cmx := intr t 1 0 - xc1 in
  let cmy := intr t 1 1 - yc1 in
  [ intr t 0 2; 0;
    cmx * extr t 2 0 + intr t 1 2 * extr t 0 0 + intr t 1 4 * extr t 1 0;
    cmy * extr t 2 0 + intr t 1 3 * extr t 1 0;
    intr t 0 4; intr t 0 3;
    cmx * extr t 2 1 + intr t 1 2 * extr t 0 1 + intr t 1 4 * extr t 1 1;
    cmy * extr t 2 1 + intr t 1 3 * extr t 1 1;
    intr t 0 0 - xc0; intr t 0 1 - yc0;
    cmx * extr t 2 2 + intr t 1 2 * extr t 0 2 + intr t 1 4 * extr t 1 2;
    cmy * extr t 2 2 + intr t 1 3 * extr t 1 2 ].

Definition rhs_values (t : Triangulation) (xc1 yc1 : R) : list R :=
  let cmx := intr t 1 0 - xc1 in
  let cmy := intr t 1 1 - yc1 in
  [ 0; 0;
    - intr t 1 2 * extr t 0 3 - intr t 1 4 * extr t 1 3 - cmx * extr t 2 3;
    - intr t 1 3 * extr t 1 3 - cmy * extr t 2 3 ].

(** [M^T M] (3 by 3, column-major) for a 4 by 3 column-major [Mv]. *)
Definition normal_values (Mv : list R) : list R :=
  map (fun idx => sum_upto 4 (fun k =>
         nth (k + (idx mod 3) * 4) Mv 0 * nth (k + (idx / 3) * 4) Mv 0))
      (seq 0 9).

(** Row [i] of [(B M^T) r]. *)
Definition pseudo_solution (B Mv rv : list R) (i : nat) : R :=
  sum_upto 4 (fun j =>
    sum_upto 3 (fun k => cm_get 3 B i k * nth (j + k * 4) Mv 0) * nth j rv 0).

(** Row [i] of the camera 0 to world transform applied to [(X, 1)]. *)
Definition to_world (t : Triangulation) (X : list R) (i : nat) : R :=
  sum_upto 4 (fun j => at2 (trans_extrinsics_ t) i j * nth j (firstn 3 X ++ [1]) 0).

(** The squared length of [M X - r] for a 4 by 3 column-major [Mv]. *)
Definition residual (Mv rv : list R) (X0 X1 X2 : R) : R :=
  sum_upto 4 (fun j =>
    (nth j Mv 0 * X0 + nth (j + 4) Mv 0 * X1 + nth (j + 8) Mv 0 * X2 - nth j rv 0) *
    (nth j Mv 0 * X0 + nth (j + 4) Mv 0 * X1 + nth (j + 8) Mv 0 * X2 - nth j rv 0)).


(** The shape [load_calibration_parameters] gives the three member vectors:
    two rows of eight intrinsics and two 4 by 4 transforms. *)
Definition shaped_calibration (t : Triangulation) : Prop :=
  map (@length R) (cal_intrinsics_ t) = [8; 8]%nat /\
  map (@length R) (cal_extrinsics_ t) = [4; 4; 4; 4]%nat /\
  map (@length R) (trans_extrinsics_ t) = [4; 4; 4; 4]%nat.

(** ** What the members compute, as functions of the calibration

    Closed forms that read no static variable; the theorems below show that
    the members compute them. *)

Definition obind {A B : Type} (o : outcome A) (f : A -> outcome B) : outcome B :=
  match o with
  | Normal a => f a
  | Throws e => Throws e
  | AssertFails a => AssertFails a
  | Uncaught => Uncaught
  | Undefined => Undefined
  end.

(** The outcome of [correct_lens_distortion_radial]. *)
Definition corrected (t : Triangulation) (x_s y_s : R) (camera_id : nat) : outcome (R * R) :=
  if (0 <? length (cal_intrinsics_ t))%nat then
    if inside2 (cal_intrinsics_ t) camera_id 7 then
      let r1 := (x_s - intr t camera_id 0) / intr t camera_id 0 in
      let r2 := (y_s - intr t camera_id 1) / intr t camera_id 1 in
      let rho_tilde := r1 * r1 + r2 * r2 in
      let factor := intr t camera_id 5 * rho_tilde
                    + intr t camera_id 6 * rho_tilde * rho_tilde
                    + intr t camera_id 7 * rho_tilde * rho_tilde * rho_tilde in
      Normal (x_s - factor * r1 * intr t camera_id 0,
              y_s - factor * r2 * intr t camera_id 1)
    else Undefined
  else AssertFails Assert_cal_intrinsics_nonempty.

(** The six outputs for the array [B] that the two LAPACK calls leave in
    [MTM]. *)
Definition solution (t : Triangulation) (B Mv rv : list R) : R * R * R * R * R * R :=
  let X := [pseudo_solution B Mv rv 0; pseudo_solution B Mv rv 1;
            pseudo_solution B Mv rv 2] in
  (nth 0 X 0, nth 1 X 0, nth 2 X 0, to_world t X 0, to_world t X 1, to_world t X 2).

(** The outcome of [triangulate_solve] on the coordinates it works with. *)
Definition solve_outcome {lapack : LAPACK} (t : Triangulation) (xc0 yc0 xc1 yc1 : R)
    : outcome (R * R * R * R * R * R) :=
  if triangulate_indices_inside t then
    let Mv := design_values t xc0 yc0 xc1 yc1 in
    let rv := rhs_values t xc1 yc1 in
    let '(F, P, info) := GETRF 3 3 (normal_values Mv) 3 in
    match GETRI 3 F 3 P LWORK with
    | Returned (B, W, info) => Normal (solution t (write_buffer F B) Mv rv)
    | Raised => Throws CouldNotInvertM
    end
  else Undefined.

(** The outcome of [triangulate]. *)
Definition triangulate_outcome {lapack : LAPACK} (t : Triangulation)
    (x0 y0 x1 y1 : R) (correct_lens_distortion : bool)
    : outcome (R * R * R * R * R * R) :=
  if correct_lens_distortion then
    obind (corrected t x0 y0 0) (fun c0 =>
    obind (corrected t x1 y1 1) (fun c1 =>
    solve_outcome t (fst c0) (snd c0) (fst c1) (snd c1)))
  else solve_outcome t x0 y0 x1 y1.

(** ** Reference collaborators *)

(** The inverse of a square matrix in exact arithmetic, with the [INFO] that
    goes with it: the array is left as it is when it has no inverse. *)
Definition exact_inverse (n : nat) (A : list R) : list R * Z :=
  match excluded_middle_informative (cm_invertible n A) with
  | left H => (proj1_sig (constructive_indefinite_description _ H), 0%Z)
  | right _ => (A, 1%Z)
  end.

(** A [LAPACK] that meets the contract: the factorisation step records in
    [INFO] whether the matrix is singular, the inversion step puts the
    inverse in place. *)
#[export] Instance exact_lapack : LAPACK.
Proof.
  refine {| GETRF m n A lda := (A, repeat 0%Z (Nat.min m n), snd (exact_inverse n A));
            GETRI n A lda ipiv lwork :=
              Returned (fst (exact_inverse n A), repeat 0 lwork, snd (exact_inverse n A)) |}.
  - intros; discriminate.
  - intros; simpl; split; [reflexivity | apply repeat_length].
  - intros n A lwork _ H.
    exists A, (repeat 0%Z (Nat.min n n)), (fst (exact_inverse n A)), (repeat 0 lwork).
    unfold exact_inverse.
    destruct (excluded_middle_informative (cm_invertible n A)) as [H'|H'];
      [|contradiction].
    cbn [fst snd]. split; [reflexivity|]. split; [reflexivity|].
    exact (proj2_sig (constructive_indefinite_description _ H')).
  - intros n A lwork _ H.
    exists A, (repeat 0%Z (Nat.min n n)), 1%Z, A, (repeat 0 lwork), 1%Z.
    unfold exact_inverse.
    destruct (excluded_middle_informative (cm_invertible n A)) as [H'|H'];
      [contradiction|].
    cbn [fst snd]. split; [reflexivity|]. split; [lia|].
    split; [reflexivity|lia].
Defined.

(** [strtod] on a string of decimal digits. *)
Fixpoint digits_value (s : string) (acc : nat) : nat :=
  match s with
  | EmptyString => acc
  | String c rest => digits_value rest (10 * acc + (nat_of_ascii c - 48))
  end.

(** Collaborators to run the members with: numbers are written in decimal
    digits, images are empty and the optimizer returns its starting point. *)
#[export] Instance sample_collaborators : Collaborators := {|
  strtod := fun s => IZR (Z.of_nat (digits_value s 0));
  Image := unit;
  width := fun _ => 0%nat;
  height := fun _ => 0%nat;
  pixel := fun _ _ _ => 0;
  interpolate_keys_fourth := fun _ _ _ => 0;
  minimize := fun _ _ p _ => (p, 0%nat, true)
|}.

(** ** Sample data *)

(** Two cameras with principal point (1, 1), unit focal lengths and no skew
    or distortion, camera 1 shifted by one unit along x; world frame equal
    to the frame of camera 0; eight zero coefficients for the projective
    transform. *)
Definition sample_calibration : Triangulation := {|
  cal_intrinsics_ := [ [1; 1; 1; 1; 0; 0; 0; 0]; [1; 1; 1; 1; 0; 0; 0; 0] ];
  cal_extrinsics_ := [ [1; 0; 0; 1]; [0; 1; 0; 0]; [0; 0; 1; 0]; [0; 0; 0; 1] ];
  trans_extrinsics_ := [ [1; 0; 0; 0]; [0; 1; 0; 0]; [0; 0; 1; 0]; [0; 0; 0; 1] ];
  projectives_ := Some [0; 0; 0; 0; 0; 0; 0; 0]
|}.

Definition sample_state : State :=
  {| self := sample_calibration; tri := Tri_initial; rad := Rad_initial |}.

(** The same object with every static variable holding leftovers. *)
Definition scribbled_state : State :=
  {| self := sample_calibration;
     tri := Tri.mk 7 7 7 7
              {| numRows := 4; numCols := 3; values := repeat 7 12 |}
              {| numRows := 3; numCols := 3; values := repeat 7 9 |}
              {| numRows := 3; numCols := 4; values := repeat 7 12 |}
              (repeat 7 4) (repeat 7 4) (repeat 7 4) 7 7
              (repeat 7%Z 4) (repeat 7 LWORK) 7%Z;
     rad := Rad.mk 7 7 7 7 |}.

(** The same two cameras in the same place: camera 0 to camera 1 is the
    identity. *)
Definition coincident_calibration : Triangulation := {|
  cal_intrinsics_ := [ [1; 1; 1; 1; 0; 0; 0; 0]; [1; 1; 1; 1; 0; 0; 0; 0] ];
  cal_extrinsics_ := [ [1; 0; 0; 0]; [0; 1; 0; 0]; [0; 0; 1; 0]; [0; 0; 0; 1] ];
  trans_extrinsics_ := [ [1; 0; 0; 0]; [0; 1; 0; 0]; [0; 0; 1; 0]; [0; 0; 0; 1] ];
  projectives_ := Some [0; 0; 0; 0; 0; 0; 0; 0]
|}.

Definition coincident_state : State :=
  {| self := coincident_calibration; tri := Tri_initial; rad := Rad_initial |}.

(** ** The lines a calibration file is read from *)

(** A line the txt loop takes a value from: not empty, not a comment. *)
Definition is_value_line (tokens : list string) : bool :=
  negb (length tokens =? 0)%nat && negb (String.eqb (token tokens 0) "#").

Definition count_values (lines : list (list string)) : nat :=
  length (filter is_value_line lines).

(** A line the xml loop takes a camera record from. *)
Definition is_camera_line (tokens : list string) : bool :=
  negb (length tokens =? 0)%nat && String.eqb (token tokens 0) "CAMERA".

Definition camera_records (lines : list (list string)) : list (list string) :=
  filter is_camera_line lines.

(** A line of projection_points.dat that holds a point. *)
Definition is_point_line (tokens : list string) : bool :=
  negb (length tokens =? 0)%nat.

Definition count_points (lines : list (list string)) : nat :=
  length (filter is_point_line lines).

(** [A] as a vector of rows, and the rows of [A * B], for 4 by 4 matrices
    held column-major. *)
Definition rows_of (A : list R) : list (list R) :=
  map (fun i => map (fun j => cm_get 4 A i j) (seq 0 4)) (seq 0 4).

Definition product_rows (A B : list R) : list (list R) :=
  map (fun i => map (fun j => sum_upto 4 (fun k => cm_get 4 A i k * cm_get 4 B k j))
                    (seq 0 4)) (seq 0 4).

(** The pose matrix the xml loop builds from a camera record. *)
Definition record_pose {collaborators : Collaborators} (tokens : list string)
    : SerialDenseMatrix :=
  convert_CB_angles_to_T (strtod (token tokens 11)) (strtod (token tokens 12))
                         (strtod (token tokens 13)) (strtod (token tokens 14))
                         (strtod (token tokens 15)) (strtod (token tokens 16)).

(** Four correspondences, one per line, with an empty line between. *)
Definition sample_points : list (list string) :=
  [ ["0"; "0"; "0"; "0"]; ["1"; "0"; "1"; "0"]; [];
    ["0"; "1"; "0"; "1"]; ["1"; "1"; "1"; "1"] ]%string.

(** A txt calibration file with 22 values: the intrinsics of the two sample
    cameras, then the pose of camera 1 (no rotation, one unit along x). *)
Definition sample_txt_file : list (list string) :=
  [ ["#"; "camera"; "0"];
    ["1"; "#"; "cx"]; ["1"]; ["1"]; ["1"]; ["0"]; ["0"]; ["0"]; ["0"];
    [];
    ["1"]; ["1"]; ["1"]; ["1"]; ["0"]; ["0"]; ["0"]; ["0"];
    ["0"]; ["0"]; ["0"]; ["1"]; ["0"]; ["0"] ]%string.


(** A txt calibration file for two cameras in the same place: the sample
    intrinsics and an all-zero pose of camera 1. *)
Definition coincident_txt_file : list (list string) :=
  [ ["1"]; ["1"]; ["1"]; ["1"]; ["0"]; ["0"]; ["0"]; ["0"];
    ["1"]; ["1"]; ["1"]; ["1"]; ["0"]; ["0"]; ["0"]; ["0"];
    ["0"]; ["0"]; ["0"]; ["0"]; ["0"]; ["0"] ]%string.

(** An xml calibration file with the two sample cameras. *)
Definition sample_xml_file : list (list string) :=
  [ ["?xml"; "version"];
    ["CAMERA"; "0"; "1"; "1"; "1"; "1"; "0"; "0"; "0"; "0";
      "ORIENTATION"; "0"; "0"; "0"; "0"; "0"; "0"; "/CAMERA"];
    [];
    ["CAMERA"; "1"; "1"; "1"; "1"; "1"; "0"; "0"; "0"; "0";
      "ORIENTATION"; "0"; "0"; "0"; "1"; "0"; "0"; "/CAMERA"] ]%string.

(** Three correspondences. *)
Definition three_points : list (list string) :=
  [ ["0"; "0"; "0"; "0"]; ["1"; "0"; "1"; "0"]; ["0"; "1"; "0"; "1"] ]%string.

(** ** Rotations *)

(** The 3 by 3 block of a transform, as a function of row and column, and
    the product and determinant of such blocks. *)
Definition rotation_block (T : SerialDenseMatrix) (i j : nat) : R := sdm_get T i j.

Definition mul3 (A B : nat -> nat -> R) (i j : nat) : R :=
  sum_upto 3 (fun k => A i k * B k j).

Definition det3 (A : nat -> nat -> R) : R :=
  A 0%nat 0%nat * (A 1%nat 1%nat * A 2%nat 2%nat - A 1%nat 2%nat * A 2%nat 1%nat)
  - A 0%nat 1%nat * (A 1%nat 0%nat * A 2%nat 2%nat - A 1%nat 2%nat * A 2%nat 0%nat)
  + A 0%nat 2%nat * (A 1%nat 0%nat * A 2%nat 1%nat - A 1%nat 1%nat * A 2%nat 0%nat).

Definition kronecker (i j : nat) : R := if (i =? j)%nat then 1 else 0.

(** The rotations by an angle in degrees about the x, y and z axes. *)
Definition rotation_x (angle : R) (i j : nat) : R :=
  let c := cos (angle * DICE_PI / 180) in
  let s := sin (angle * DICE_PI / 180) in
  nth j (nth i [ [1; 0; 0]; [0; c; - s]; [0; s; c] ] []) 0.

Definition rotation_y (angle : R) (i j : nat) : R :=
  let c := cos (angle * DICE_PI / 180) in
  let s := sin (angle * DICE_PI / 180) in
  nth j (nth i [ [c; 0; s]; [0; 1; 0]; [- s; 0; c] ] []) 0.

Definition rotation_z (angle : R) (i j : nat) : R :=
  let c := cos (angle * DICE_PI / 180) in
  let s := sin (angle * DICE_PI / 180) in
  nth j (nth i [ [c; - s; 0]; [s; c; 0]; [0; 0; 1] ] []) 0.

(** The inverse of a rotation and translation held as a 4 by 4 matrix: the
    transposed rotation, and the translation taken back through it. *)
Definition rigid_inverse_of (T : SerialDenseMatrix) : SerialDenseMatrix :=
  {| numRows := numRows T; numCols := numCols T;
     values :=
       [ sdm_get T 0 0; sdm_get T 0 1; sdm_get T 0 2; 0;
         sdm_get T 1 0; sdm_get T 1 1; sdm_get T 1 2; 0;
         sdm_get T 2 0; sdm_get T 2 1; sdm_get T 2 2; 0;
         - (sdm_get T 0 0 * sdm_get T 0 3 + sdm_get T 1 0 * sdm_get T 1 3
            + sdm_get T 2 0 * sdm_get T 2 3);
         - (sdm_get T 0 1 * sdm_get T 0 3 + sdm_get T 1 1 * sdm_get T 1 3
            + sdm_get T 2 1 * sdm_get T 2 3);
         - (sdm_get T 0 2 * sdm_get T 0 3 + sdm_get T 1 2 * sdm_get T 1 3
            + sdm_get T 2 2 * sdm_get T 2 3); 1 ] |}.

(** Every value line of a txt calibration file holds one token, or a second
    one that is "#": the [assert] of the txt loop passes on it. *)
Definition well_formed_value_lines (lines : list (list string)) : bool :=
  forallb (fun tokens =>
             negb (is_value_line tokens) || negb (1 <? length tokens)%nat
             || String.eqb (token tokens 1) "#") lines.

(** The first tokens of the value lines, in order. *)
Definition value_tokens (lines : list (list string)) : list string :=
  map (fun tokens => token tokens 0) (filter is_value_line lines).

(** What the first statements of [load_calibration_parameters] leave in the
    members once the file is open. *)
Definition cleared_calibration (t : Triangulation) : Triangulation :=
  {| cal_intrinsics_ := zeros2 2 8;
     cal_extrinsics_ := zeros2 4 4;
     trans_extrinsics_ := [ [1; 0; 0; 0]; [0; 1; 0; 0]; [0; 0; 1; 0]; [0; 0; 0; 1] ];
     projectives_ := projectives_ t |}.

(** A txt file with three values, and one with twenty-nine. *)
Definition three_values_txt_file : list (list string) :=
  [ ["1"]; ["1"]; ["1"] ]%string.

Definition too_long_txt_file : list (list string) :=
  repeat ["1"%string] 29.

(** An xml file with a single camera record. *)
Definition one_camera_xml_file : list (list string) :=
  [ ["CAMERA"; "0"; "1"; "1"; "1"; "1"; "0"; "0"; "0"; "0";
      "ORIENTATION"; "0"; "0"; "0"; "0"; "0"; "0"; "/CAMERA"] ]%string.

(** The entry read from value number [i] of a txt file when the loop starts
    at [num_values], and [old] when the loop does not get to it. *)
Definition value_from {collaborators : Collaborators} (lines : list (list string))
    (num_values i : nat) (old : R) : R :=
  if (num_values <=? i)%nat && (i <? num_values + count_values lines)%nat
  then strtod (nth (i - num_values) (value_tokens lines) EmptyString)
  else old.

(** Value number [k] of a txt calibration file. *)
Definition txt_value {collaborators : Collaborators} (lines : list (list string))
    (k : nat) : R :=
  strtod (nth k (value_tokens lines) EmptyString).

(** The pose matrix of the six values of a txt file from number [k] on. *)
Definition txt_pose {collaborators : Collaborators} (lines : list (list string))
    (k : nat) : SerialDenseMatrix :=
  convert_CB_angles_to_T (txt_value lines k) (txt_value lines (k + 1))
                         (txt_value lines (k + 2)) (txt_value lines (k + 3))
                         (txt_value lines (k + 4)) (txt_value lines (k + 5)).

(** Two states hold the same calibration. *)
Definition same_calibration (a b : State) : Prop :=
  cal_intrinsics_ (self a) = cal_intrinsics_ (self b) /\
  cal_extrinsics_ (self a) = cal_extrinsics_ (self b) /\
  trans_extrinsics_ (self a) = trans_extrinsics_ (self b).

(** A call ends the same way and leaves the same calibration from any two
    states that hold the same calibration. *)
Definition calibration_only {A : Type} (m : prog A) : Prop :=
  forall a b, same_calibration a b ->
    snd (m a) = snd (m b) /\ same_calibration (fst (m a)) (fst (m b)).

(** A call leaves the coefficients of the projective transform and the
    static variables as they are. *)
Definition calibration_write {A : Type} (m : prog A) : Prop :=
  forall s, projectives_ (self (fst (m s))) = projectives_ (self s) /\
            tri (fst (m s)) = tri s /\ rad (fst (m s)) = rad s.

(** A line of projection_points.dat that is neither empty nor a point. *)
Definition is_malformed_point_line (tokens : list string) : bool :=
  negb (length tokens =? 0)%nat && negb (length tokens =? 4)%nat.

(** A correspondence file with a line of three fields. *)
Definition malformed_points : list (list string) :=
  [ ["0"; "0"; "0"; "0"]; ["1"; "0"; "1"] ]%string.

(** ** The linear system of the estimator

    The matrix [K], the vector [F], [K^T K] and [K^T F] as
    [estimate_projective_transform] builds them from the four coordinate
    vectors. *)
Definition dlt_K (proj_xl proj_yl proj_xr proj_yr : list R) (num_coords : nat)
    : SerialDenseMatrix :=
  loop 0 num_coords (fun i => block [
    sdm_set (i * 2 + 0) 0 (vget proj_xl i);
    sdm_set (i * 2 + 0) 1 (vget proj_yl i);
    sdm_set (i * 2 + 0) 2 1;
    sdm_set (i * 2 + 0) 6 (- 1 * vget proj_xl i * vget proj_xr i);
    sdm_set (i * 2 + 0) 7 (- 1 * vget proj_yl i * vget proj_xr i);
    sdm_set (i * 2 + 1) 3 (vget proj_xl i);
    sdm_set (i * 2 + 1) 4 (vget proj_yl i);
    sdm_set (i * 2 + 1) 5 1;
    sdm_set (i * 2 + 1) 6 (- 1 * vget proj_xl i * vget proj_yr i);
    sdm_set (i * 2 + 1) 7 (- 1 * vget proj_yl i * vget proj_yr i) ])
    (sdm_zero (num_coords * 2) 8).

Definition dlt_F (proj_xr proj_yr : list R) (num_coords : nat) : list R :=
  loop 0 num_coords (fun i => block [
    vset (i * 2 + 0) (vget proj_xr i);
    vset (i * 2 + 1) (vget proj_yr i) ]) (repeat 0 (num_coords * 2)).

Definition dlt_KTK (K : SerialDenseMatrix) (num_coords : nat) : SerialDenseMatrix :=
  loop 0 8 (fun k => loop 0 8 (fun m => loop 0 (num_coords * 2) (fun j =>
    sdm_add k m (sdm_get K j k * sdm_get K j m)))) (sdm_zero 8 8).

Definition dlt_KTu (K : SerialDenseMatrix) (F : list R) (num_coords : nat) : list R :=
  loop 0 8 (fun i => loop 0 (num_coords * 2) (fun j v =>
    vset i (vget v i + sdm_get K j i * vget F j) v)) (repeat 0 8).

(** The two rows of [K] that a correspondence gives. *)
Definition dlt_row (xl yl xr yr : R) (second : bool) : list R :=
  if second
  then [0; 0; 0; xl; yl; 1; - 1 * xl * yr; - 1 * yl * yr]
  else [xl; yl; 1; 0; 0; 0; - 1 * xl * xr; - 1 * yl * xr].

(** The lines of projection_points.dat that hold a point, and field [k] of
    point [i]. *)
Definition point_lines (lines : list (list string)) : list (list string) :=
  filter is_point_line lines.

Definition point_field {collaborators : Collaborators} (lines : list (list string))
    (i k : nat) : R :=
  strtod (token (nth i (point_lines lines) []) k).

(** [K^T K] for the points of a file, column-major. *)
Definition dlt_normal {collaborators : Collaborators} (lines : list (list string))
    : list R :=
  map (fun idx => sum_upto (count_points lines) (fun i =>
         nth (idx mod 8) (dlt_row (point_field lines i 0) (point_field lines i 1)
                                  (point_field lines i 2) (point_field lines i 3) false) 0
         * nth (idx / 8) (dlt_row (point_field lines i 0) (point_field lines i 1)
                                  (point_field lines i 2) (point_field lines i 3) false) 0
         + nth (idx mod 8) (dlt_row (point_field lines i 0) (point_field lines i 1)
                                    (point_field lines i 2) (point_field lines i 3) true) 0
           * nth (idx / 8) (dlt_row (point_field lines i 0) (point_field lines i 1)
                                    (point_field lines i 2) (point_field lines i 3) true) 0))
      (seq 0 64).

(** A matrix with [nr] rows and room for [nc] columns. *)
Definition sdm_ok (A : SerialDenseMatrix) (nr nc : nat) : Prop :=
  numRows A = nr /\ length (values A) = (nr * nc)%nat.

(** * Reading and writing TIFF images (src/utils/src/DICe_Tiff.cpp)

    The three functions go through boost::gil: [tiff_read_dimensions],
    [tiff_read_and_convert_image] and [tiff_write_view].  The files are a
    store from names to 8-bit gray images that takes every write; opening a
    file that is not there throws in the library, and what was written
    under a name is what is read back from it.  [intensity_t] is a floating-point type (its
    [typedef] is in DICe.h, which is not among the sources; the estimator
    stores differences of [scalar_t] values in it) and is read as a real
    number; an [intensity_host_view_t] is indexed [(x, y)] and is held as
    the vector of its columns. *)

Module Tiff.

(** How a call ends. *)
Inductive result (A : Type) : Type :=
| Done (a : A)            (* the call returns *)
| AssertionFailed         (* assert(file_name!="") aborts the program *)
| LibraryThrows           (* boost::gil could not open the file *)
| OutsideView             (* intensities(x,y) outside the view *)
| ConversionUndefined.    (* a value with no 8-bit representation is converted *)
Arguments Done {A} a.
Arguments AssertionFailed {A}.
Arguments LibraryThrows {A}.
Arguments OutsideView {A}.
Arguments ConversionUndefined {A}.

(** [boost::gil::gray8_image_t]: [row_begin(y)[x]] is [nth x (nth y rows)];
    a channel is an integer from 0 to 255. *)
Record gray8_image_t : Type := {
  width : nat;
  height : nat;
  rows : list (list Z)
}.

Definition pixel_at (rows : list (list Z)) (x y : nat) : Z := nth x (nth y rows []) 0%Z.

Definition set_pixel (x y : nat) (p : Z) (rows : list (list Z)) : list (list Z) :=
  vset y (vset x p (nth y rows [])) rows.

(** [boost::gil::gray8_image_t img(width,height)]. *)
Definition new_image (width height : nat) : list (list Z) :=
  repeat (repeat 0%Z width) height.

(** The files, the last written first. *)
Definition Disk : Type := list (string * gray8_image_t).

Fixpoint lookup (file_name : string) (disk : Disk) : option gray8_image_t :=
  match disk with
  | [] => None
  | (name, img) :: rest => if String.eqb name file_name then Some img else lookup file_name rest
  end.

Definition tiff_read_dimensions (file_name : string) (disk : Disk) : result (nat * nat) :=
  match lookup file_name disk with
  | Some img => Done (width img, height img)
  | None => LibraryThrows
  end.

Definition tiff_read_and_convert_image (file_name : string) (disk : Disk)
    : result gray8_image_t :=
  match lookup file_name disk with
  | Some img => Done img
  | None => LibraryThrows
  end.

Definition tiff_write_view (file_name : string) (img : gray8_image_t) (disk : Disk) : Disk :=
  (file_name, img) :: disk.

(** The conversion of a floating-point value to [unsigned char]: the value
    is truncated towards zero, and the behaviour is undefined when the
    truncated value is not one of 0 ... 255. *)
Definition truncate (v : R) : Z :=
  if Rle_dec 0 v then Int_part v else (- Int_part (- v))%Z.

Definition to_gray8 (v : R) : option Z :=
  let t := truncate v in
  if (0 <=? t)%Z && (t <=? 255)%Z then Some t else None.

(** The pairs [(x, y)] in the order
    [for (y=0; y<height; ++y) for (x=0; x<width; ++x)] visits them. *)
Definition raster (width height : nat) : list (nat * nat) :=
  flat_map (fun y => map (fun x => (x, y)) (seq 0 width)) (seq 0 height).

(** The two nested loops, for a body that can go wrong. *)
Definition for_raster {X : Type} (width height : nat)
    (body : nat -> nat -> X -> result X) (x0 : X) : result X :=
  fold_left (fun acc xy => match acc with
                           | Done v => body (fst xy) (snd xy) v
                           | other => other
                           end)
            (raster width height) (Done x0).

(** The body of the loops of [read_image]:
    [intensities(x,y) = src_it[x]]. *)
Definition load_pixel (rows : list (list Z)) (x y : nat) (intensities : list (list R))
    : result (list (list R)) :=
  if inside2 intensities x y
  then Done (set2 x y (IZR (pixel_at rows x y)) intensities)
  else OutsideView.

(** The body of the loops of [write_image]:
    [src_it[x] = (boost::gil::gray8_pixel_t)(intensities(x,y))]. *)
Definition store_pixel (intensities : list (list R)) (x y : nat) (img : list (list Z))
    : result (list (list Z)) :=
  if inside2 intensities x y then
    match to_gray8 (at2 intensities x y) with
    | Some p => Done (set_pixel x y p img)
    | None => ConversionUndefined
    end
  else OutsideView.

Definition read_image_dimensions (file_name : string) (disk : Disk) : result (nat * nat) :=
  match tiff_read_dimensions file_name disk with
  | Done pt => Done (fst pt, snd pt)
  | AssertionFailed => AssertionFailed
  | LibraryThrows => LibraryThrows
  | OutsideView => OutsideView
  | ConversionUndefined => ConversionUndefined
  end.

(** The result is the content of [intensities] when the call returns. *)
Definition read_image (file_name : string) (intensities : list (list R)) (disk : Disk)
    : result (list (list R)) :=
  if String.eqb file_name "" then AssertionFailed else
  match tiff_read_and_convert_image file_name disk with
  | Done img =>
      let width := width img in
      let height := height img in
      for_raster width height (load_pixel (rows img)) intensities
  | AssertionFailed => AssertionFailed
  | LibraryThrows => LibraryThrows
  | OutsideView => OutsideView
  | ConversionUndefined => ConversionUndefined
  end.

(** The result is the store of files when the call returns. *)
Definition write_image (file_name : string) (width height : nat)
    (intensities : list (list R)) (disk : Disk) : result Disk :=
  if String.eqb file_name "" then AssertionFailed else
  match for_raster width height (store_pixel intensities) (new_image width height) with
  | Done img =>
      Done (tiff_write_view file_name
              {| width := width; height := height; rows := img |} disk)
  | AssertionFailed => AssertionFailed
  | LibraryThrows => LibraryThrows
  | OutsideView => OutsideView
  | ConversionUndefined => ConversionUndefined
  end.

End Tiff.

(** A view of two columns and two rows. *)
Definition sample_view : list (list R) := [ [0; 255]; [12; 100] ].

(** The coefficients of the identity map, and the inverse of the normal
    matrix of the four sample correspondences. *)
Definition identity_coefficients : list R := [1; 0; 0; 0; 1; 0; 0; 0].

(** The scribbled object with other coefficients of the projective
    transform: the calibration is the same, the object is not. *)
Definition reestimated_state : State :=
  upd_self (with_projectives_ (Some identity_coefficients)) scribbled_state.

Definition sample_normal_inverse : list R :=
  [ 6; 1; - 1; 2; 4; - 1; 4; 2;
    1; 2; - 1; 0; 2; 0; 0; 2;
    - 1; - 1; 1; 0; - 1; 0; 0; - 1;
    2; 0; 0; 2; 1; - 1; 2; 0;
    4; 2; - 1; 1; 6; - 1; 2; 4;
    - 1; 0; 0; - 1; - 1; 1; - 1; 0;
    4; 0; 0; 2; 2; - 1; 4; 0;
    2; 2; - 1; 0; 4; 0; 0; 4 ].

(** [K^T K] for the four sample correspondences, column-major. *)
Definition sample_normal_matrix : list R :=
  [ 2; 1; 2; 0; 0; 0; - 2; - 1;
    1; 2; 2; 0; 0; 0; - 1; - 1;
    2; 2; 4; 0; 0; 0; - 2; - 1;
    0; 0; 0; 2; 1; 2; - 1; - 1;
    0; 0; 0; 1; 2; 2; - 1; - 2;
    0; 0; 0; 2; 2; 4; - 1; - 2;
    - 2; - 1; - 2; - 1; - 1; - 1; 3; 2;
    - 1; - 1; - 1; - 1; - 2; - 2; 2; 3 ].

(** A view to read an image into. *)
Definition blank_view : list (list R) := [ [7; 7]; [7; 7] ].

(** * Properties *)

(** ** Radial distortion *)

Lemma inside2_nonempty (v : list (list R)) (i j : nat) :
  inside2 v i j = true -> (0 <? length v)%nat = true.
Proof.
  unfold inside2. intros H. apply andb_prop in H. destruct H as [H _].
  apply Nat.ltb_lt in H. apply Nat.ltb_lt. lia.
Qed.

(** What [correct_lens_distortion_radial] returns once the eight intrinsics
    of the camera are in place, in the words of the code. *)
Lemma correct_lens_distortion_radial_runs (s : State) (camera_id : nat) (x_s y_s : R) :
  inside2 (cal_intrinsics_ (self s)) camera_id 7 = true ->
  let r1 := (x_s - ci s camera_id 0) / ci s camera_id 0 in
  let r2 := (y_s - ci s camera_id 1) / ci s camera_id 1 in
  let rho_tilde := r1 * r1 + r2 * r2 in
  let factor := ci s camera_id 5 * rho_tilde
                + ci s camera_id 6 * rho_tilde * rho_tilde
                + ci s camera_id 7 * rho_tilde * rho_tilde * rho_tilde in
  correct_lens_distortion_radial x_s y_s camera_id s =
  (upd_rad (fun _ => Rad.mk rho_tilde r1 r2 factor) s,
   Normal (x_s - factor * r1 * ci s camera_id 0,
           y_s - factor * r2 * ci s camera_id 1)).
Proof.
  intros Hin. unfold correct_lens_distortion_radial, bind, get.
  rewrite (inside2_nonempty _ _ _ Hin), Hin. reflexivity.
Qed.

(** C5. For a camera whose principal point has cx > 0 and cy > 0 and any
    sensor coordinate (x_s, y_s), [correct_lens_distortion_radial] returns
    (x_s - factor*r1*cx, y_s - factor*r2*cy) with r1 = (x_s - cx)/cx,
    r2 = (y_s - cy)/cy, rho = r1^2 + r2^2 and
    factor = k1*rho + k2*rho^2 + k3*rho^3, a closed form evaluated once; when
    k1 = k2 = k3 = 0 it returns (x_s, y_s) itself. *)
Theorem correct_radial_closed_form (s : State) (camera_id : nat) (x_s y_s : R) :
  inside2 (cal_intrinsics_ (self s)) camera_id 7 = true ->
  let cx := ci s camera_id 0 in
  let cy := ci s camera_id 1 in
  let k1 := ci s camera_id 5 in
  let k2 := ci s camera_id 6 in
  let k3 := ci s camera_id 7 in
  0 < cx -> 0 < cy ->
  let r1 := (x_s - cx) / cx in
  let r2 := (y_s - cy) / cy in
  let rho := r1 ^ 2 + r2 ^ 2 in
  let factor := k1 * rho + k2 * rho ^ 2 + k3 * rho ^ 3 in
  snd (correct_lens_distortion_radial x_s y_s camera_id s)
    = Normal (x_s - factor * r1 * cx, y_s - factor * r2 * cy) /\
  (k1 = 0 -> k2 = 0 -> k3 = 0 ->
   snd (correct_lens_distortion_radial x_s y_s camera_id s) = Normal (x_s, y_s)).
Proof.
  intros Hin cx cy k1 k2 k3 Hcx Hcy r1 r2 rho factor.
  rewrite (correct_lens_distortion_radial_runs s camera_id x_s y_s Hin). cbn [snd].
  fold cx cy k1 k2 k3. fold r1 r2.
  assert (Hf : k1 * (r1 * r1 + r2 * r2)
               + k2 * (r1 * r1 + r2 * r2) * (r1 * r1 + r2 * r2)
               + k3 * (r1 * r1 + r2 * r2) * (r1 * r1 + r2 * r2) * (r1 * r1 + r2 * r2)
               = factor) by (unfold factor, rho; ring).
  rewrite Hf. split; [reflexivity|].
  intros H1 H2 H3.
  assert (H0 : factor = 0) by (unfold factor; rewrite H1, H2, H3; ring).
  rewrite H0. f_equal. f_equal; ring.
Qed.

(** ** Projection into the sensors *)

(** Evaluation of the loops and assignments of the model, leaving the
    arithmetic on real numbers and the reads of the member vectors as they
    are written. *)
Ltac run :=
  cbv -[at2 IZR Rminus Rdiv Rplus Rmult Ropp Rinv Rabs cos sin PI
        Rle_dec Rlt_dec Req_dec_T GETRF GETRI strtod minimize
        write_buffer firstn triangulate_indices_inside].

(** A list of known length, written out. *)
Ltac spell H :=
  repeat match type of H with
         | length ?l = S _ =>
             destruct l as [|? l]; [discriminate H|];
             cbn [length] in H; apply eq_add_S in H
         | length ?l = O =>
             destruct l; [clear H | discriminate H]
         end.

Lemma Reqb_false (x y : R) : x <> y -> Reqb x y = false.
Proof. intros H. unfold Reqb. destruct (Req_dec_T x y); [contradiction|reflexivity]. Qed.

Lemma Reqb_true (x y : R) : x = y -> Reqb x y = true.
Proof. intros H. unfold Reqb. destruct (Req_dec_T x y); [reflexivity|contradiction]. Qed.

Lemma Rltb_true (x y : R) : x < y -> Rltb x y = true.
Proof. intros H. unfold Rltb. destruct (Rlt_dec x y); [reflexivity|contradiction]. Qed.


Lemma Rleb_false (x y : R) : y < x -> Rleb x y = false.
Proof. intros H. unfold Rleb. destruct (Rle_dec x y); [lra|reflexivity]. Qed.

(** The third row of [F2_T] is the third row of the transform. *)
Lemma projection_matrix_row_2 (cx cy fx fy fs : R) (T : list (list R)) (xc yc zc : R) :
  homogeneous_row (projection_matrix cx cy fx fy fs T) 2 xc yc zc = depth_term T xc yc zc.
Proof. unfold homogeneous_row, depth_term, projection_matrix. run. ring. Qed.

Lemma projection_matrix_row_0 (cx cy fx fy fs : R) (T : list (list R)) (xc yc zc : R) :
  homogeneous_row (projection_matrix cx cy fx fy fs T) 0 xc yc zc =
  fx * (at2 T 0 0 * xc + at2 T 0 1 * yc + at2 T 0 2 * zc + at2 T 0 3)
  + fs * (at2 T 1 0 * xc + at2 T 1 1 * yc + at2 T 1 2 * zc + at2 T 1 3)
  + cx * depth_term T xc yc zc.
Proof. unfold homogeneous_row, depth_term, projection_matrix. run. ring. Qed.

Lemma projection_matrix_row_1 (cx cy fx fy fs : R) (T : list (list R)) (xc yc zc : R) :
  homogeneous_row (projection_matrix cx cy fx fy fs T) 1 xc yc zc =
  fy * (at2 T 1 0 * xc + at2 T 1 1 * yc + at2 T 1 2 * zc + at2 T 1 3)
  + cy * depth_term T xc yc zc.
Proof. unfold homogeneous_row, depth_term, projection_matrix. run. ring. Qed.

(** With a depth term that is not zero neither assertion of
    [perspective_divide] fails, when [F2_T] was built from [T]. *)
Lemma perspective_divide_runs (cx cy fx fy fs : R) (T : list (list R))
    (xc yc zc : R) (s : State) :
  depth_term T xc yc zc <> 0 ->
  perspective_divide (projection_matrix cx cy fx fy fs T) T xc yc zc s =
  (s, Normal (1 / depth_term T xc yc zc
                * homogeneous_row (projection_matrix cx cy fx fy fs T) 0 xc yc zc,
              1 / depth_term T xc yc zc
                * homogeneous_row (projection_matrix cx cy fx fy fs T) 1 xc yc zc)).
Proof.
  intros Hpsi. unfold perspective_divide, bind, assert_, ret.
  rewrite (Reqb_false _ _ Hpsi). cbn [negb].
  rewrite projection_matrix_row_2.
  rewrite Rltb_true; [reflexivity|].
  replace (1 / depth_term T xc yc zc * depth_term T xc yc zc - 1) with 0
    by (field; exact Hpsi).
  rewrite Rabs_R0. lra.
Qed.

(** C10. In [project_camera_0_to_sensor_1], for every point (xc, yc, zc)
    whose depth term psi2 (the third row of the camera 0 to camera 1
    transform applied to the homogeneous point) is not zero, the recovered
    homogeneous depth z2 is exactly 1, so |z2 - 1| < 0.1 holds, no assertion
    fails and the call returns the two sensor coordinates. *)
Theorem sensor_1_homogeneous_depth_is_one (s : State) (xc yc zc : R) :
  inside2 (cal_intrinsics_ (self s)) 1 4 && rows_inside (cal_extrinsics_ (self s)) = true ->
  let psi2 := depth_term (cal_extrinsics_ (self s)) xc yc zc in
  let F2_T := projection_matrix (ci s 1 0) (ci s 1 1) (ci s 1 2) (ci s 1 3) (ci s 1 4)
                                (cal_extrinsics_ (self s)) in
  let z2 := 1 / psi2 * homogeneous_row F2_T 2 xc yc zc in
  psi2 <> 0 ->
  z2 = 1 /\
  Rabs (z2 - 1) < 1 / 10 /\
  project_camera_0_to_sensor_1 xc yc zc s =
    (s, Normal (1 / psi2 * homogeneous_row F2_T 0 xc yc zc,
                1 / psi2 * homogeneous_row F2_T 1 xc yc zc)) /\
  (forall a, snd (project_camera_0_to_sensor_1 xc yc zc s) <> AssertFails a).
Proof.
  intros Hin psi2 F2_T z2 Hpsi.
  assert (Hz : z2 = 1).
  { unfold z2, F2_T. rewrite projection_matrix_row_2. fold psi2. field. exact Hpsi. }
  assert (Hrun : project_camera_0_to_sensor_1 xc yc zc s =
    (s, Normal (1 / psi2 * homogeneous_row F2_T 0 xc yc zc,
                1 / psi2 * homogeneous_row F2_T 1 xc yc zc))).
  { unfold project_camera_0_to_sensor_1, bind, get. rewrite Hin.
    cbn [in_range ret]. apply perspective_divide_runs. exact Hpsi. }
  split; [exact Hz|]. split.
  - rewrite Hz. replace (1 - 1) with 0 by ring. rewrite Rabs_R0. lra.
  - split; [exact Hrun|]. intros a. rewrite Hrun. discriminate.
Qed.

(** ** Running the model *)

Lemma write_buffer_full {A : Type} (buf new : list A) :
  length new = length buf -> write_buffer buf new = new.
Proof.
  intros H. unfold write_buffer. rewrite <- H.
  rewrite skipn_all2 by lia. rewrite app_nil_r. apply firstn_all.
Qed.

Lemma write_buffer_length {A : Type} (buf new : list A) :
  length (write_buffer buf new) = length buf.
Proof.
  unfold write_buffer. rewrite length_firstn, length_app, length_skipn. lia.
Qed.

Lemma bind_assign {A : Type} (f : State -> State) (k : unit -> prog A) (s : State) :
  bind (assign f) k s = k tt (f s).
Proof. reflexivity. Qed.

Lemma bind_get {A : Type} (k : State -> prog A) (s : State) :
  bind get k s = k s s.
Proof. reflexivity. Qed.

Lemma bind_ret {A B : Type} (a : A) (k : A -> prog B) (s : State) :
  bind (ret a) k s = k a s.
Proof. reflexivity. Qed.

Lemma bind_throw {A B : Type} (e : runtime_error) (k : A -> prog B) (s : State) :
  bind (throw e) k s = (s, Throws e).
Proof. reflexivity. Qed.

Lemma bind_in_range {A : Type} (b : bool) (k : unit -> prog A) (s : State) :
  bind (in_range b) k s = if b then k tt s else (s, Undefined).
Proof. destruct b; reflexivity. Qed.

(** The value of a state expression, with the arithmetic, the reads of the
    member vectors and the calls into LAPACK left as they are written. *)
Ltac ev t :=
  eval cbv -[at2 IZR Rminus Rdiv Rplus Rmult Ropp Rinv Rabs
             GETRF GETRI write_buffer firstn triangulate_indices_inside] in t.

(** One statement of a call whose value is the hypothesis [H]. *)
Ltac step_in H :=
  lazymatch type of H with
  | bind (assign ?f) ?k ?s = ?r =>
      rewrite (bind_assign f k s) in H;
      let v := ev (f s) in
      replace (f s) with v in H by (vm_compute; reflexivity);
      cbv beta in H
  | bind get ?k ?s = ?r => rewrite (bind_get k s) in H; cbv beta in H
  | bind (ret ?a) ?k ?s = ?r => rewrite (bind_ret a k s) in H; cbv beta in H
  end.

Ltac abstract_term e :=
  let x := fresh "m" in let E := fresh "E" in
  remember e as x eqn:E in *; clear E.

Section Solve.
Context {lapack : LAPACK}.

(** [triangulate_solve] computes [solve_outcome] from the calibration and the
    four coordinates in [xc0], [yc0], [xc1], [yc1]; it reads nothing else of
    the static buffers, writes no member variable and keeps the buffers in
    shape. *)
Lemma triangulate_solve_spec (s : State) :
  Tri_shaped (tri s) ->
  exists s',
    triangulate_solve s =
      (s', solve_outcome (self s) (Tri.xc0 (tri s)) (Tri.yc0 (tri s))
                         (Tri.xc1 (tri s)) (Tri.yc1 (tri s))) /\
    self s' = self s /\ rad s' = rad s /\ Tri_shaped (tri s').
Proof.
  intros Hshape. unfold solve_outcome.
  destruct s as [t ts rs]. destruct t as [cint cext text proj].
  cbn [self tri rad] in *.
  destruct ts as [a1 a2 a3 a4 vM vMTM vMTMMT vr vXc vX a5 a6 vIPIV vWORK vINFO].
  destruct vM as [Mr Mc Mvals]. destruct vMTM as [Ar Ac Avals].
  destruct vMTMMT as [Pr Pc Pvals].
  unfold Tri_shaped, LWORK in Hshape. cbn in Hshape.
  destruct Hshape as (-> & HM & -> & HA & -> & HP & Hr & HXc & HX & HIP & HW).
  spell HM. spell HA. spell HP. spell Hr. spell HXc. spell HX. spell HIP. spell HW.
  cbn [Tri.xc0 Tri.yc0 Tri.xc1 Tri.yc1].
  unfold triangulate_solve. cbv zeta.
  lazymatch goal with
  | |- exists s', ?p ?S = _ /\ _ => remember (p S) as res eqn:H; symmetry in H
  end.
  do 3 step_in H. step_in H.
  rewrite bind_in_range in H. cbn [self] in H.
  destruct (triangulate_indices_inside _) eqn:Hin.
  2:{ subst res. eexists. split; [reflexivity|].
      split; [reflexivity|]. split; [reflexivity|].
      unfold Tri_shaped, LWORK. cbn. repeat split; reflexivity. }
  cbv beta in H.
  destruct (GETRF 3 3 _ 3) as [[F P] info] eqn:HF.
  pose proof (GETRF_lengths 3 3 (normal_values
      (design_values {| cal_intrinsics_ := cint; cal_extrinsics_ := cext;
                        trans_extrinsics_ := text; projectives_ := proj |}
                     a1 a2 a3 a4)) 3) as [HlF HlP].
  rewrite HF in HlF, HlP. cbn [fst snd] in HlF, HlP.
  change (length (normal_values _)) with 9%nat in HlF.
  change (Nat.min 3 3) with 3%nat in HlP.
  spell HlF. spell HlP.
  unfold design_values, rhs_values, intr, extr in *.
  cbn [cal_intrinsics_ cal_extrinsics_ trans_extrinsics_] in *.
  cbv zeta in *.
  step_in H.
  lazymatch type of H with
  | context [ Tri.mk _ _ _ _ {| numRows := _; numCols := _;
                values := [?m0; _; ?m2; ?m3; ?m4; ?m5; ?m6; ?m7; ?m8; ?m9; ?m10; ?m11] |}
               _ _ [_; _; ?q2; ?q3] ] =>
      abstract_term m0; abstract_term m2; abstract_term m3; abstract_term m4;
      abstract_term m5; abstract_term m6; abstract_term m7; abstract_term m8;
      abstract_term m9; abstract_term m10; abstract_term m11;
      abstract_term q2; abstract_term q3
  end.
  step_in H. step_in H.
  cbv -[GETRF Rplus Rmult IZR] in HF. rewrite HF in H. cbv beta iota in H.
  step_in H.
  cbn [tri Tri.MTM Tri.IPIV values] in H.
  rewrite (write_buffer_full (A:=R)) in H by reflexivity.
  change (firstn 3 (write_buffer [0%Z; 0%Z; 0%Z; 0%Z] [z3; z4; z5]))
    with [z3; z4; z5] in H.
  unfold LWORK in *.
  destruct (GETRI 3 _ 3 _ 9) as [[[B W] k]|] eqn:HI.
  2:{ rewrite bind_throw in H. subst res. eexists. split; [reflexivity|].
      split; [reflexivity|]. split; [reflexivity|].
      unfold Tri_shaped, LWORK. cbn [tri Tri.M Tri.MTM Tri.MTMMT Tri.r Tri.XYZc0 Tri.XYZ
                                      Tri.IPIV Tri.WORK numRows values].
      rewrite !write_buffer_length. cbn [length]. repeat split; reflexivity. }
  step_in H.
  pose proof (write_buffer_length [r53; r54; r55; r56; r57; r58; r59; r60; r61] B) as HB.
  remember (write_buffer [r53; r54; r55; r56; r57; r58; r59; r60; r61] B) as B' eqn:EB in *.
  clear EB. cbn [length] in HB. spell HB.
  do 3 step_in H. step_in H. step_in H. step_in H.
  cbv [ret] in H. subst res.
  eexists. split.
  { apply f_equal2; [reflexivity | vm_compute; reflexivity]. }
  split; [reflexivity|]. split; [reflexivity|].
  unfold Tri_shaped, LWORK. cbn [tri Tri.M Tri.MTM Tri.MTMMT Tri.r Tri.XYZc0 Tri.XYZ
                                  Tri.IPIV Tri.WORK numRows values].
  rewrite !write_buffer_length. cbn [length]. repeat split; reflexivity.
Qed.

End Solve.

Lemma correct_lens_distortion_radial_spec (s : State) (x_s y_s : R) (camera_id : nat) :
  exists s',
    correct_lens_distortion_radial x_s y_s camera_id s
      = (s', corrected (self s) x_s y_s camera_id) /\
    self s' = self s /\ tri s' = tri s.
Proof.
  unfold correct_lens_distortion_radial, corrected, bind, get, assert_.
  destruct (0 <? length (cal_intrinsics_ (self s)))%nat.
  - destruct (inside2 (cal_intrinsics_ (self s)) camera_id 7).
    + eexists. split; [reflexivity|]. split; reflexivity.
    + eexists. split; [reflexivity|]. split; reflexivity.
  - eexists. split; [reflexivity|]. split; reflexivity.
Qed.

Lemma bind_bind {A B C : Type} (m : prog A) (k1 : A -> prog B) (k2 : B -> prog C)
    (s : State) :
  bind (bind m k1) k2 s = bind m (fun a => bind (k1 a) k2) s.
Proof. unfold bind. destruct (m s) as [s' [a| | | |]]; reflexivity. Qed.

Section Triangulate.
Context {lapack : LAPACK}.

(** [triangulate] computes [triangulate_outcome] from the calibration and its
    arguments, whatever the static buffers hold when it is called; it writes
    no member variable and keeps the buffers in shape. *)
Lemma triangulate_spec (s : State) (x0 y0 x1 y1 : R) (correct_lens_distortion : bool) :
  Tri_shaped (tri s) ->
  exists s',
    triangulate x0 y0 x1 y1 correct_lens_distortion s =
      (s', triangulate_outcome (self s) x0 y0 x1 y1 correct_lens_distortion) /\
    self s' = self s /\ Tri_shaped (tri s').
Proof.
  intros Hshape. unfold triangulate, triangulate_outcome.
  do 4 (rewrite bind_assign; cbv beta).
  set (s4 := upd_tri (Tri.with_yc1 y1) (upd_tri (Tri.with_xc1 x1)
               (upd_tri (Tri.with_yc0 y0) (upd_tri (Tri.with_xc0 x0) s)))).
  assert (Hs4 : Tri_shaped (tri s4)) by exact Hshape.
  assert (Hself4 : self s4 = self s) by reflexivity.
  destruct correct_lens_distortion.
  - rewrite bind_bind, bind_get. cbv beta.
    change (Tri.xc0 (tri s4)) with x0. change (Tri.yc0 (tri s4)) with y0.
    destruct (correct_lens_distortion_radial_spec s4 x0 y0 0) as (s5 & E5 & Hself5 & Htri5).
    rewrite Hself4 in E5.
    rewrite bind_bind. unfold bind at 1. rewrite E5.
    destruct (corrected (self s) x0 y0 0) as [c0| | | |]; cbn [obind];
      try (eexists; split; [reflexivity|]; split; [congruence| rewrite Htri5; exact Hs4]).
    do 2 (rewrite bind_bind, bind_assign; cbv beta).
    rewrite bind_bind, bind_get. cbv beta.
    set (s6 := upd_tri (Tri.with_yc0 (snd c0)) (upd_tri (Tri.with_xc0 (fst c0)) s5)).
    change (Tri.xc1 (tri s6)) with (Tri.xc1 (tri s5)).
    change (Tri.yc1 (tri s6)) with (Tri.yc1 (tri s5)).
    rewrite Htri5. change (Tri.xc1 (tri s4)) with x1. change (Tri.yc1 (tri s4)) with y1.
    assert (Hself6 : self s6 = self s) by (unfold s6; cbn; congruence).
    assert (Hs6 : Tri_shaped (tri s6)) by (unfold s6; cbn [tri upd_tri]; rewrite Htri5; exact Hs4).
    destruct (correct_lens_distortion_radial_spec s6 x1 y1 1) as (s7 & E7 & Hself7 & Htri7).
    rewrite Hself6 in E7.
    rewrite bind_bind. unfold bind at 1. rewrite E7.
    destruct (corrected (self s) x1 y1 1) as [c1| | | |]; cbn [obind];
      try (eexists; split; [reflexivity|]; split; [congruence| rewrite Htri7; exact Hs6]).
    rewrite bind_bind, bind_assign. cbv beta. rewrite bind_assign. cbv beta.
    set (s8 := upd_tri (Tri.with_yc1 (snd c1)) (upd_tri (Tri.with_xc1 (fst c1)) s7)).
    assert (Hs8 : Tri_shaped (tri s8)) by (unfold s8; cbn [tri upd_tri]; rewrite Htri7; exact Hs6).
    assert (Hself8 : self s8 = self s) by (unfold s8; cbn; congruence).
    destruct (triangulate_solve_spec s8 Hs8) as (s9 & E9 & Hself9 & _ & Hs9).
    exists s9. split; [|split; [|exact Hs9]].
    + rewrite E9. f_equal. rewrite Hself8.
      f_equal; unfold s8; cbn [tri upd_tri Tri.xc0 Tri.yc0 Tri.xc1 Tri.yc1
                                Tri.with_xc1 Tri.with_yc1]; rewrite Htri7; reflexivity.
    + congruence.
  - rewrite bind_ret.
    destruct (triangulate_solve_spec s4 Hs4) as (s5 & E5 & Hself5 & _ & Hs5).
    exists s5. split; [|split; [|exact Hs5]].
    + rewrite E5. reflexivity.
    + rewrite Hself5. reflexivity.
Qed.

End Triangulate.

(** ** The round trip *)

(** Three by three, column-major: what [cm_mul 3 B A = cm_id 3] says entry by
    entry. *)
Lemma left_inverse_3_entries (a0 a1 a2 a3 a4 a5 a6 a7 a8 b0 b1 b2 b3 b4 b5 b6 b7 b8 : R) :
  cm_mul 3 [b0; b1; b2; b3; b4; b5; b6; b7; b8] [a0; a1; a2; a3; a4; a5; a6; a7; a8]
    = cm_id 3 ->
  (b0 * a0 + b3 * a1 + b6 * a2 = 1 /\ b1 * a0 + b4 * a1 + b7 * a2 = 0 /\
   b2 * a0 + b5 * a1 + b8 * a2 = 0) /\
  (b0 * a3 + b3 * a4 + b6 * a5 = 0 /\ b1 * a3 + b4 * a4 + b7 * a5 = 1 /\
   b2 * a3 + b5 * a4 + b8 * a5 = 0) /\
  (b0 * a6 + b3 * a7 + b6 * a8 = 0 /\ b1 * a6 + b4 * a7 + b7 * a8 = 0 /\
   b2 * a6 + b5 * a7 + b8 * a8 = 1).
Proof.
  intros H. cbv -[Rplus Rmult IZR] in H.
  injection H as H0 H1 H2 H3 H4 H5 H6 H7 H8.
  repeat split; lra.
Qed.

(** When [r = M p] holds exactly and [B] is a left inverse of [M^T M], the
    pseudo-inverse applied to [r] gives back [p]. *)
Lemma pseudo_solution_exact (B Mv rv : list R) (p0 p1 p2 : R) :
  length Mv = 12%nat -> length rv = 4%nat ->
  cm_inverse 3 (normal_values Mv) B ->
  (forall j, (j < 4)%nat ->
     nth j Mv 0 * p0 + nth (j + 4) Mv 0 * p1 + nth (j + 8) Mv 0 * p2 = nth j rv 0) ->
  pseudo_solution B Mv rv 0 = p0 /\
  pseudo_solution B Mv rv 1 = p1 /\
  pseudo_solution B Mv rv 2 = p2.
Proof.
  intros HM Hr (_ & HB & Hleft & _) Heq.
  spell HM. spell Hr. spell HB.
  pose proof (Heq 0%nat ltac:(lia)) as E0. pose proof (Heq 1%nat ltac:(lia)) as E1.
  pose proof (Heq 2%nat ltac:(lia)) as E2. pose proof (Heq 3%nat ltac:(lia)) as E3.
  cbn [nth Nat.add] in E0, E1, E2, E3. subst r11 r12 r13 r14.
  cbv -[Rplus Rmult IZR cm_mul cm_id] in Hleft.
  apply left_inverse_3_entries in Hleft.
  destruct Hleft as ((L00 & L10 & L20) & (L01 & L11 & L21) & (L02 & L12 & L22)).
  cbv -[Rplus Rmult IZR].
  repeat split; nsatz.
Qed.

Lemma perspective_divide_normal (F2_T : SerialDenseMatrix) (T : list (list R))
    (xc yc zc xs ys : R) (s : State) :
  snd (perspective_divide F2_T T xc yc zc s) = Normal (xs, ys) ->
  depth_term T xc yc zc <> 0 /\
  xs = 1 / depth_term T xc yc zc * homogeneous_row F2_T 0 xc yc zc /\
  ys = 1 / depth_term T xc yc zc * homogeneous_row F2_T 1 xc yc zc.
Proof.
  unfold perspective_divide, bind, assert_, ret.
  destruct (Req_dec_T (depth_term T xc yc zc) 0) as [E|E].
  - rewrite (Reqb_true _ _ E). cbn. discriminate.
  - rewrite (Reqb_false _ _ E). cbn [negb].
    destruct (Rltb _ _); cbn [snd]; [|discriminate].
    intros H. injection H as <- <-. auto.
Qed.

(** What a returned pair of [project_camera_0_to_sensor_1] is. *)
Lemma project_camera_0_to_sensor_1_normal (s : State) (xc yc zc xs ys : R) :
  snd (project_camera_0_to_sensor_1 xc yc zc s) = Normal (xs, ys) ->
  let T := cal_extrinsics_ (self s) in
  let psi2 := depth_term T xc yc zc in
  psi2 <> 0 /\
  xs = 1 / psi2 * (ci s 1 2 * (at2 T 0 0 * xc + at2 T 0 1 * yc + at2 T 0 2 * zc + at2 T 0 3)
                   + ci s 1 4 * (at2 T 1 0 * xc + at2 T 1 1 * yc + at2 T 1 2 * zc + at2 T 1 3)
                   + ci s 1 0 * psi2) /\
  ys = 1 / psi2 * (ci s 1 3 * (at2 T 1 0 * xc + at2 T 1 1 * yc + at2 T 1 2 * zc + at2 T 1 3)
                   + ci s 1 1 * psi2).
Proof.
  unfold project_camera_0_to_sensor_1, bind, get.
  destruct (inside2 _ 1 4 && rows_inside _); cbn [in_range ret undefined snd];
    [|discriminate].
  intros H. apply perspective_divide_normal in H. destruct H as (Hpsi & -> & ->).
  rewrite projection_matrix_row_0, projection_matrix_row_1. auto.
Qed.

Lemma depth_term_identity (xc yc zc : R) : depth_term identity_transform xc yc zc = zc.
Proof. unfold depth_term. cbv -[IZR Rplus Rmult]. ring. Qed.

(** What a returned pair of the projection into the sensor of camera 0 is. *)
Lemma project_camera_0_to_sensor_0_normal (s : State) (xc yc zc xs ys : R) :
  snd (project_camera_0_to_sensor_0 xc yc zc s) = Normal (xs, ys) ->
  zc <> 0 /\
  xs = 1 / zc * (ci s 0 2 * xc + ci s 0 4 * yc + ci s 0 0 * zc) /\
  ys = 1 / zc * (ci s 0 3 * yc + ci s 0 1 * zc).
Proof.
  unfold project_camera_0_to_sensor_0, bind, get.
  destruct (inside2 _ 0 4); cbn [in_range ret undefined snd]; [|discriminate].
  intros H. apply perspective_divide_normal in H. destruct H as (Hpsi & -> & ->).
  rewrite projection_matrix_row_0, projection_matrix_row_1.
  rewrite depth_term_identity in *.
  split; [exact Hpsi|].
  split; f_equal; cbv -[ci IZR Rplus Rmult Rminus Rdiv Rinv Ropp]; ring.
Qed.

Section RoundTrip.
Context {lapack : LAPACK}.

(** With an invertible normal matrix the two LAPACK calls leave its inverse
    in [MTM], and [triangulate_solve] returns the pseudo-inverse applied to
    [r] and its image under the camera 0 to world transform. *)
Lemma solve_outcome_invertible (t : Triangulation) (xc0 yc0 xc1 yc1 : R) :
  triangulate_indices_inside t = true ->
  cm_invertible 3 (normal_values (design_values t xc0 yc0 xc1 yc1)) ->
  exists B,
    cm_inverse 3 (normal_values (design_values t xc0 yc0 xc1 yc1)) B /\
    solve_outcome t xc0 yc0 xc1 yc1 =
      Normal (solution t B (design_values t xc0 yc0 xc1 yc1) (rhs_values t xc1 yc1)).
Proof.
  intros Hin Hinv. unfold solve_outcome. rewrite Hin. cbv zeta.
  destruct (GETRF_GETRI_inverse 3 _ LWORK ltac:(unfold LWORK; lia) Hinv)
    as (F & P & B & W & HF & HI & HB).
  pose proof (GETRF_lengths 3 3 (normal_values (design_values t xc0 yc0 xc1 yc1)) 3)
    as [HlF _].
  rewrite HF in *. cbn [fst] in HlF. rewrite HI.
  exists B. split; [exact HB|].
  rewrite write_buffer_full; [reflexivity|].
  destruct HB as (HlA & HlB & _). congruence.
Qed.

(** C1. Round trip: a point (X, Y, Z) in the frame of camera 0 is projected
    into the sensor of camera 0 (the pinhole projection with the intrinsics
    of camera 0) and, by [project_camera_0_to_sensor_1], into the sensor of
    camera 1; both projections return, so both depths are non-zero.  With
    positive principal points and an invertible normal matrix, [triangulate]
    on the two sensor coordinates, without distortion correction, returns
    exactly (X, Y, Z) as the camera 0 point. *)
Theorem triangulate_round_trip (s : State) (X Y Z x0 y0 x1 y1 : R) :
  Tri_shaped (tri s) ->
  triangulate_indices_inside (self s) = true ->
  0 < ci s 0 0 -> 0 < ci s 0 1 -> 0 < ci s 1 0 -> 0 < ci s 1 1 ->
  snd (project_camera_0_to_sensor_0 X Y Z s) = Normal (x0, y0) ->
  snd (project_camera_0_to_sensor_1 X Y Z s) = Normal (x1, y1) ->
  cm_invertible 3 (normal_values (design_values (self s) x0 y0 x1 y1)) ->
  snd (triangulate x0 y0 x1 y1 false s) =
    Normal (X, Y, Z, to_world (self s) [X; Y; Z] 0, to_world (self s) [X; Y; Z] 1,
            to_world (self s) [X; Y; Z] 2).
Proof.
  intros Hshape Hin _ _ _ _ H0 H1 Hinv.
  destruct (triangulate_spec s x0 y0 x1 y1 false Hshape) as (s' & E & _).
  rewrite E. cbn [snd triangulate_outcome].
  destruct (solve_outcome_invertible _ x0 y0 x1 y1 Hin Hinv) as (B & HB & ->).
  apply project_camera_0_to_sensor_0_normal in H0. destruct H0 as (HZ & Hx0 & Hy0).
  apply project_camera_0_to_sensor_1_normal in H1. cbv zeta in H1.
  destruct H1 as (Hpsi & Hx1 & Hy1).
  assert (Hsol : pseudo_solution B (design_values (self s) x0 y0 x1 y1)
                                 (rhs_values (self s) x1 y1) 0 = X /\
                 pseudo_solution B (design_values (self s) x0 y0 x1 y1)
                                 (rhs_values (self s) x1 y1) 1 = Y /\
                 pseudo_solution B (design_values (self s) x0 y0 x1 y1)
                                 (rhs_values (self s) x1 y1) 2 = Z).
  { apply pseudo_solution_exact; [reflexivity|reflexivity|exact HB|].
    intros j Hj. unfold design_values, rhs_values, intr, extr. cbv zeta.
    unfold ci, depth_term in *.
    destruct j as [|[|[|[|j]]]]; [| | | |lia]; cbn [nth Nat.add];
      rewrite ?Hx0, ?Hy0, ?Hx1, ?Hy1; field; assumption. }
  destruct Hsol as (EX & EY & EZ).
  unfold solution. cbv zeta. cbn [nth]. rewrite EX, EY, EZ. reflexivity.
Qed.

End RoundTrip.

(** ** Purity of [triangulate] *)

Lemma Tri_initial_shaped : Tri_shaped Tri_initial.
Proof. unfold Tri_shaped, LWORK. cbn. repeat split; reflexivity. Qed.

Section Purity.
Context {lapack : LAPACK}.

(** The outcome reads the intrinsics and the two transforms, and not the
    coefficients of the projective transform. *)
Lemma triangulate_outcome_calibration (t1 t2 : Triangulation) (x0 y0 x1 y1 : R)
    (correct_lens_distortion : bool) :
  cal_intrinsics_ t1 = cal_intrinsics_ t2 ->
  cal_extrinsics_ t1 = cal_extrinsics_ t2 ->
  trans_extrinsics_ t1 = trans_extrinsics_ t2 ->
  triangulate_outcome t1 x0 y0 x1 y1 correct_lens_distortion =
  triangulate_outcome t2 x0 y0 x1 y1 correct_lens_distortion.
Proof.
  intros Hi He Ht.
  unfold triangulate_outcome, solve_outcome, corrected, solution, to_world,
    design_values, rhs_values, triangulate_indices_inside, intr, extr.
  rewrite Hi, He, Ht. reflexivity.
Qed.

(** C9. [triangulate] is a function of its arguments and the stored
    calibration: two calls with equal sensor coordinates, equal
    [correct_lens_distortion] flag and equal calibration (intrinsics, camera
    0 to camera 1 transform, camera 0 to world transform) end the same way
    with the same six outputs, whatever the static buffers and the
    coefficients of the projective transform held before each call, and a
    call leaves the member variables as they were. *)
Theorem triangulate_is_pure (s1 s2 : State) (x0 y0 x1 y1 : R)
    (correct_lens_distortion : bool) :
  Tri_shaped (tri s1) -> Tri_shaped (tri s2) ->
  same_calibration s1 s2 ->
  snd (triangulate x0 y0 x1 y1 correct_lens_distortion s1)
    = snd (triangulate x0 y0 x1 y1 correct_lens_distortion s2) /\
  self (fst (triangulate x0 y0 x1 y1 correct_lens_distortion s1)) = self s1 /\
  self (fst (triangulate x0 y0 x1 y1 correct_lens_distortion s2)) = self s2.
Proof.
  intros H1 H2 (Hi & He & Ht).
  destruct (triangulate_spec s1 x0 y0 x1 y1 correct_lens_distortion H1)
    as (s1' & E1 & Hs1 & _).
  destruct (triangulate_spec s2 x0 y0 x1 y1 correct_lens_distortion H2)
    as (s2' & E2 & Hs2 & _).
  rewrite E1, E2. cbn [fst snd]. split; [|split; assumption].
  apply triangulate_outcome_calibration; assumption.
Qed.

(** No call of [triangulate] ends in a thrown error: the handler around
    [GETRI] is the only place that throws, and [GETRI] returns. *)
Lemma solve_outcome_never_throws (t : Triangulation) (xc0 yc0 xc1 yc1 : R)
    (e : runtime_error) :
  solve_outcome t xc0 yc0 xc1 yc1 <> Throws e.
Proof.
  unfold solve_outcome. destruct (triangulate_indices_inside t); [|discriminate].
  cbv zeta. destruct (GETRF 3 3 _ 3) as [[F P] info].
  destruct (GETRI 3 F 3 P LWORK) as [[[B W] k]|] eqn:HI; [discriminate|].
  exfalso. exact (GETRI_returns _ _ _ _ _ HI).
Qed.

Lemma corrected_never_throws (t : Triangulation) (x y : R) (camera_id : nat)
    (e : runtime_error) :
  corrected t x y camera_id <> Throws e.
Proof.
  unfold corrected. destruct (0 <? _)%nat; [|discriminate].
  destruct (inside2 _ _ _); discriminate.
Qed.

Lemma triangulate_never_throws (s : State) (x0 y0 x1 y1 : R)
    (correct_lens_distortion : bool) (e : runtime_error) :
  Tri_shaped (tri s) ->
  snd (triangulate x0 y0 x1 y1 correct_lens_distortion s) <> Throws e.
Proof.
  intros Hshape.
  destruct (triangulate_spec s x0 y0 x1 y1 correct_lens_distortion Hshape)
    as (s' & E & _).
  rewrite E. cbn [snd]. unfold triangulate_outcome.
  destruct correct_lens_distortion; [|apply solve_outcome_never_throws].
  destruct (corrected (self s) x0 y0 0) as [c0|e0| | |] eqn:E0; cbn [obind];
    try discriminate;
    [|exfalso; exact (corrected_never_throws _ _ _ _ _ E0)].
  destruct (corrected (self s) x1 y1 1) as [c1|e1| | |] eqn:E1; cbn [obind];
    try discriminate;
    [|exfalso; exact (corrected_never_throws _ _ _ _ _ E1)].
  apply solve_outcome_never_throws.
Qed.

(** The normal matrix of two coincident cameras looking at the same sensor
    coordinate has no inverse. *)
Lemma coincident_normal_matrix_singular :
  ~ cm_invertible 3 (normal_values (design_values coincident_calibration 0 0 0 0)).
Proof.
  intros (B & _ & HB & Hleft & _). spell HB.
  cbv -[Rplus Rmult Rminus Ropp IZR cm_mul cm_id] in Hleft.
  cbv -[Rplus Rmult Rminus Ropp IZR] in Hleft.
  injection Hleft as H0 H1 H2 H3 H4 H5 H6 H7 H8. lra.
Qed.

(** C2, at a singular system.  For the two coincident sample cameras and
    the sensor coordinates (0, 0) in both, [M^T M] has no inverse, LAPACK
    says so in [INFO], and [triangulate] returns six numbers all the same:
    no error is thrown. *)
Theorem triangulate_singular_returns :
  ~ cm_invertible 3 (normal_values (design_values coincident_calibration 0 0 0 0)) /\
  (exists F P info, GETRF 3 3 (normal_values (design_values coincident_calibration 0 0 0 0)) 3
                    = (F, P, info) /\ (0 < info)%Z) /\
  (exists out, snd (triangulate 0 0 0 0 false coincident_state) = Normal out) /\
  (forall e, snd (triangulate 0 0 0 0 false coincident_state) <> Throws e).
Proof.
  split; [exact coincident_normal_matrix_singular|].
  destruct (GETRF_GETRI_singular 3 _ LWORK ltac:(unfold LWORK; lia)
              coincident_normal_matrix_singular)
    as (F & P & i & G & W & k & HF & Hi & HI & Hk).
  split; [exists F, P, i; auto|].
  split.
  - destruct (triangulate_spec coincident_state 0 0 0 0 false Tri_initial_shaped)
      as (s' & E & _).
    rewrite E. cbn [snd triangulate_outcome]. unfold solve_outcome.
    change (triangulate_indices_inside (self coincident_state)) with true.
    cbv iota zeta. change (self coincident_state) with coincident_calibration.
    rewrite HF, HI. eexists. reflexivity.
  - intros e. apply triangulate_never_throws. exact Tri_initial_shaped.
Qed.

End Purity.

(** ** The solution is the least-squares one *)

Lemma right_inverse_3_entries (a0 a1 a2 a3 a4 a5 a6 a7 a8 b0 b1 b2 b3 b4 b5 b6 b7 b8 : R) :
  cm_mul 3 [a0; a1; a2; a3; a4; a5; a6; a7; a8] [b0; b1; b2; b3; b4; b5; b6; b7; b8]
    = cm_id 3 ->
  (a0 * b0 + a3 * b1 + a6 * b2 = 1 /\ a1 * b0 + a4 * b1 + a7 * b2 = 0 /\
   a2 * b0 + a5 * b1 + a8 * b2 = 0) /\
  (a0 * b3 + a3 * b4 + a6 * b5 = 0 /\ a1 * b3 + a4 * b4 + a7 * b5 = 1 /\
   a2 * b3 + a5 * b4 + a8 * b5 = 0) /\
  (a0 * b6 + a3 * b7 + a6 * b8 = 0 /\ a1 * b6 + a4 * b7 + a7 * b8 = 0 /\
   a2 * b6 + a5 * b7 + a8 * b8 = 1).
Proof.
  intros H. cbv -[Rplus Rmult IZR] in H.
  injection H as H0 H1 H2 H3 H4 H5 H6 H7 H8.
  repeat split; lra.
Qed.

(** The normal equations: [(M^T M) X = M^T r] for [X = B M^T r] when [B] is
    a right inverse of [M^T M]. *)
Lemma pseudo_solution_normal_equations (B Mv rv : list R) :
  length Mv = 12%nat -> length rv = 4%nat ->
  cm_inverse 3 (normal_values Mv) B ->
  forall i, (i < 3)%nat ->
    cm_get 3 (normal_values Mv) i 0 * pseudo_solution B Mv rv 0 +
    cm_get 3 (normal_values Mv) i 1 * pseudo_solution B Mv rv 1 +
    cm_get 3 (normal_values Mv) i 2 * pseudo_solution B Mv rv 2
    = sum_upto 4 (fun k => nth (k + i * 4) Mv 0 * nth k rv 0).
Proof.
  intros HM Hr (_ & HB & _ & Hright) i Hi.
  spell HM. spell Hr. spell HB.
  cbv -[Rplus Rmult IZR cm_mul cm_id] in Hright.
  apply right_inverse_3_entries in Hright.
  destruct Hright as ((L00 & L10 & L20) & (L01 & L11 & L21) & (L02 & L12 & L22)).
  destruct i as [|[|[|i]]]; [| | |lia]; cbv -[Rplus Rmult IZR]; nsatz.
Qed.

(** No [Y] brings [M Y] closer to [r] than [X = B M^T r] does. *)
Lemma pseudo_solution_least_squares (B Mv rv : list R) (Y0 Y1 Y2 : R) :
  length Mv = 12%nat -> length rv = 4%nat ->
  cm_inverse 3 (normal_values Mv) B ->
  residual Mv rv (pseudo_solution B Mv rv 0) (pseudo_solution B Mv rv 1)
           (pseudo_solution B Mv rv 2)
  <= residual Mv rv Y0 Y1 Y2.
Proof.
  intros HM Hr HB.
  pose proof (pseudo_solution_normal_equations B Mv rv HM Hr HB 0%nat ltac:(lia)) as N0.
  pose proof (pseudo_solution_normal_equations B Mv rv HM Hr HB 1%nat ltac:(lia)) as N1.
  pose proof (pseudo_solution_normal_equations B Mv rv HM Hr HB 2%nat ltac:(lia)) as N2.
  set (x0 := pseudo_solution B Mv rv 0) in *.
  set (x1 := pseudo_solution B Mv rv 1) in *.
  set (x2 := pseudo_solution B Mv rv 2) in *.
  clearbody x0 x1 x2. clear HB.
  destruct Mv as [|a0 [|a1 [|a2 [|a3 [|b0 [|b1 [|b2 [|b3 [|c0 [|c1 [|c2 [|c3 [|]]]]]]]]]]]]];
    try discriminate HM.
  destruct rv as [|d0 [|d1 [|d2 [|d3 [|]]]]]; try discriminate Hr.
  cbv -[Rplus Rmult Rminus IZR Rle] in N0, N1, N2 |- *.
  match goal with |- ?a <= ?b =>
    match type of N0 with ?l0 = ?r0 =>
    match type of N1 with ?l1 = ?r1 =>
    match type of N2 with ?l2 = ?r2 =>
      assert (E : b = a
        + ((a0 * (Y0 - x0) + b0 * (Y1 - x1) + c0 * (Y2 - x2)) *
           (a0 * (Y0 - x0) + b0 * (Y1 - x1) + c0 * (Y2 - x2))
         + (a1 * (Y0 - x0) + b1 * (Y1 - x1) + c1 * (Y2 - x2)) *
           (a1 * (Y0 - x0) + b1 * (Y1 - x1) + c1 * (Y2 - x2))
         + (a2 * (Y0 - x0) + b2 * (Y1 - x1) + c2 * (Y2 - x2)) *
           (a2 * (Y0 - x0) + b2 * (Y1 - x1) + c2 * (Y2 - x2))
         + (a3 * (Y0 - x0) + b3 * (Y1 - x1) + c3 * (Y2 - x2)) *
           (a3 * (Y0 - x0) + b3 * (Y1 - x1) + c3 * (Y2 - x2)))
        + 2 * ((Y0 - x0) * (l0 - r0) + (Y1 - x1) * (l1 - r1) + (Y2 - x2) * (l2 - r2)))
        by ring
    end end end
  end.
  rewrite E, N0, N1, N2.
  match goal with |- _ <= _ + (?p * ?p + ?q * ?q + ?u * ?u + ?v * ?v) + _ =>
    pose proof (Rle_0_sqr p) as P1; pose proof (Rle_0_sqr q) as P2;
    pose proof (Rle_0_sqr u) as P3; pose proof (Rle_0_sqr v) as P4;
    unfold Rsqr in P1, P2, P3, P4
  end.
  lra.
Qed.

Section LeastSquares.
Context {lapack : LAPACK}.

(** X18 (C2, at an invertible system).  When [M^T M] has an inverse, [triangulate]
    returns [(M^T M)^-1 M^T r] as the camera 0 point, which solves the
    normal equations and minimises the squared length of [M X - r], and that
    point under the camera 0 to world transform as the world point. *)
Lemma triangulate_least_squares (s : State) (x0 y0 x1 y1 : R) :
  Tri_shaped (tri s) ->
  triangulate_indices_inside (self s) = true ->
  cm_invertible 3 (normal_values (design_values (self s) x0 y0 x1 y1)) ->
  exists B xc yc zc,
    cm_inverse 3 (normal_values (design_values (self s) x0 y0 x1 y1)) B /\
    xc = pseudo_solution B (design_values (self s) x0 y0 x1 y1)
                         (rhs_values (self s) x1 y1) 0 /\
    yc = pseudo_solution B (design_values (self s) x0 y0 x1 y1)
                         (rhs_values (self s) x1 y1) 1 /\
    zc = pseudo_solution B (design_values (self s) x0 y0 x1 y1)
                         (rhs_values (self s) x1 y1) 2 /\
    snd (triangulate x0 y0 x1 y1 false s) =
      Normal (xc, yc, zc, to_world (self s) [xc; yc; zc] 0,
              to_world (self s) [xc; yc; zc] 1, to_world (self s) [xc; yc; zc] 2) /\
    forall Y0 Y1 Y2,
      residual (design_values (self s) x0 y0 x1 y1) (rhs_values (self s) x1 y1) xc yc zc
      <= residual (design_values (self s) x0 y0 x1 y1) (rhs_values (self s) x1 y1)
                  Y0 Y1 Y2.
Proof.
  intros Hshape Hin Hinv.
  destruct (triangulate_spec s x0 y0 x1 y1 false Hshape) as (s' & E & _).
  destruct (solve_outcome_invertible (self s) x0 y0 x1 y1 Hin Hinv) as (B & HB & Hs).
  exists B. do 3 eexists. split; [exact HB|].
  split; [reflexivity|]. split; [reflexivity|]. split; [reflexivity|]. split.
  - rewrite E. cbn [snd triangulate_outcome]. rewrite Hs. reflexivity.
  - intros Y0 Y1 Y2. apply pseudo_solution_least_squares; [reflexivity|reflexivity|exact HB].
Qed.

End LeastSquares.


(** ** Witnesses on the sample data *)

Lemma sample_normal_matrix_invertible :
  cm_invertible 3 (normal_values (design_values sample_calibration 1 1 2 1)).
Proof.
  exists [1; 0; 1; 0; 1 / 2; 0; 1; 0; 2].
  split; [reflexivity|]. split; [reflexivity|].
  split; cbv -[Rplus Rmult Rminus Ropp Rdiv Rinv IZR]; repeat f_equal; lra.
Qed.

Lemma sample_projection_0 :
  snd (project_camera_0_to_sensor_0 0 0 1 sample_state) = Normal (1, 1).
Proof.
  unfold project_camera_0_to_sensor_0, bind, get.
  change (inside2 (cal_intrinsics_ (self sample_state)) 0 4) with true.
  cbn [in_range ret].
  rewrite perspective_divide_runs by (rewrite depth_term_identity; lra).
  cbn [snd]. rewrite projection_matrix_row_0, projection_matrix_row_1.
  rewrite depth_term_identity.
  f_equal. f_equal; cbv -[Rplus Rmult Rminus Ropp Rdiv Rinv IZR]; field.
Qed.

Lemma sample_projection_1 :
  snd (project_camera_0_to_sensor_1 0 0 1 sample_state) = Normal (2, 1).
Proof.
  assert (Hd : depth_term (cal_extrinsics_ (self sample_state)) 0 0 1 = 1)
    by (cbv -[Rplus Rmult Rminus Ropp Rdiv Rinv IZR]; ring).
  unfold project_camera_0_to_sensor_1, bind, get.
  change (inside2 (cal_intrinsics_ (self sample_state)) 1 4
          && rows_inside (cal_extrinsics_ (self sample_state))) with true.
  cbn [in_range ret].
  rewrite perspective_divide_runs by (rewrite Hd; lra).
  cbn [snd]. rewrite projection_matrix_row_0, projection_matrix_row_1, Hd.
  f_equal. f_equal; cbv -[Rplus Rmult Rminus Ropp Rdiv Rinv IZR]; field.
Qed.

Lemma triangulate_round_trip_witness :
  snd (triangulate (lapack := exact_lapack) 1 1 2 1 false sample_state) =
    Normal (0, 0, 1, to_world sample_calibration [0; 0; 1] 0,
            to_world sample_calibration [0; 0; 1] 1,
            to_world sample_calibration [0; 0; 1] 2).
Proof.
  apply (triangulate_round_trip (lapack := exact_lapack) sample_state 0 0 1 1 1 2 1).
  - exact Tri_initial_shaped.
  - reflexivity.
  - cbv -[Rlt IZR]. lra.
  - cbv -[Rlt IZR]. lra.
  - cbv -[Rlt IZR]. lra.
  - cbv -[Rlt IZR]. lra.
  - exact sample_projection_0.
  - exact sample_projection_1.
  - exact sample_normal_matrix_invertible.
Defined.

Lemma triangulate_is_pure_witness :
  snd (triangulate (lapack := exact_lapack) 1 1 2 1 true sample_state)
    = snd (triangulate (lapack := exact_lapack) 1 1 2 1 true reestimated_state) /\
  self (fst (triangulate (lapack := exact_lapack) 1 1 2 1 true sample_state))
    = self sample_state /\
  self (fst (triangulate (lapack := exact_lapack) 1 1 2 1 true reestimated_state))
    = self reestimated_state.
Proof.
  apply (triangulate_is_pure (lapack := exact_lapack) sample_state reestimated_state).
  - exact Tri_initial_shaped.
  - unfold Tri_shaped, LWORK. cbn. repeat split; reflexivity.
  - repeat split; reflexivity.
Defined.

(** ** Calibration loading *)

Lemma bind_unfold {A B : Type} (m : prog A) (k : A -> prog B) (s : State) :
  bind m k s = match m s with
               | (s', Normal a) => k a s'
               | (s', Throws e) => (s', Throws e)
               | (s', AssertFails a) => (s', AssertFails a)
               | (s', Uncaught) => (s', Uncaught)
               | (s', Undefined) => (s', Undefined)
               end.
Proof. reflexivity. Qed.

(** A call in a sequence returned, when the sequence did. *)
Lemma bind_normal {A B : Type} (m : prog A) (k : A -> prog B) (s : State) (b : B) :
  snd (bind m k s) = Normal b ->
  exists s' a, m s = (s', Normal a) /\ bind m k s = k a s'.
Proof.
  rewrite bind_unfold. destruct (m s) as [s' [a| | | |]]; cbn [snd]; try discriminate.
  intros _. exists s', a. split; reflexivity.
Qed.

Section Loading.
Context {lapack : LAPACK} {collaborators : Collaborators}.

(** The four tests change nothing, and pass exactly on positive principal
    points. *)
Lemma check_principal_points_spec (s : State) :
  fst (check_principal_points s) = s /\
  ((intr (self s) 0 0 <= 0 \/ intr (self s) 0 1 <= 0 \/
    intr (self s) 1 0 <= 0 \/ intr (self s) 1 1 <= 0) ->
   exists e, snd (check_principal_points s) = Throws e /\
             classify e = InvalidIntrinsicsError) /\
  (snd (check_principal_points s) = Normal tt ->
   0 < intr (self s) 0 0 /\ 0 < intr (self s) 0 1 /\
   0 < intr (self s) 1 0 /\ 0 < intr (self s) 1 1).
Proof.
  unfold check_principal_points, intr, bind, get, test_for_exception, throw, ret, Rleb.
  destruct (Rle_dec (at2 (cal_intrinsics_ (self s)) 0 0) 0);
  destruct (Rle_dec (at2 (cal_intrinsics_ (self s)) 0 1) 0);
  destruct (Rle_dec (at2 (cal_intrinsics_ (self s)) 1 0) 0);
  destruct (Rle_dec (at2 (cal_intrinsics_ (self s)) 1 1) 0);
  cbn [fst snd];
  (split; [reflexivity|]);
  (split; [intros H; try (eexists; split; [reflexivity|reflexivity]);
           exfalso; lra
          | intros H; try discriminate; repeat split; lra]).
Qed.

(** On values that are numbers, which is what the member vector holds
    here, the four tests are the tests on doubles. *)
Lemma check_principal_points_on_numbers (s : State) :
  snd (check_principal_points s) =
  principal_point_tests (Number (intr (self s) 0 0)) (Number (intr (self s) 0 1))
                        (Number (intr (self s) 1 0)) (Number (intr (self s) 1 1)).
Proof.
  unfold check_principal_points, principal_point_tests, double_le, intr.
  rewrite bind_get. unfold test_for_exception.
  destruct (Rleb (at2 (cal_intrinsics_ (self s)) 0 0) 0); [reflexivity|].
  rewrite bind_ret.
  destruct (Rleb (at2 (cal_intrinsics_ (self s)) 0 1) 0); [reflexivity|].
  rewrite bind_ret.
  destruct (Rleb (at2 (cal_intrinsics_ (self s)) 1 0) 0); [reflexivity|].
  rewrite bind_ret.
  destruct (Rleb (at2 (cal_intrinsics_ (self s)) 1 1) 0); reflexivity.
Qed.


End Loading.

Section LoadingTxt.
Context {lapack : LAPACK} {collaborators : Collaborators}.

Lemma count_values_cons (tokens : list string) (rest : list (list string)) :
  count_values (tokens :: rest) =
  if is_value_line tokens then S (count_values rest) else count_values rest.
Proof. unfold count_values. cbn [filter]. destruct (is_value_line tokens); reflexivity. Qed.

(** The txt loop writes [cal_intrinsics_] only, and counts the value
    lines. *)
Lemma read_values_spec (lines : list (list string)) :
  forall (num_values : nat) (extrinsics trans_extrinsics : list R) (s : State),
  let r := read_values lines num_values extrinsics trans_extrinsics s in
  cal_extrinsics_ (self (fst r)) = cal_extrinsics_ (self s) /\
  trans_extrinsics_ (self (fst r)) = trans_extrinsics_ (self s) /\
  projectives_ (self (fst r)) = projectives_ (self s) /\
  tri (fst r) = tri s /\ rad (fst r) = rad s /\
  (forall n e t, snd r = Normal (n, e, t) ->
     n = (num_values + count_values lines)%nat).
Proof.
  induction lines as [|tokens rest IH]; intros num_values extrinsics trans_extrinsics s.
  - cbn. repeat split; try reflexivity.
    intros n e t H. injection H as <- _ _. unfold count_values. cbn. lia.
  - cbn [read_values]. rewrite count_values_cons. unfold is_value_line.
    destruct (length tokens =? 0)%nat; cbn [negb andb].
    { apply IH. }
    destruct (String.eqb (token tokens 0) "#"); cbn [negb].
    { apply IH. }
    set (a := if (1 <? length tokens)%nat
              then assert_ (String.eqb (token tokens 1) "#") Assert_second_token_is_hash
              else ret tt).
    assert (Ha : a s = (s, Normal tt) \/ a s = (s, AssertFails Assert_second_token_is_hash)).
    { unfold a. destruct (1 <? length tokens)%nat; [|left; reflexivity].
      unfold assert_. destruct (String.eqb _ _); auto. }
    rewrite bind_unfold.
    destruct Ha as [-> | ->].
    2:{ cbn. repeat split; try reflexivity. intros; discriminate. }
    destruct (num_values <? 16)%nat.
    { rewrite bind_assign.
      match goal with |- context [read_values rest ?n ?e ?t ?s1] =>
        specialize (IH n e t s1); cbv zeta in IH;
        destruct IH as (H1 & H2 & H3 & H4 & H5 & H6) end.
      cbv zeta. rewrite H1, H2, H3, H4, H5. repeat split; try reflexivity.
      intros n e t H. rewrite (H6 n e t H). lia. }
    destruct (num_values <? 22)%nat.
    { match goal with |- context [read_values rest ?n ?e ?t ?s1] =>
        specialize (IH n e t s1); cbv zeta in IH;
        destruct IH as (H1 & H2 & H3 & H4 & H5 & H6) end.
      cbv zeta. repeat split; try assumption.
      intros n e t H. rewrite (H6 n e t H). lia. }
    rewrite bind_unfold. unfold in_range.
    destruct (num_values - 22 <? 6)%nat.
    2:{ cbn. repeat split; try reflexivity. intros; discriminate. }
    cbn [ret].
    match goal with |- context [read_values rest ?n ?e ?t ?s1] =>
      specialize (IH n e t s1); cbv zeta in IH;
      destruct IH as (H1 & H2 & H3 & H4 & H5 & H6) end.
    cbv zeta. repeat split; try assumption.
    intros n e t H. rewrite (H6 n e t H). lia.
Qed.

(** C6. A successful load of a txt calibration file with exactly 22 values
    (no custom world transform) leaves the camera 0 to world transform
    [trans_extrinsics_] equal to the 4 by 4 identity. *)
Theorem load_txt_22_values_identity (param_file_name : string)
    (lines : list (list string)) (s : State) :
  string_contains "xml" param_file_name = false ->
  string_contains "txt" param_file_name = true ->
  count_values lines = 22%nat ->
  snd (load_calibration_parameters param_file_name (Some lines) s) = Normal tt ->
  trans_extrinsics_ (self (fst (load_calibration_parameters param_file_name (Some lines) s)))
    = [ [1; 0; 0; 0]; [0; 1; 0; 0]; [0; 0; 1; 0]; [0; 0; 0; 1] ].
Proof.
  intros Hxml Htxt Hcount Hload.
  unfold load_calibration_parameters in *.
  apply bind_normal in Hload. destruct Hload as (s1 & [] & Hparse & Hrest).
  rewrite Hrest.
  rewrite (proj1 (check_principal_points_spec s1)).
  clear Hrest.
  unfold parse_calibration_file in Hparse. rewrite Hxml, Htxt in Hparse.
  do 3 (rewrite bind_assign in Hparse; cbv beta in Hparse).
  rewrite bind_assign in Hparse. cbv beta in Hparse.
  match type of Hparse with
  | bind (read_values lines 0 ?e ?t) ?k ?s0 = _ =>
      pose proof (read_values_spec lines 0 e t s0) as Hrv; cbv zeta in Hrv;
      rewrite bind_unfold in Hparse;
      destruct (read_values lines 0 e t s0) as [s3 o] eqn:Erv
  end.
  cbn [fst snd] in Hrv. destruct Hrv as (_ & Hte & _ & _ & _ & Hn).
  destruct o as [[[n e] t]| | | |]; try discriminate.
  specialize (Hn n e t eq_refl). rewrite Hcount in Hn. cbn in Hn. subst n.
  cbn [Nat.eqb negb andb test_for_exception] in Hparse.
  rewrite bind_ret in Hparse. rewrite bind_assign in Hparse. cbv beta in Hparse.
  cbn [ret] in Hparse. injection Hparse as <-.
  cbn [self upd_self trans_extrinsics_ with_cal_extrinsics_]. rewrite Hte.
  reflexivity.
Qed.

End LoadingTxt.

(** ** The pose of a camera is invertible *)

Lemma pose_values (alpha beta gamma tx ty tz : R) :
  let cx := cos (alpha * DICE_PI / 180) in
  let sx := sin (alpha * DICE_PI / 180) in
  let cy := cos (beta * DICE_PI / 180) in
  let sy := sin (beta * DICE_PI / 180) in
  let cz := cos (gamma * DICE_PI / 180) in
  let sz := sin (gamma * DICE_PI / 180) in
  convert_CB_angles_to_T alpha beta gamma tx ty tz =
  {| numRows := 4; numCols := 4;
     values := [ cy * cz; cy * sz; - sy; 0;
                 sx * sy * cz - cx * sz; sx * sy * sz + cx * cz; sx * cy; 0;
                 cx * sy * cz + sx * sz; cx * sy * sz - sx * cz; cx * cy; 0;
                 tx; ty; tz; 1 ] |}.
Proof. reflexivity. Qed.

(** The inverse of a rotation and translation: the transposed rotation, and
    the translation taken back through it. *)
Lemma rigid_inverse (r00 r10 r20 r01 r11 r21 r02 r12 r22 tx ty tz : R) :
  r00 * r00 + r10 * r10 + r20 * r20 = 1 ->
  r01 * r01 + r11 * r11 + r21 * r21 = 1 ->
  r02 * r02 + r12 * r12 + r22 * r22 = 1 ->
  r00 * r01 + r10 * r11 + r20 * r21 = 0 ->
  r00 * r02 + r10 * r12 + r20 * r22 = 0 ->
  r01 * r02 + r11 * r12 + r21 * r22 = 0 ->
  r00 * r00 + r01 * r01 + r02 * r02 = 1 ->
  r10 * r10 + r11 * r11 + r12 * r12 = 1 ->
  r20 * r20 + r21 * r21 + r22 * r22 = 1 ->
  r00 * r10 + r01 * r11 + r02 * r12 = 0 ->
  r00 * r20 + r01 * r21 + r02 * r22 = 0 ->
  r10 * r20 + r11 * r21 + r12 * r22 = 0 ->
  cm_inverse 4 [ r00; r10; r20; 0; r01; r11; r21; 0; r02; r12; r22; 0; tx; ty; tz; 1 ]
               [ r00; r01; r02; 0; r10; r11; r12; 0; r20; r21; r22; 0;
                 - (r00 * tx + r10 * ty + r20 * tz);
                 - (r01 * tx + r11 * ty + r21 * tz);
                 - (r02 * tx + r12 * ty + r22 * tz); 1 ].
Proof.
  intros C0 C1 C2 C01 C02 C12 R0 R1 R2 R01 R02 R12.
  split; [reflexivity|]. split; [reflexivity|].
  split; cbv -[Rplus Rmult Rminus Ropp IZR]; repeat f_equal; nsatz.
Qed.

Lemma pose_invertible (alpha beta gamma tx ty tz : R) :
  cm_invertible 4 (values (convert_CB_angles_to_T alpha beta gamma tx ty tz)).
Proof.
  rewrite pose_values. cbv zeta. cbn [values].
  pose proof (sin2_cos2 (alpha * DICE_PI / 180)) as Hx.
  pose proof (sin2_cos2 (beta * DICE_PI / 180)) as Hy.
  pose proof (sin2_cos2 (gamma * DICE_PI / 180)) as Hz.
  unfold Rsqr in Hx, Hy, Hz.
  generalize dependent (cos (alpha * DICE_PI / 180)). intros cx.
  generalize dependent (sin (alpha * DICE_PI / 180)). intros sx Hx.
  generalize dependent (cos (beta * DICE_PI / 180)). intros cy.
  generalize dependent (sin (beta * DICE_PI / 180)). intros sy Hy.
  generalize dependent (cos (gamma * DICE_PI / 180)). intros cz.
  generalize dependent (sin (gamma * DICE_PI / 180)). intros sz Hz.
  eexists. apply rigid_inverse; nsatz.
Qed.

Section LoadingXml.
Context {lapack : LAPACK} {collaborators : Collaborators}.

Lemma bind_ext {A B : Type} (m : prog A) (k1 k2 : A -> prog B) (s : State) :
  (forall a s', k1 a s' = k2 a s') -> bind m k1 s = bind m k2 s.
Proof.
  intros H. rewrite !bind_unfold. destruct (m s) as [s' [a| | | |]]; auto.
Qed.

(** The xml loop looks at the camera records only. *)
Lemma read_cameras_records (lines : list (list string)) :
  forall (camera_index : nat) (cam_orientation : list (list R))
         (vec_of_Ts : list SerialDenseMatrix) (s : State),
  read_cameras lines camera_index cam_orientation vec_of_Ts s =
  read_cameras (camera_records lines) camera_index cam_orientation vec_of_Ts s.
Proof.
  induction lines as [|tokens rest IH]; intros camera_index cam_orientation vec_of_Ts s.
  - reflexivity.
  - unfold camera_records. cbn [filter]. unfold is_camera_line at 1.
    cbn [read_cameras].
    destruct (length tokens =? 0)%nat eqn:E0; cbn [negb andb].
    { apply IH. }
    destruct (String.eqb (token tokens 0) "CAMERA") eqn:E1; cbn [negb].
    2:{ apply IH. }
    cbn [read_cameras]. rewrite E0, E1. cbn [negb].
    apply bind_ext. intros _ s1. apply bind_ext. intros _ s2.
    apply bind_ext. intros _ s3. cbv zeta. apply IH.
Qed.

(** [invert_transform] on an invertible matrix puts an inverse in place. *)
Lemma invert_transform_spec (T : SerialDenseMatrix) :
  cm_invertible 4 (values T) ->
  exists B, cm_inverse 4 (values T) B /\
            invert_transform T =
              Normal {| numRows := numRows T; numCols := numCols T; values := B |}.
Proof.
  intros Hinv. unfold invert_transform.
  destruct (GETRF_GETRI_inverse 4 _ 16 ltac:(lia) Hinv) as (F & P & B & W & HF & HI & HB).
  pose proof (GETRF_lengths 4 4 (values T) 4) as [HlF _].
  rewrite HF in *. cbn [fst] in HlF.
  unfold sdm_write at 1 2. cbn [values numRows numCols].
  rewrite (write_buffer_full (values T) F HlF). rewrite HI.
  exists B. split; [exact HB|]. unfold sdm_write. cbn [values numRows numCols].
  rewrite write_buffer_full; [reflexivity|].
  destruct HB as (HlA & HlB & _).
  rewrite write_buffer_length, HlB, HlA. reflexivity.
Qed.

(** The two loops that follow the inversion in the xml branch. *)
Lemma store_inverse_rows (Tc : nat) (B : list R) (old : list (list R)) :
  length B = 16%nat ->
  old = [ [1; 0; 0; 0]; [0; 1; 0; 0]; [0; 0; 1; 0]; [0; 0; 0; 1] ] ->
  loop 0 4 (fun i => loop 0 4 (fun j =>
    set2 i j (sdm_get {| numRows := 4; numCols := Tc; values := B |} i j))) old
  = rows_of B.
Proof. intros HB ->. spell HB. reflexivity. Qed.

Lemma store_product_rows (c1 c0 : nat) (T1v B : list R) :
  length T1v = 16%nat -> length B = 16%nat ->
  loop 0 4 (fun i => loop 0 4 (fun j => loop 0 4 (fun k v =>
    set2 i j (at2 v i j
              + sdm_get {| numRows := 4; numCols := c1; values := T1v |} i k
                * sdm_get {| numRows := 4; numCols := c0; values := B |} k j) v)))
    [ [0; 0; 0; 0]; [0; 0; 0; 0]; [0; 0; 0; 0]; [0; 0; 0; 0] ]
  = product_rows T1v B.
Proof. intros H1 HB. spell H1. spell HB. vm_compute. reflexivity. Qed.

(** The xml loop on exactly two camera records. *)
Lemma read_two_cameras (l0 l1 : list string) (s : State) :
  is_camera_line l0 = true -> is_camera_line l1 = true ->
  let r := read_cameras [l0; l1] 0 (zeros2 2 6) [sdm_zero 4 4; sdm_zero 4 4] s in
  cal_extrinsics_ (self (fst r)) = cal_extrinsics_ (self s) /\
  trans_extrinsics_ (self (fst r)) = trans_extrinsics_ (self s) /\
  (forall Ts, snd r = Normal Ts -> Ts = [record_pose l0; record_pose l1]).
Proof.
  unfold is_camera_line. intros H0 H1.
  apply andb_prop in H0. destruct H0 as [H0 H0'].
  apply andb_prop in H1. destruct H1 as [H1 H1'].
  apply negb_true_iff in H0. apply negb_true_iff in H1.
  cbn [read_cameras]. rewrite H0, H0', H1, H1'. cbn [negb].
  change (0 <? 2)%nat with true. change (1 <? 2)%nat with true.
  unfold bind, assert_, assign, ret.
  destruct (17 <? length l0)%nat; cbn [fst snd];
    [|repeat split; try reflexivity; intros; discriminate].
  destruct (17 <? length l1)%nat; cbn [fst snd];
    [|repeat split; try reflexivity; intros; discriminate].
  repeat split; try reflexivity.
  intros Ts H. injection H as <-. reflexivity.
Qed.

(** C4. After a successful load of an xml calibration file with exactly two
    camera records, whose poses are T0 and T1 ([convert_CB_angles_to_T] of
    the six Cardan-Bryant values of each record), the stored camera 0 to
    world transform [trans_extrinsics_] is the matrix inverse of T0 and the
    stored camera 0 to camera 1 transform [cal_extrinsics_] is the matrix
    product of T1 and that inverse. *)
Theorem load_xml_two_cameras (param_file_name : string) (lines : list (list string))
    (l0 l1 : list string) (s : State) :
  string_contains "xml" param_file_name = true ->
  camera_records lines = [l0; l1] ->
  snd (load_calibration_parameters param_file_name (Some lines) s) = Normal tt ->
  let t := self (fst (load_calibration_parameters param_file_name (Some lines) s)) in
  exists T0_inverse,
    cm_inverse 4 (values (record_pose l0)) T0_inverse /\
    trans_extrinsics_ t = rows_of T0_inverse /\
    cal_extrinsics_ t = product_rows (values (record_pose l1)) T0_inverse.
Proof.
  intros Hxml Hrec Hload.
  assert (Hc0 : is_camera_line l0 = true).
  { apply (proj2 (proj1 (filter_In is_camera_line l0 lines)
                        ltac:(fold (camera_records lines); rewrite Hrec; left; reflexivity))). }
  assert (Hc1 : is_camera_line l1 = true).
  { apply (proj2 (proj1 (filter_In is_camera_line l1 lines)
                        ltac:(fold (camera_records lines); rewrite Hrec; right; left;
                              reflexivity))). }
  unfold load_calibration_parameters in *.
  apply bind_normal in Hload. destruct Hload as (s1 & [] & Hparse & Hrest).
  rewrite Hrest. cbv zeta.
  rewrite (proj1 (check_principal_points_spec s1)).
  clear Hrest.
  unfold parse_calibration_file in Hparse. rewrite Hxml in Hparse.
  do 3 (rewrite bind_assign in Hparse; cbv beta in Hparse).
  match type of Hparse with
  | bind (read_cameras lines 0 ?o ?Ts) ?k ?s0 = _ =>
      rewrite bind_unfold, read_cameras_records, Hrec in Hparse;
      pose proof (read_two_cameras l0 l1 s0 Hc0 Hc1) as Hrc; cbv zeta in Hrc;
      destruct (read_cameras [l0; l1] 0 o Ts s0) as [s3 o3] eqn:Erc
  end.
  cbn [fst snd] in Hrc. destruct Hrc as (Hce & Hte & HTs).
  destruct o3 as [Ts| | | |]; try discriminate.
  rewrite (HTs Ts eq_refl) in Hparse. clear HTs Erc.
  cbn [nth] in Hparse.
  destruct (invert_transform_spec (record_pose l0) (pose_invertible _ _ _ _ _ _))
    as (B & HB & Hinv).
  rewrite bind_unfold in Hparse. unfold lift in Hparse. rewrite Hinv in Hparse.
  cbv beta iota zeta in Hparse. cbn [vset nth] in Hparse.
  rewrite bind_assign in Hparse. cbv beta in Hparse. unfold assign in Hparse.
  cbn [ret] in Hparse. injection Hparse as <-.
  exists B. split; [exact HB|].
  cbn [self upd_self trans_extrinsics_ cal_extrinsics_
       with_trans_extrinsics_ with_cal_extrinsics_].
  rewrite Hte, Hce. cbn [self upd_self trans_extrinsics_ cal_extrinsics_
       with_trans_extrinsics_ with_cal_extrinsics_ with_cal_intrinsics_].
  destruct HB as (_ & HlB & _).
  split.
  - apply store_inverse_rows; [exact HlB | reflexivity].
  - apply (store_product_rows 4 (numCols (record_pose l0)) (values (record_pose l1)) B);
      [reflexivity | exact HlB].
Qed.

End LoadingXml.

(** ** The projective transform *)

Section Projective.
Context {lapack : LAPACK} {collaborators : Collaborators}.

Lemma count_points_cons (tokens : list string) (rest : list (list string)) :
  count_points (tokens :: rest) =
  if is_point_line tokens then S (count_points rest) else count_points rest.
Proof. unfold count_points. cbn [filter]. destruct (is_point_line tokens); reflexivity. Qed.

(** The first pass over a file of four-field lines counts the lines that are
    not empty and changes nothing. *)
Lemma count_coords_spec (lines : list (list string)) :
  (forall tokens, In tokens lines -> length tokens = 0%nat \/ length tokens = 4%nat) ->
  forall (num_coords : nat) (s : State),
  count_coords lines num_coords s = (s, Normal (num_coords + count_points lines)%nat).
Proof.
  induction lines as [|tokens rest IH]; intros Hlines num_coords s.
  - cbn. unfold ret. f_equal. f_equal. unfold count_points. cbn. lia.
  - cbn [count_coords]. rewrite count_points_cons. unfold is_point_line.
    assert (Hrest : forall t, In t rest -> length t = 0%nat \/ length t = 4%nat)
      by (intros t Ht; apply Hlines; right; exact Ht).
    destruct (Hlines tokens (or_introl eq_refl)) as [E|E]; rewrite E; cbn [Nat.eqb negb].
    + rewrite (IH Hrest). reflexivity.
    + cbn [test_for_exception]. rewrite bind_ret. rewrite (IH Hrest).
      f_equal. f_equal. lia.
Qed.

(** C8. When the correspondence file has fewer than 4 points (a point is a
    line of 4 fields; empty lines are skipped), the estimator throws an error
    of the class InsufficientDataError, and it does so with the state as it
    found it: no estimate has been computed and the stored coefficients are
    untouched. *)
Theorem estimate_needs_four_points (left_img right_img : Image)
    (output_projected_image : bool) (lines : list (list string)) (s : State) :
  (forall tokens, In tokens lines -> length tokens = 0%nat \/ length tokens = 4%nat) ->
  (count_points lines < 4)%nat ->
  estimate_projective_transform left_img right_img output_projected_image (Some lines) s
    = (s, Throws NotEnoughCoordinates) /\
  classify NotEnoughCoordinates = InsufficientDataError.
Proof.
  intros Hlines Hfew. split; [|reflexivity].
  unfold estimate_projective_transform.
  rewrite bind_unfold, (count_coords_spec lines Hlines 0 s). cbn [Nat.add].
  apply Nat.ltb_lt in Hfew. rewrite Hfew. reflexivity.
Qed.

(** C3, as the code has it.  [project_left_to_right_sensor_coords] looks at
    the coefficient vector, not at whether an estimate was made: it fails an
    assertion when the vector is null or does not hold 8 entries, and with 8
    entries it returns the two quotients; it never throws and changes
    nothing. *)
Theorem project_left_to_right_guard (s : State) (xl yl : R) :
  fst (project_left_to_right_sensor_coords xl yl s) = s /\
  (projectives_ (self s) = None ->
   snd (project_left_to_right_sensor_coords xl yl s)
     = AssertFails Assert_projectives_not_null) /\
  (forall p, projectives_ (self s) = Some p -> length p <> 8%nat ->
   snd (project_left_to_right_sensor_coords xl yl s)
     = AssertFails Assert_projectives_size_8) /\
  (forall p, projectives_ (self s) = Some p -> length p = 8%nat ->
   snd (project_left_to_right_sensor_coords xl yl s)
     = Normal ((vget p 0 * xl + vget p 1 * yl + vget p 2)
                 / (vget p 6 * xl + vget p 7 * yl + 1),
               (vget p 3 * xl + vget p 4 * yl + vget p 5)
                 / (vget p 6 * xl + vget p 7 * yl + 1))) /\
  (forall e, snd (project_left_to_right_sensor_coords xl yl s) <> Throws e).
Proof.
  unfold project_left_to_right_sensor_coords, bind, get, assert_, ret.
  destruct (projectives_ (self s)) as [p|].
  - destruct (length p =? 8)%nat eqn:E; cbn [fst snd].
    + apply Nat.eqb_eq in E.
      split; [reflexivity|]. split; [discriminate|].
      split; [intros q Hq Hn; injection Hq as <-; contradiction|].
      split; [intros q Hq _; injection Hq as <-; reflexivity|discriminate].
    + apply Nat.eqb_neq in E.
      split; [reflexivity|]. split; [discriminate|].
      split; [intros q Hq _; injection Hq as <-; reflexivity|].
      split; [intros q Hq Hn; injection Hq as <-; contradiction|discriminate].
  - cbn [fst snd].
    split; [reflexivity|]. split; [reflexivity|].
    split; [discriminate|]. split; discriminate.
Qed.

(** No site of the file raises an error of the class NotInitializedError. *)
Lemma no_not_initialized_error (e : runtime_error) :
  classify e <> NotInitializedError.
Proof. destruct e; discriminate. Qed.

End Projective.

Lemma vset_length {A : Type} (i : nat) (x : A) (v : list A) :
  length (vset i x v) = length v.
Proof.
  revert i. induction v as [|h t IH]; intros [|i]; cbn; try reflexivity.
  rewrite IH. reflexivity.
Qed.

Lemma loop_invariant {X : Type} (P : X -> Prop) (lo hi : nat) (body : nat -> X -> X) (x : X) :
  (forall i y, P y -> P (body i y)) -> P x -> P (loop lo hi body x).
Proof.
  intros Hbody. unfold loop. generalize (seq lo (hi - lo)). intros l. revert x.
  induction l as [|i l IH]; intros x Hx; cbn; [exact Hx|].
  apply IH. apply Hbody. exact Hx.
Qed.

Section EstimateRuns.
Context {lapack : LAPACK}.

(** The second pass over a file of four-field lines returns and changes
    nothing, when the vectors have room for the points. *)
Lemma read_coords_runs (lines : list (list string)) :
  (forall tokens, In tokens lines -> length tokens = 0%nat \/ length tokens = 4%nat) ->
  forall (coord_index : nat) (proj : list R * list R * list R * list R) (s : State),
  (coord_index + count_points lines <= length (fst (fst (fst proj))))%nat ->
  exists proj', read_coords (collaborators := sample_collaborators)
                            lines coord_index proj s = (s, Normal proj').
Proof.
  induction lines as [|tokens rest IH]; intros Hlines coord_index proj s Hroom.
  - eexists. reflexivity.
  - cbn [read_coords]. rewrite count_points_cons in Hroom. unfold is_point_line in Hroom.
    assert (Hrest : forall t, In t rest -> length t = 0%nat \/ length t = 4%nat)
      by (intros t Ht; apply Hlines; right; exact Ht).
    destruct (Hlines tokens (or_introl eq_refl)) as [E|E]; rewrite E in *;
      cbn [Nat.eqb negb] in *.
    + apply (IH Hrest). exact Hroom.
    + unfold assert_ at 1. rewrite bind_unfold. cbv iota beta.
      destruct proj as [[[proj_xl proj_yl] proj_xr] proj_yr]. cbn [fst] in Hroom.
      assert (Hin : (coord_index <? length proj_xl)%nat = true)
        by (apply Nat.ltb_lt; lia).
      rewrite Hin. cbn [in_range]. rewrite bind_ret.
      apply (IH Hrest). cbn [fst]. rewrite vset_length. lia.
Qed.

(** On the sample object, whose coefficient vector holds eight zeros, a
    first call of the estimator on four points returns. *)
Lemma estimate_runs_on_sample :
  exists s' out,
    estimate_projective_transform (collaborators := sample_collaborators)
      tt tt false (Some sample_points) sample_state = (s', Normal out).
Proof.
  assert (Hlines : forall tokens, In tokens sample_points ->
                     length tokens = 0%nat \/ length tokens = 4%nat).
  { intros tokens [<-|[<-|[<-|[<-|[<-|[]]]]]]; cbn; auto. }
  unfold estimate_projective_transform.
  rewrite bind_unfold, (count_coords_spec sample_points Hlines 0 sample_state).
  change (0 + count_points sample_points)%nat with 4%nat.
  cbn [Nat.ltb Nat.leb test_for_exception]. rewrite bind_ret.
  destruct (read_coords_runs sample_points Hlines 0
              (repeat 0 4, repeat 0 4, repeat 0 4, repeat 0 4) sample_state
              ltac:(cbn; lia)) as ([[[proj_xl proj_yl] proj_xr] proj_yr] & Hread).
  rewrite bind_unfold, Hread. cbv zeta.
  destruct (GETRF _ _ _ _) as [[LU IPIV] INFO].
  destruct (GETRI _ _ _ _ _) as [[[A WORK] INFO']|] eqn:HI;
    [|exfalso; exact (GETRI_returns _ _ _ _ _ HI)].
  rewrite bind_get.
  change (projectives_ (self sample_state)) with (Some [0; 0; 0; 0; 0; 0; 0; 0]).
  cbv beta iota.
  match goal with
  | |- context [in_range ?b] => change b with true
  end.
  cbn [in_range]. rewrite bind_ret.
  rewrite bind_assign. cbn [minimize sample_collaborators].
  rewrite bind_assign. cbn [negb test_for_exception]. rewrite bind_ret.
  rewrite bind_ret. unfold ret. eexists. eexists. reflexivity.
Qed.

End EstimateRuns.

Lemma bind_returned {A B : Type} (m : prog A) (k : A -> prog B) (s : State) (b : B) :
  snd (bind m k s) = Normal b ->
  exists s' a, m s = (s', Normal a) /\ snd (k a s') = Normal b.
Proof.
  rewrite bind_unfold. destruct (m s) as [s' [a| | | |]]; cbn [snd]; try discriminate.
  intros H. exists s', a. split; [reflexivity|exact H].
Qed.

Section EstimateAllocation.
Context {lapack : LAPACK} {collaborators : Collaborators}.

Lemma count_coords_state (lines : list (list string)) :
  forall (num_coords : nat) (s : State), fst (count_coords lines num_coords s) = s.
Proof.
  induction lines as [|tokens rest IH]; intros num_coords s; [reflexivity|].
  cbn [count_coords]. destruct (length tokens =? 0)%nat; [apply IH|].
  destruct (negb (length tokens =? 4)%nat); cbn [test_for_exception].
  - reflexivity.
  - rewrite bind_ret. apply IH.
Qed.

Lemma read_coords_state (lines : list (list string)) :
  forall (coord_index : nat) (proj : list R * list R * list R * list R) (s : State),
  fst (read_coords lines coord_index proj s) = s.
Proof.
  induction lines as [|tokens rest IH]; intros coord_index proj s; [reflexivity|].
  cbn [read_coords]. destruct (length tokens =? 0)%nat; [apply IH|].
  unfold assert_ at 1. rewrite bind_unfold.
  destruct (length tokens =? 4)%nat; [|reflexivity].
  destruct proj as [[[proj_xl proj_yl] proj_xr] proj_yr].
  rewrite bind_unfold. unfold in_range.
  destruct (coord_index <? length proj_xl)%nat; [|reflexivity].
  cbn [ret]. apply IH.
Qed.

(** The estimator writes through [projectives_] and never allocates it: a
    call returns only on an object whose coefficient vector was already
    there, with room for the eight coefficients. *)
Lemma estimate_returns_only_if_allocated (left_img right_img : Image)
    (output_projected_image : bool) (projDataFile : option (list (list string)))
    (s : State) (out : estimate_output) :
  snd (estimate_projective_transform left_img right_img output_projected_image
                                     projDataFile s) = Normal out ->
  exists p, projectives_ (self s) = Some p /\ (8 <= length p)%nat.
Proof.
  unfold estimate_projective_transform.
  destruct projDataFile as [lines|]; [|discriminate].
  intros H.
  apply bind_returned in H. destruct H as (s1 & n & Hc & H).
  pose proof (count_coords_state lines 0 s) as Hs1. rewrite Hc in Hs1. cbn in Hs1.
  subst s1. revert H.
  destruct (n <? 4)%nat; cbn [test_for_exception]; [discriminate|].
  rewrite bind_ret. intros H.
  apply bind_returned in H. destruct H as (s2 & proj & Hr & H).
  pose proof (read_coords_state lines 0
                (repeat 0 n, repeat 0 n, repeat 0 n, repeat 0 n) s) as Hs2.
  rewrite Hr in Hs2. cbn in Hs2. subst s2. revert H.
  destruct proj as [[[proj_xl proj_yl] proj_xr] proj_yr]. cbv zeta.
  destruct (GETRF _ _ _ _) as [[LU IPIV] INFO].
  destruct (GETRI _ _ _ _ _) as [[[A WORK] INFO']|]; [|discriminate].
  rewrite bind_get.
  destruct (projectives_ (self s)) as [p|]; [|discriminate].
  rewrite bind_unfold. unfold in_range.
  match goal with
  | |- context [(8 <=? length ?q)%nat] =>
      assert (Hlen : length q = length p)
        by (apply (loop_invariant (fun v => length v = length p));
            [intros i y Hy; rewrite vset_length; exact Hy | reflexivity])
  end.
  rewrite Hlen.
  destruct (8 <=? length p)%nat eqn:E; [|discriminate].
  intros _. exists p. split; [reflexivity|]. apply Nat.leb_le. exact E.
Qed.

End EstimateAllocation.

(** ** A loaded calibration has its shape *)

Lemma set2_shape (i j : nat) (x : R) (v : list (list R)) :
  map (@length R) (set2 i j x v) = map (@length R) v.
Proof.
  unfold set2. revert i. induction v as [|h t IH]; intros [|i]; cbn; try reflexivity.
  - rewrite vset_length. reflexivity.
  - f_equal.
    assert (H : forall (w : list R) k (u : list (list R)),
              length w = length (nth k u []) ->
              map (@length R) (vset k w u) = map (@length R) u).
    { intros w k u. revert k. induction u as [|h' t' IHu]; intros [|k] Hw; cbn in *;
        try reflexivity.
      - rewrite Hw. reflexivity.
      - rewrite IHu; [reflexivity|exact Hw]. }
    apply H. apply vset_length.
Qed.

Lemma shaped_calibration_inside (t : Triangulation) :
  shaped_calibration t ->
  triangulate_indices_inside t = true /\
  inside2 (cal_intrinsics_ t) 0 7 = true /\ inside2 (cal_intrinsics_ t) 1 7 = true /\
  inside2 (cal_intrinsics_ t) 0 4 = true /\ inside2 (cal_intrinsics_ t) 1 4 = true /\
  rows_inside (cal_extrinsics_ t) = true.
Proof.
  intros (Hi & He & Ht). unfold triangulate_indices_inside, rows_inside, inside2.
  destruct (cal_intrinsics_ t) as [|i0 [|i1 [|]]]; try discriminate.
  destruct (cal_extrinsics_ t) as [|e0 [|e1 [|e2 [|e3 [|]]]]]; try discriminate.
  destruct (trans_extrinsics_ t) as [|t0 [|t1 [|t2 [|t3 [|]]]]]; try discriminate.
  cbn [map] in Hi, He, Ht.
  injection Hi as Hi0 Hi1. injection He as He0 He1 He2 He3.
  injection Ht as Ht0 Ht1 Ht2 Ht3.
  cbn [length nth]. rewrite Hi0, Hi1, He0, He1, He2, He3, Ht0, Ht1, Ht2, Ht3.
  repeat split; reflexivity.
Qed.

Section LoadedShape.
Context {lapack : LAPACK} {collaborators : Collaborators}.

Lemma read_values_shape (lines : list (list string)) :
  forall (num_values : nat) (extrinsics trans_extrinsics : list R) (s : State),
  map (@length R)
      (cal_intrinsics_ (self (fst (read_values lines num_values extrinsics
                                               trans_extrinsics s))))
  = map (@length R) (cal_intrinsics_ (self s)).
Proof.
  induction lines as [|tokens rest IH]; intros num_values extrinsics trans_extrinsics s;
    [reflexivity|].
  cbn [read_values].
  destruct (length tokens =? 0)%nat; [apply IH|].
  destruct (String.eqb (token tokens 0) "#"); [apply IH|].
  rewrite bind_unfold.
  destruct (1 <? length tokens)%nat.
  - unfold assert_. destruct (String.eqb (token tokens 1) "#"); [|reflexivity].
    destruct (num_values <? 16)%nat.
    + rewrite bind_assign, IH. cbn. apply set2_shape.
    + destruct (num_values <? 22)%nat; [apply IH|].
      rewrite bind_unfold. unfold in_range.
      destruct (num_values - 22 <? 6)%nat; [apply IH|reflexivity].
  - cbn [ret]. destruct (num_values <? 16)%nat.
    + rewrite bind_assign, IH. cbn. apply set2_shape.
    + destruct (num_values <? 22)%nat; [apply IH|].
      rewrite bind_unfold. unfold in_range.
      destruct (num_values - 22 <? 6)%nat; [apply IH|reflexivity].
Qed.

Lemma read_cameras_frame (lines : list (list string)) :
  forall (camera_index : nat) (cam_orientation : list (list R))
         (vec_of_Ts : list SerialDenseMatrix) (s : State),
  let r := read_cameras lines camera_index cam_orientation vec_of_Ts s in
  map (@length R) (cal_intrinsics_ (self (fst r)))
    = map (@length R) (cal_intrinsics_ (self s)) /\
  cal_extrinsics_ (self (fst r)) = cal_extrinsics_ (self s) /\
  trans_extrinsics_ (self (fst r)) = trans_extrinsics_ (self s).
Proof.
  induction lines as [|tokens rest IH]; intros camera_index cam_orientation vec_of_Ts s;
    [cbn; auto|].
  cbv zeta. cbn [read_cameras].
  destruct (length tokens =? 0)%nat; [apply IH|].
  destruct (negb (String.eqb (token tokens 0) "CAMERA")); [apply IH|].
  unfold assert_ at 1 2. rewrite bind_unfold.
  destruct (camera_index <? 2)%nat; [|cbn; auto].
  rewrite bind_unfold.
  destruct (17 <? length tokens)%nat; [|cbn; auto].
  rewrite bind_assign. cbv beta zeta.
  match goal with |- context [read_cameras rest ?n ?o ?Ts ?s1] =>
    pose proof (IH n o Ts s1) as HH; cbv zeta in HH; destruct HH as (H1 & H2 & H3) end.
  split; [|split; [etransitivity; [exact H2|reflexivity]
                  |etransitivity; [exact H3|reflexivity]]].
  etransitivity; [exact H1|].
  cbn [self upd_self cal_intrinsics_ with_cal_intrinsics_].
  apply (loop_invariant (fun v => map (@length R) v
                                  = map (@length R) (cal_intrinsics_ (self s)))).
  - intros i y Hy. rewrite set2_shape. exact Hy.
  - reflexivity.
Qed.

Lemma store_rows_shape (A : SerialDenseMatrix) (v : list (list R)) :
  map (@length R)
      (loop 0 4 (fun i => loop 0 4 (fun j => set2 i j (sdm_get A i j))) v)
  = map (@length R) v.
Proof.
  apply (loop_invariant (fun w => map (@length R) w = map (@length R) v));
    [|reflexivity].
  intros i y Hy.
  apply (loop_invariant (fun w => map (@length R) w = map (@length R) v));
    [|exact Hy].
  intros j z Hz. rewrite set2_shape. exact Hz.
Qed.

(** The members have their shape after every call that gets through
    parsing, whatever they held before. *)
Lemma parse_calibration_file_shape (param_file_name : string)
    (dataFile : option (list (list string))) (s : State) :
  snd (parse_calibration_file param_file_name dataFile s) = Normal tt ->
  shaped_calibration (self (fst (parse_calibration_file param_file_name dataFile s))).
Proof.
  unfold parse_calibration_file.
  destruct dataFile as [lines|]; [|discriminate].
  do 3 (rewrite bind_assign; cbv beta).
  set (s0 := upd_self _ (upd_self _ (upd_self _ s))).
  assert (Hs0 : shaped_calibration (self s0)) by (repeat split; reflexivity).
  clearbody s0. destruct Hs0 as (Hi & He & Ht).
  destruct (string_contains "xml" param_file_name).
  - rewrite bind_unfold.
    match goal with |- context [read_cameras lines 0 ?o ?Ts s0] =>
      pose proof (read_cameras_frame lines 0 o Ts s0) as HH; cbv zeta in HH;
      destruct HH as (H1 & H2 & H3);
      destruct (read_cameras lines 0 o Ts s0) as [s1 [Ts'| | | |]]
    end; cbn [snd]; try discriminate.
    cbn [fst] in H1, H2, H3.
    rewrite bind_unfold. unfold lift.
    destruct (invert_transform _) as [T0| | | |]; cbn [snd]; try discriminate.
    cbv zeta. rewrite bind_assign. cbv beta. unfold assign. cbn [fst snd]. intros _.
    unfold shaped_calibration.
    cbn [self upd_self cal_intrinsics_ cal_extrinsics_ trans_extrinsics_
         with_trans_extrinsics_ with_cal_extrinsics_].
    split; [congruence|]. split.
    + rewrite H2.
      apply (loop_invariant (fun w => map (@length R) w = [4; 4; 4; 4]%nat)); [|exact He].
      intros i y Hy.
      apply (loop_invariant (fun w => map (@length R) w = [4; 4; 4; 4]%nat)); [|exact Hy].
      intros j z Hz.
      apply (loop_invariant (fun w => map (@length R) w = [4; 4; 4; 4]%nat)); [|exact Hz].
      intros k w Hw. rewrite set2_shape. exact Hw.
    + rewrite store_rows_shape, H3. exact Ht.
  - destruct (string_contains "txt" param_file_name); [|discriminate].
    rewrite bind_assign. cbv beta.
    rewrite bind_unfold.
    match goal with |- context [read_values lines 0 ?e ?t ?s1] =>
      pose proof (read_values_shape lines 0 e t s1) as Hshape;
      pose proof (read_values_spec lines 0 e t s1) as Hframe; cbv zeta in Hframe;
      destruct Hframe as (H2 & H3 & _);
      destruct (read_values lines 0 e t s1) as [s2 [[[n e'] t']| | | |]]
    end; cbn [snd]; try discriminate.
    cbn [fst] in Hshape, H2, H3.
    cbn [self upd_self cal_intrinsics_ cal_extrinsics_ trans_extrinsics_
         with_trans_extrinsics_] in Hshape, H2, H3.
    assert (Ht2 : map (@length R) (trans_extrinsics_ (self s2)) = [4; 4; 4; 4]%nat).
    { rewrite H3.
      apply (loop_invariant (fun w => map (@length R) w = [4; 4; 4; 4]%nat)); [|exact Ht].
      intros i y Hy. rewrite set2_shape. exact Hy. }
    rewrite bind_unfold. unfold test_for_exception.
    destruct (negb (n =? 22)%nat && negb (n =? 28)%nat); cbn [snd]; [discriminate|].
    cbn [ret]. rewrite bind_assign. cbv beta.
    destruct (n =? 28)%nat.
    + rewrite bind_unfold. unfold lift.
      destruct (invert_transform _) as [T| | | |]; cbn [snd]; try discriminate.
      unfold assign. cbn [fst snd]. intros _. unfold shaped_calibration.
      cbn [self upd_self cal_intrinsics_ cal_extrinsics_ trans_extrinsics_
           with_trans_extrinsics_ with_cal_extrinsics_].
      split; [congruence|]. split.
      * rewrite store_rows_shape, H2. exact He.
      * rewrite store_rows_shape. exact Ht2.
    + cbn [ret fst snd]. intros _. unfold shaped_calibration.
      cbn [self upd_self cal_intrinsics_ cal_extrinsics_ trans_extrinsics_
           with_trans_extrinsics_ with_cal_extrinsics_].
      split; [congruence|]. split.
      * rewrite store_rows_shape, H2. exact He.
      * exact Ht2.
Qed.

(** A calibration that was loaded can be triangulated with: every index the
    other members use is inside the vectors. *)
Lemma loaded_calibration_shaped (param_file_name : string)
    (dataFile : option (list (list string))) (s : State) :
  snd (load_calibration_parameters param_file_name dataFile s) = Normal tt ->
  shaped_calibration
    (self (fst (load_calibration_parameters param_file_name dataFile s))).
Proof.
  intros H. unfold load_calibration_parameters in *.
  apply bind_normal in H. destruct H as (s1 & [] & Hp & Hrest).
  rewrite Hrest. rewrite (proj1 (check_principal_points_spec s1)).
  pose proof (parse_calibration_file_shape param_file_name dataFile s) as Hs.
  rewrite Hp in Hs. apply Hs. reflexivity.
Qed.

(** After a load that returned, [triangulate] reads every entry it needs
    inside the member vectors. *)
Lemma loaded_calibration_indices_inside (param_file_name : string)
    (dataFile : option (list (list string))) (s : State) :
  snd (load_calibration_parameters param_file_name dataFile s) = Normal tt ->
  triangulate_indices_inside
    (self (fst (load_calibration_parameters param_file_name dataFile s))) = true.
Proof.
  intros H. apply shaped_calibration_inside, loaded_calibration_shaped, H.
Qed.

End LoadedShape.


(** C3, against the code.  The sample object holds eight zero coefficients
    and no estimate has been made on it: a first call of the estimator on
    it is still to come, and returns.  The direct mapper, called on that
    object, fails nothing and returns the coordinates (0, 0). *)
Lemma project_before_estimate_returns :
  snd (project_left_to_right_sensor_coords 3 4 sample_state) = Normal (0, 0) /\
  (forall e, snd (project_left_to_right_sensor_coords 3 4 sample_state) <> Throws e) /\
  (exists s' out,
     estimate_projective_transform (lapack := exact_lapack)
       (collaborators := sample_collaborators)
       tt tt false (Some sample_points) sample_state = (s', Normal out)).
Proof.
  split.
  - unfold project_left_to_right_sensor_coords, bind, get, assert_, ret.
    cbn [self sample_state sample_calibration projectives_ length Nat.eqb snd].
    f_equal. f_equal; cbv -[Rplus Rmult Rdiv Rinv IZR]; field.
  - split.
    + unfold project_left_to_right_sensor_coords, bind, get, assert_, ret.
      cbn [self sample_state sample_calibration projectives_ length Nat.eqb snd].
      discriminate.
    + apply estimate_runs_on_sample.
Qed.

(** ** The theorems at work on the sample data *)

Lemma correct_radial_closed_form_witness :
  snd (correct_lens_distortion_radial 2 3 0 sample_state) = Normal (2, 3).
Proof.
  apply (proj2 (correct_radial_closed_form sample_state 0 2 3 eq_refl
                  ltac:(cbv -[Rlt IZR]; lra) ltac:(cbv -[Rlt IZR]; lra)));
    reflexivity.
Defined.

Lemma sensor_1_homogeneous_depth_is_one_witness :
  1 / depth_term (cal_extrinsics_ (self sample_state)) 0 0 1
    * homogeneous_row
        (projection_matrix (ci sample_state 1 0) (ci sample_state 1 1)
                           (ci sample_state 1 2) (ci sample_state 1 3)
                           (ci sample_state 1 4) (cal_extrinsics_ (self sample_state)))
        2 0 0 1
  = 1.
Proof.
  apply (sensor_1_homogeneous_depth_is_one sample_state 0 0 1 eq_refl).
  cbv -[Rplus Rmult IZR]. lra.
Defined.

Lemma project_left_to_right_guard_witness :
  snd (project_left_to_right_sensor_coords 3 4 sample_state)
    = Normal ((0 * 3 + 0 * 4 + 0) / (0 * 3 + 0 * 4 + 1),
              (0 * 3 + 0 * 4 + 0) / (0 * 3 + 0 * 4 + 1)).
Proof.
  exact (proj1 (proj2 (proj2 (proj2 (project_left_to_right_guard sample_state 3 4))))
           [0; 0; 0; 0; 0; 0; 0; 0] eq_refl eq_refl).
Defined.

Lemma estimate_needs_four_points_witness :
  estimate_projective_transform (lapack := exact_lapack)
    (collaborators := sample_collaborators) tt tt false (Some three_points) sample_state
    = (sample_state, Throws NotEnoughCoordinates) /\
  classify NotEnoughCoordinates = InsufficientDataError.
Proof.
  apply (estimate_needs_four_points (lapack := exact_lapack)
           (collaborators := sample_collaborators) tt tt false three_points sample_state).
  - intros tokens [<-|[<-|[<-|[]]]]; right; reflexivity.
  - cbn. lia.
Defined.

Lemma parse_sample_txt_file :
  exists s', parse_calibration_file (lapack := exact_lapack)
               (collaborators := sample_collaborators)
               "cal.txt" (Some sample_txt_file) sample_state = (s', Normal tt) /\
             cal_intrinsics_ (self s') =
               [ [1; 1; 1; 1; 0; 0; 0; 0]; [1; 1; 1; 1; 0; 0; 0; 0] ].
Proof.
  eexists. split.
  - cbv -[cos sin PI IZR Rplus Rmult Rminus Ropp Rdiv Rinv]. reflexivity.
  - reflexivity.
Qed.


Lemma check_sample_intrinsics (s : State) :
  cal_intrinsics_ (self s) = [ [1; 1; 1; 1; 0; 0; 0; 0]; [1; 1; 1; 1; 0; 0; 0; 0] ] ->
  check_principal_points s = (s, Normal tt).
Proof.
  intros H. unfold check_principal_points, bind, get, test_for_exception. rewrite H.
  cbn [at2 nth]. rewrite !Rleb_false by lra. reflexivity.
Qed.

Lemma load_sample_txt_file :
  snd (load_calibration_parameters (lapack := exact_lapack)
         (collaborators := sample_collaborators)
         "cal.txt" (Some sample_txt_file) sample_state) = Normal tt.
Proof.
  destruct parse_sample_txt_file as (s' & Hp & Hi).
  unfold load_calibration_parameters. rewrite bind_unfold, Hp.
  rewrite (check_sample_intrinsics s' Hi). reflexivity.
Qed.

(** The coincident calibration is one the loader produces: it is what
    [coincident_txt_file] loads to. *)
Lemma load_coincident_txt_file {lapack : LAPACK} :
  load_calibration_parameters (collaborators := sample_collaborators)
    "cal.txt" (Some coincident_txt_file) sample_state = (coincident_state, Normal tt).
Proof.
  assert (Hp : parse_calibration_file (collaborators := sample_collaborators)
                 "cal.txt" (Some coincident_txt_file) sample_state
               = (coincident_state, Normal tt)).
  { cbv -[cos sin PI IZR Rplus Rmult Rminus Ropp Rdiv Rinv].
    replace (0 * PI / 180) with 0 by lra. rewrite cos_0, sin_0.
    unfold coincident_state, coincident_calibration.
    repeat f_equal; lra. }
  unfold load_calibration_parameters. rewrite bind_unfold, Hp.
  apply check_sample_intrinsics. reflexivity.
Qed.

Lemma load_txt_22_values_identity_witness :
  trans_extrinsics_
    (self (fst (load_calibration_parameters (lapack := exact_lapack)
                  (collaborators := sample_collaborators)
                  "cal.txt" (Some sample_txt_file) sample_state)))
    = [ [1; 0; 0; 0]; [0; 1; 0; 0]; [0; 0; 1; 0]; [0; 0; 0; 1] ].
Proof.
  apply (load_txt_22_values_identity (lapack := exact_lapack)
           (collaborators := sample_collaborators)).
  - reflexivity.
  - reflexivity.
  - reflexivity.
  - exact load_sample_txt_file.
Defined.



Lemma load_sample_xml_file :
  snd (load_calibration_parameters (lapack := exact_lapack)
         (collaborators := sample_collaborators)
         "cal.xml" (Some sample_xml_file) sample_state) = Normal tt.
Proof.
  unfold load_calibration_parameters, parse_calibration_file.
  change (string_contains "xml" "cal.xml") with true. cbv iota.
  do 3 (rewrite bind_bind, bind_assign; cbv beta).
  rewrite bind_bind, bind_unfold.
  match goal with
  | |- context [read_cameras sample_xml_file 0 ?o ?Ts ?s0] =>
      let v := eval cbv -[convert_CB_angles_to_T IZR Rplus Rmult Rminus Ropp Rdiv Rinv]
               in (read_cameras sample_xml_file 0 o Ts s0) in
      replace (read_cameras sample_xml_file 0 o Ts s0) with v by reflexivity
  end.
  cbv beta iota. rewrite bind_bind. cbn [nth].
  match goal with
  | |- context [invert_transform (convert_CB_angles_to_T ?a ?b ?g ?x ?y ?z)] =>
      destruct (invert_transform_spec (lapack := exact_lapack)
                  (convert_CB_angles_to_T a b g x y z)
                  (pose_invertible a b g x y z)) as (B & _ & Hinv)
  end.
  rewrite bind_unfold. unfold lift. rewrite Hinv. cbv beta iota zeta.
  rewrite bind_bind, bind_assign. cbv beta. rewrite bind_assign. cbv beta.
  rewrite check_sample_intrinsics; reflexivity.
Qed.

Lemma load_xml_two_cameras_witness :
  exists T0_inverse,
    cm_inverse 4 (values (record_pose (collaborators := sample_collaborators)
                                      (nth 1 sample_xml_file [])))
               T0_inverse /\
    trans_extrinsics_
      (self (fst (load_calibration_parameters (lapack := exact_lapack)
                    (collaborators := sample_collaborators)
                    "cal.xml" (Some sample_xml_file) sample_state)))
      = rows_of T0_inverse /\
    cal_extrinsics_
      (self (fst (load_calibration_parameters (lapack := exact_lapack)
                    (collaborators := sample_collaborators)
                    "cal.xml" (Some sample_xml_file) sample_state)))
      = product_rows (values (record_pose (collaborators := sample_collaborators)
                                          (nth 3 sample_xml_file [])))
                     T0_inverse.
Proof.
  exact (load_xml_two_cameras (lapack := exact_lapack)
           (collaborators := sample_collaborators)
           "cal.xml" sample_xml_file (nth 1 sample_xml_file []) (nth 3 sample_xml_file [])
           sample_state eq_refl eq_refl load_sample_xml_file).
Defined.

(** * Further properties *)

(** ** The pose matrix *)

Ltac name_angles alpha beta gamma :=
  let Hx := fresh "Hx" in let Hy := fresh "Hy" in let Hz := fresh "Hz" in
  pose proof (sin2_cos2 (alpha * DICE_PI / 180)) as Hx;
  pose proof (sin2_cos2 (beta * DICE_PI / 180)) as Hy;
  pose proof (sin2_cos2 (gamma * DICE_PI / 180)) as Hz;
  unfold Rsqr in Hx, Hy, Hz;
  generalize dependent (cos (alpha * DICE_PI / 180)); intros cx;
  generalize dependent (sin (alpha * DICE_PI / 180)); intros sx Hx;
  generalize dependent (cos (beta * DICE_PI / 180)); intros cy;
  generalize dependent (sin (beta * DICE_PI / 180)); intros sy Hy;
  generalize dependent (cos (gamma * DICE_PI / 180)); intros cz;
  generalize dependent (sin (gamma * DICE_PI / 180)); intros sz Hz.

(** X1.  [convert_CB_angles_to_T] gives a rigid transform for every input: a 4
    by 4 matrix whose 3 by 3 block has orthonormal columns and determinant
    1, whose last column is the translation and whose last row is
    (0, 0, 0, 1). *)
Theorem convert_CB_angles_to_T_is_rigid (alpha beta gamma tx ty tz : R) :
  let T := convert_CB_angles_to_T alpha beta gamma tx ty tz in
  numRows T = 4%nat /\ numCols T = 4%nat /\ length (values T) = 16%nat /\
  (forall i j, (i < 3)%nat -> (j < 3)%nat ->
     sum_upto 3 (fun k => rotation_block T k i * rotation_block T k j) = kronecker i j) /\
  det3 (rotation_block T) = 1 /\
  (sdm_get T 0 3, sdm_get T 1 3, sdm_get T 2 3) = (tx, ty, tz) /\
  (sdm_get T 3 0, sdm_get T 3 1, sdm_get T 3 2, sdm_get T 3 3) = (0, 0, 0, 1).
Proof.
  cbv zeta. rewrite pose_values. cbv zeta.
  split; [reflexivity|]. split; [reflexivity|]. split; [reflexivity|].
  name_angles alpha beta gamma.
  split; [|split; [|split; reflexivity]].
  - intros i j Hi Hj.
    destruct i as [|[|[|i]]]; [| | |lia]; destruct j as [|[|[|j]]]; try lia;
      cbv -[Rplus Rmult Rminus Ropp IZR]; nsatz.
  - cbv -[Rplus Rmult Rminus Ropp IZR]. nsatz.
Qed.

(** X2.  The rotation is the one about x by [alpha], then about y by [beta],
    then about z by [gamma], the angles in degrees. *)
Theorem convert_CB_angles_to_T_is_Rz_Ry_Rx (alpha beta gamma tx ty tz : R) (i j : nat) :
  (i < 3)%nat -> (j < 3)%nat ->
  rotation_block (convert_CB_angles_to_T alpha beta gamma tx ty tz) i j =
  mul3 (rotation_z gamma) (mul3 (rotation_y beta) (rotation_x alpha)) i j.
Proof.
  intros Hi Hj. rewrite pose_values. cbv zeta.
  destruct i as [|[|[|i]]]; [| | |lia]; destruct j as [|[|[|j]]]; try lia;
    cbv -[Rplus Rmult Rminus Ropp IZR cos sin DICE_PI Rdiv]; ring.
Qed.

Lemma convert_CB_angles_to_T_is_Rz_Ry_Rx_witness :
  rotation_block (convert_CB_angles_to_T 10 20 30 0 0 0) 0 1 =
  mul3 (rotation_z 30) (mul3 (rotation_y 20) (rotation_x 10)) 0 1.
Proof.
  apply convert_CB_angles_to_T_is_Rz_Ry_Rx; lia.
Defined.

(** ** Inverses are unique *)

Lemma cm_inverse_4_unique (A B B' : list R) :
  cm_inverse 4 A B -> cm_inverse 4 A B' -> B = B'.
Proof.
  intros (HA & HB & HBA & _) (_ & HB' & _ & HAB').
  destruct A as [|a0 [|a1 [|a2 [|a3 [|a4 [|a5 [|a6 [|a7 [|a8 [|a9 [|a10 [|a11 [|a12 [|a13 [|a14 [|a15 [|]]]]]]]]]]]]]]]]];
    try discriminate HA.
  destruct B as [|b0 [|b1 [|b2 [|b3 [|b4 [|b5 [|b6 [|b7 [|b8 [|b9 [|b10 [|b11 [|b12 [|b13 [|b14 [|b15 [|]]]]]]]]]]]]]]]]];
    try discriminate HB.
  destruct B' as [|c0 [|c1 [|c2 [|c3 [|c4 [|c5 [|c6 [|c7 [|c8 [|c9 [|c10 [|c11 [|c12 [|c13 [|c14 [|c15 [|]]]]]]]]]]]]]]]]];
    try discriminate HB'.
  cbv -[Rplus Rmult IZR] in HBA, HAB'.
  injection HBA as L0 L1 L2 L3 L4 L5 L6 L7 L8 L9 L10 L11 L12 L13 L14 L15.
  injection HAB' as M0 M1 M2 M3 M4 M5 M6 M7 M8 M9 M10 M11 M12 M13 M14 M15.
  assert (E0 : b0 = c0) by (clear - L0 L4 L8 L12 M0 M1 M2 M3; nsatz).
  assert (E1 : b1 = c1) by (clear - L1 L5 L9 L13 M0 M1 M2 M3; nsatz).
  assert (E2 : b2 = c2) by (clear - L2 L6 L10 L14 M0 M1 M2 M3; nsatz).
  assert (E3 : b3 = c3) by (clear - L3 L7 L11 L15 M0 M1 M2 M3; nsatz).
  assert (E4 : b4 = c4) by (clear - L0 L4 L8 L12 M4 M5 M6 M7; nsatz).
  assert (E5 : b5 = c5) by (clear - L1 L5 L9 L13 M4 M5 M6 M7; nsatz).
  assert (E6 : b6 = c6) by (clear - L2 L6 L10 L14 M4 M5 M6 M7; nsatz).
  assert (E7 : b7 = c7) by (clear - L3 L7 L11 L15 M4 M5 M6 M7; nsatz).
  assert (E8 : b8 = c8) by (clear - L0 L4 L8 L12 M8 M9 M10 M11; nsatz).
  assert (E9 : b9 = c9) by (clear - L1 L5 L9 L13 M8 M9 M10 M11; nsatz).
  assert (E10 : b10 = c10) by (clear - L2 L6 L10 L14 M8 M9 M10 M11; nsatz).
  assert (E11 : b11 = c11) by (clear - L3 L7 L11 L15 M8 M9 M10 M11; nsatz).
  assert (E12 : b12 = c12) by (clear - L0 L4 L8 L12 M12 M13 M14 M15; nsatz).
  assert (E13 : b13 = c13) by (clear - L1 L5 L9 L13 M12 M13 M14 M15; nsatz).
  assert (E14 : b14 = c14) by (clear - L2 L6 L10 L14 M12 M13 M14 M15; nsatz).
  assert (E15 : b15 = c15) by (clear - L3 L7 L11 L15 M12 M13 M14 M15; nsatz).
  congruence.
Qed.

(** ** Inverting a transform *)

Section InvertTransform.
Context {lapack : LAPACK}.

Lemma invert_transform_pose (alpha beta gamma tx ty tz : R) :
  invert_transform (convert_CB_angles_to_T alpha beta gamma tx ty tz) =
  Normal (rigid_inverse_of (convert_CB_angles_to_T alpha beta gamma tx ty tz)).
Proof.
  destruct (invert_transform_spec _ (pose_invertible alpha beta gamma tx ty tz))
    as (B & HB & ->).
  f_equal. unfold rigid_inverse_of. f_equal.
  apply (cm_inverse_4_unique _ _ _ HB).
  rewrite pose_values. cbv zeta.
  cbv -[Rplus Rmult Rminus Ropp IZR cos sin DICE_PI Rdiv cm_inverse].
  name_angles alpha beta gamma.
  apply rigid_inverse; nsatz.
Qed.

(** X3.  [invert_transform] on a pose matrix gives the rigid inverse: the
    rotation transposed and the translation taken back through it, so that
    the point [R p + t] goes back to [p]. *)
Theorem invert_transform_of_pose (alpha beta gamma tx ty tz x y z : R) :
  let T := convert_CB_angles_to_T alpha beta gamma tx ty tz in
  let U := rigid_inverse_of T in
  let q i := sdm_get T i 0 * x + sdm_get T i 1 * y + sdm_get T i 2 * z + sdm_get T i 3 in
  invert_transform T = Normal U /\
  sdm_get U 0 0 * q 0%nat + sdm_get U 0 1 * q 1%nat + sdm_get U 0 2 * q 2%nat
    + sdm_get U 0 3 = x /\
  sdm_get U 1 0 * q 0%nat + sdm_get U 1 1 * q 1%nat + sdm_get U 1 2 * q 2%nat
    + sdm_get U 1 3 = y /\
  sdm_get U 2 0 * q 0%nat + sdm_get U 2 1 * q 1%nat + sdm_get U 2 2 * q 2%nat
    + sdm_get U 2 3 = z.
Proof.
  cbv zeta. split; [apply invert_transform_pose|].
  rewrite pose_values. cbv zeta.
  cbv -[Rplus Rmult Rminus Ropp IZR cos sin DICE_PI Rdiv].
  name_angles alpha beta gamma.
  repeat split; nsatz.
Qed.

(** X4.  Inverting twice gives the matrix back. *)
Theorem invert_transform_twice (T : SerialDenseMatrix) :
  cm_invertible 4 (values T) ->
  exists T', invert_transform T = Normal T' /\ invert_transform T' = Normal T.
Proof.
  intros Hinv.
  destruct (invert_transform_spec T Hinv) as (B & HB & E).
  eexists. split; [exact E|].
  assert (HB' : cm_inverse 4 B (values T)).
  { destruct HB as (H1 & H2 & H3 & H4). repeat split; assumption. }
  destruct (invert_transform_spec {| numRows := numRows T; numCols := numCols T;
                                     values := B |}
              (ex_intro _ (values T) HB')) as (C & HC & E').
  rewrite E'. cbn [numRows numCols values] in *.
  rewrite (cm_inverse_4_unique _ _ _ HC HB').
  destruct T; reflexivity.
Qed.

(** X5.  [invert_transform] returns for every matrix of sixteen values, an
    invertible one or not: LAPACK reports a singular matrix in [INFO], which
    is not read, so the error of the handler is never thrown. *)
Theorem invert_transform_always_returns (T : SerialDenseMatrix) :
  length (values T) = 16%nat ->
  exists T', invert_transform T = Normal T' /\
             numRows T' = numRows T /\ numCols T' = numCols T /\
             length (values T') = 16%nat.
Proof.
  intros H16. rewrite <- H16.
  unfold invert_transform.
  destruct (GETRF 4 4 (values T) 4) as [[F P] info].
  match goal with |- context [GETRI ?n ?A ?lda ?ipiv ?lw] =>
    pose proof (GETRI_returns n A lda ipiv lw) as Hr;
    destruct (GETRI n A lda ipiv lw) as [[[A' W] info']|]
  end; [|contradiction].
  eexists. split; [reflexivity|].
  unfold sdm_write. cbn [numRows numCols values].
  rewrite !write_buffer_length. repeat split; reflexivity.
Qed.

End InvertTransform.

Lemma invert_transform_twice_witness :
  exists T', invert_transform (lapack := exact_lapack)
               (convert_CB_angles_to_T 0 0 0 1 2 3) = Normal T' /\
             invert_transform (lapack := exact_lapack) T' =
               Normal (convert_CB_angles_to_T 0 0 0 1 2 3).
Proof.
  apply (invert_transform_twice (lapack := exact_lapack)).
  apply pose_invertible.
Defined.

(** ** Reading and writing a vector *)

Lemma nth_vset_other {A : Type} (i k : nat) (x d : A) (v : list A) :
  i <> k -> nth k (vset i x v) d = nth k v d.
Proof.
  revert i k. induction v as [|h t IH]; intros [|i] [|k] H; cbn; try reflexivity.
  - contradiction.
  - apply IH. lia.
Qed.

Lemma nth_vset_same {A : Type} (i : nat) (x d : A) (v : list A) :
  (i < length v)%nat -> nth i (vset i x v) d = x.
Proof.
  revert i. induction v as [|h t IH]; intros [|i] H; cbn in *; try lia; try reflexivity.
  apply IH. lia.
Qed.

Lemma at2_set2_other_row (i j c k : nat) (x : R) (v : list (list R)) :
  i <> c -> at2 (set2 i j x v) c k = at2 v c k.
Proof. intros H. unfold at2, set2. rewrite nth_vset_other by exact H. reflexivity. Qed.

Lemma at2_set2_other_column (i j k : nat) (x : R) (v : list (list R)) :
  j <> k -> at2 (set2 i j x v) i k = at2 v i k.
Proof.
  intros H. unfold at2, set2.
  destruct (Nat.lt_ge_cases i (length v)) as [Hi|Hi].
  - rewrite nth_vset_same by exact Hi. apply nth_vset_other. exact H.
  - assert (E : forall (w : list R), vset i w v = v).
    { clear - Hi. revert i Hi. induction v as [|h t IH]; intros [|i] Hi w; cbn in *;
        try reflexivity; try lia. f_equal. apply IH. lia. }
    rewrite E. reflexivity.
Qed.

Lemma at2_set2_same (i j : nat) (x : R) (v : list (list R)) :
  inside2 v i j = true -> at2 (set2 i j x v) i j = x.
Proof.
  unfold inside2, at2, set2. intros H. apply andb_prop in H. destruct H as [Hi Hj].
  apply Nat.ltb_lt in Hi, Hj.
  rewrite nth_vset_same by exact Hi. apply nth_vset_same. exact Hj.
Qed.

Lemma inside2_shape (v w : list (list R)) (i j : nat) :
  map (@length R) v = map (@length R) w -> inside2 v i j = inside2 w i j.
Proof.
  intros H. unfold inside2.
  assert (Hl : length v = length w).
  { rewrite <- (length_map (@length R) v), H. apply length_map. }
  rewrite Hl. destruct (Nat.ltb_spec i (length w)) as [Hi|Hi]; [|reflexivity].
  cbn [andb].
  rewrite <- (map_nth (@length R) v [] i), <- (map_nth (@length R) w [] i), H.
  reflexivity.
Qed.

(** ** The camera records of an xml file *)

Section XmlRecords.
Context {lapack : LAPACK} {collaborators : Collaborators}.

(** A third camera record stops the program at [assert(camera_index<2)]. *)
Lemma read_cameras_too_many (lines : list (list string)) :
  forall (camera_index : nat) (cam_orientation : list (list R))
         (vec_of_Ts : list SerialDenseMatrix) (s : State) (Ts : list SerialDenseMatrix),
  (camera_index <= 2)%nat ->
  (2 < camera_index + length (camera_records lines))%nat ->
  snd (read_cameras lines camera_index cam_orientation vec_of_Ts s) <> Normal Ts.
Proof.
  induction lines as [|tokens rest IH];
    intros camera_index cam_orientation vec_of_Ts s Ts Hle H.
  - cbn in H. lia.
  - unfold camera_records in H. cbn [filter] in H. unfold is_camera_line in H at 1.
    fold (camera_records rest) in H. cbn [read_cameras].
    destruct (length tokens =? 0)%nat; cbn [negb andb] in *.
    { apply IH; assumption. }
    destruct (String.eqb (token tokens 0) "CAMERA"); cbn [negb] in *.
    2:{ apply IH; assumption. }
    cbn [length] in H. unfold assert_ at 1 2. rewrite bind_unfold.
    destruct (camera_index <? 2)%nat eqn:E2; [|cbn; discriminate].
    apply Nat.ltb_lt in E2. rewrite bind_unfold.
    destruct (17 <? length tokens)%nat; [|cbn; discriminate].
    rewrite bind_assign. cbv beta zeta. apply IH; lia.
Qed.

(** The loop fills the rows of [cal_intrinsics_] of the cameras it finds a
    record for, and no other. *)
Lemma read_cameras_rows_kept (lines : list (list string)) :
  forall (camera_index : nat) (cam_orientation : list (list R))
         (vec_of_Ts : list SerialDenseMatrix) (s : State) (c k : nat),
  (camera_index + length (camera_records lines) <= c)%nat ->
  at2 (cal_intrinsics_
         (self (fst (read_cameras lines camera_index cam_orientation vec_of_Ts s)))) c k
  = at2 (cal_intrinsics_ (self s)) c k.
Proof.
  induction lines as [|tokens rest IH];
    intros camera_index cam_orientation vec_of_Ts s c k H; [reflexivity|].
  unfold camera_records in H. cbn [filter] in H. unfold is_camera_line in H at 1.
  fold (camera_records rest) in H. cbn [read_cameras].
  destruct (length tokens =? 0)%nat; cbn [negb andb] in *.
  { apply IH. exact H. }
  destruct (String.eqb (token tokens 0) "CAMERA"); cbn [negb] in *.
  2:{ apply IH. exact H. }
  cbn [length] in H. unfold assert_ at 1 2. rewrite bind_unfold.
  destruct (camera_index <? 2)%nat; [|reflexivity].
  rewrite bind_unfold.
  destruct (17 <? length tokens)%nat; [|reflexivity].
  rewrite bind_assign. cbv beta zeta. rewrite IH by lia.
  cbn [self upd_self cal_intrinsics_ with_cal_intrinsics_].
  apply (loop_invariant (fun v => at2 v c k = at2 (cal_intrinsics_ (self s)) c k));
    [|reflexivity].
  intros i y Hy. rewrite at2_set2_other_row by lia. exact Hy.
Qed.

(** X9.  An xml calibration file loads only if it holds exactly two camera
    records: with none or one, cx of a camera without a record is still 0
    and is refused; a third record stops at the [assert]. *)
Theorem load_xml_needs_two_cameras (param_file_name : string)
    (lines : list (list string)) (s : State) :
  string_contains "xml" param_file_name = true ->
  snd (load_calibration_parameters param_file_name (Some lines) s) = Normal tt ->
  length (camera_records lines) = 2%nat.
Proof.
  intros Hxml Hload.
  unfold load_calibration_parameters in Hload.
  pose proof Hload as Hb. apply bind_normal in Hb.
  destruct Hb as (s1 & [] & Hparse & Hrest). rewrite Hrest in Hload.
  destruct (check_principal_points_spec s1) as (_ & _ & Hgood).
  destruct (Hgood Hload) as (_ & _ & Hcx1 & _). clear Hgood Hrest Hload.
  unfold parse_calibration_file in Hparse. rewrite Hxml in Hparse.
  do 3 (rewrite bind_assign in Hparse; cbv beta in Hparse).
  rewrite bind_unfold in Hparse.
  match type of Hparse with context [read_cameras lines 0 ?o ?Ts ?s0] =>
    pose proof (read_cameras_too_many lines 0 o Ts s0) as Hmany;
    pose proof (read_cameras_rows_kept lines 0 o Ts s0 1 0) as Hkept;
    destruct (read_cameras lines 0 o Ts s0) as [s2 [Ts'| | | |]] eqn:Hread
  end; try discriminate Hparse.
  cbn [fst snd] in Hmany, Hkept.
  destruct (Nat.lt_trichotomy (length (camera_records lines)) 2) as [Hlt|[Heq|Hgt]].
  - exfalso. rewrite bind_unfold in Hparse. unfold lift in Hparse.
    destruct (invert_transform _) as [T0| | | |]; try discriminate Hparse.
    cbv zeta in Hparse. rewrite bind_assign in Hparse. cbv beta in Hparse.
    unfold assign in Hparse. injection Hparse as <-.
    unfold intr in Hcx1.
    cbn [self upd_self cal_intrinsics_ with_cal_extrinsics_ with_trans_extrinsics_]
      in Hcx1.
    rewrite Hkept in Hcx1 by (cbn; lia).
    cbn in Hcx1. lra.
  - exact Heq.
  - exfalso. apply (Hmany Ts'); [lia|cbn; lia|reflexivity].
Qed.

End XmlRecords.

(** ** What a txt calibration file leaves in the members *)

Lemma value_tokens_cons (tokens : list string) (rest : list (list string)) :
  value_tokens (tokens :: rest) =
  if is_value_line tokens then token tokens 0 :: value_tokens rest else value_tokens rest.
Proof. unfold value_tokens. cbn [filter]. destruct (is_value_line tokens); reflexivity. Qed.

Lemma nth_vset (i k : nat) (x : R) (v : list R) :
  (i < length v)%nat ->
  nth k (vset i x v) 0 = if (i =? k)%nat then x else nth k v 0.
Proof.
  intros H. destruct (Nat.eqb_spec i k) as [<-|Hne].
  - apply nth_vset_same. exact H.
  - apply nth_vset_other. exact Hne.
Qed.

Lemma at2_set2 (i j c k : nat) (x : R) (v : list (list R)) :
  inside2 v i j = true ->
  at2 (set2 i j x v) c k = if (i =? c)%nat && (j =? k)%nat then x else at2 v c k.
Proof.
  intros H. destruct (Nat.eqb_spec i c) as [<-|Hc]; cbn [andb].
  - destruct (Nat.eqb_spec j k) as [<-|Hk].
    + apply at2_set2_same. exact H.
    + apply at2_set2_other_column. exact Hk.
  - apply at2_set2_other_row. exact Hc.
Qed.

(** Case analysis on the comparisons of natural numbers in the goal. *)
Ltac split_conditions :=
  repeat match goal with
         | |- context [(?a <=? ?b)%nat] => destruct (Nat.leb_spec a b)
         | |- context [(?a <? ?b)%nat] => destruct (Nat.ltb_spec a b)
         | |- context [(?a =? ?b)%nat] => destruct (Nat.eqb_spec a b)
         end;
  cbn [andb].

Ltac finish_later :=
  try reflexivity; try lia;
  match goal with
  | |- _ = ?f (nth ?i (_ :: _) _) =>
      first [ replace i with 0%nat by lia; reflexivity
            | match goal with
              | |- ?f (nth ?k _ _) = _ => replace i with (S k) by lia; reflexivity
              end ]
  end.

Section TxtContents.
Context {lapack : LAPACK} {collaborators : Collaborators}.

Lemma read_values_contents (lines : list (list string)) :
  forall (num_values : nat) (extrinsics trans_extrinsics : list R) (s s' : State)
         (n : nat) (e t : list R),
  read_values lines num_values extrinsics trans_extrinsics s = (s', Normal (n, e, t)) ->
  map (@length R) (cal_intrinsics_ (self s)) = [8; 8]%nat ->
  length extrinsics = 6%nat -> length trans_extrinsics = 6%nat ->
  (forall c j, (c < 2)%nat -> (j < 8)%nat ->
     at2 (cal_intrinsics_ (self s')) c j =
     value_from lines num_values (8 * c + j) (at2 (cal_intrinsics_ (self s)) c j)) /\
  (forall i, (i < 6)%nat ->
     nth i e 0 = value_from lines num_values (16 + i) (nth i extrinsics 0)) /\
  (forall i, (i < 6)%nat ->
     nth i t 0 = value_from lines num_values (22 + i) (nth i trans_extrinsics 0)).
Proof.
  unfold value_from.
  induction lines as [|tokens rest IH];
    intros num_values extrinsics trans_extrinsics s s' n e t Hrun Hshape He Ht.
  - cbn in Hrun. injection Hrun as <- _ <- <-.
    unfold count_values. cbn [filter length].
    repeat split; intros; split_conditions; try reflexivity; lia.
  - rewrite count_values_cons, value_tokens_cons. cbn [read_values] in Hrun.
    unfold is_value_line.
    destruct (length tokens =? 0)%nat; cbn [negb andb].
    { apply (IH _ _ _ _ _ _ _ _ Hrun Hshape He Ht). }
    destruct (String.eqb (token tokens 0) "#"); cbn [negb].
    { apply (IH _ _ _ _ _ _ _ _ Hrun Hshape He Ht). }
    rewrite bind_unfold in Hrun.
    match type of Hrun with context [?a s] =>
      match a with (if _ then _ else _) =>
        assert (Ha : a s = (s, Normal tt) \/
                     a s = (s, AssertFails Assert_second_token_is_hash));
        [destruct (1 <? length tokens)%nat; [|left; reflexivity];
         unfold assert_; destruct (String.eqb _ _); auto|]
      end
    end.
    destruct Ha as [Ha|Ha]; rewrite Ha in Hrun; [|discriminate Hrun].
    cbv zeta in Hrun.
    destruct (num_values <? 16)%nat eqn:E16.
    { apply Nat.ltb_lt in E16. rewrite bind_assign in Hrun.
      match type of Hrun with read_values rest _ _ _ ?s1 = _ =>
        assert (Hshape1 : map (@length R) (cal_intrinsics_ (self s1)) = [8; 8]%nat)
          by (cbn [self upd_self cal_intrinsics_ with_cal_intrinsics_];
              rewrite set2_shape; exact Hshape);
        destruct (IH _ _ _ _ _ _ _ _ Hrun Hshape1 He Ht) as (H1 & H2 & H3)
      end.
      split; [|split].
      - intros c j Hc Hj. rewrite (H1 c j Hc Hj).
        cbn [self upd_self cal_intrinsics_ with_cal_intrinsics_].
        rewrite at2_set2.
        2:{ rewrite (inside2_shape _ [repeat 0 8; repeat 0 8]) by exact Hshape.
            destruct (Nat.leb_spec 8 num_values);
              unfold inside2; cbn [length nth repeat];
              apply andb_true_intro; split; apply Nat.ltb_lt; lia. }
        destruct (Nat.leb_spec 8 num_values); split_conditions; finish_later.
      - intros i Hi. rewrite (H2 i Hi). split_conditions; finish_later.
      - intros i Hi. rewrite (H3 i Hi). split_conditions; finish_later. }
    apply Nat.ltb_ge in E16.
    destruct (num_values <? 22)%nat eqn:E22.
    { apply Nat.ltb_lt in E22.
      match type of Hrun with read_values rest _ ?e1 _ _ = _ =>
        assert (He1 : length e1 = 6%nat) by (rewrite vset_length; exact He);
        destruct (IH _ _ _ _ _ _ _ _ Hrun Hshape He1 Ht) as (H1 & H2 & H3)
      end.
      split; [|split].
      - intros c j Hc Hj. rewrite (H1 c j Hc Hj). split_conditions; finish_later.
      - intros i Hi. rewrite (H2 i Hi). rewrite nth_vset by lia.
        split_conditions; finish_later.
      - intros i Hi. rewrite (H3 i Hi). split_conditions; finish_later. }
    apply Nat.ltb_ge in E22.
    rewrite bind_unfold in Hrun. unfold in_range in Hrun.
    destruct (num_values - 22 <? 6)%nat eqn:E28; [|discriminate Hrun].
    apply Nat.ltb_lt in E28. cbn [ret] in Hrun.
    match type of Hrun with read_values rest _ _ ?t1 _ = _ =>
      assert (Ht1 : length t1 = 6%nat) by (rewrite vset_length; exact Ht);
      destruct (IH _ _ _ _ _ _ _ _ Hrun Hshape He Ht1) as (H1 & H2 & H3)
    end.
    split; [|split].
    + intros c j Hc Hj. rewrite (H1 c j Hc Hj). split_conditions; finish_later.
    + intros i Hi. rewrite (H2 i Hi). split_conditions; finish_later.
    + intros i Hi. rewrite (H3 i Hi). rewrite nth_vset by lia.
      split_conditions; finish_later.
Qed.

End TxtContents.

(** ** How a load fails *)

Section LoadFailures.
Context {lapack : LAPACK} {collaborators : Collaborators}.

(** X6.  A file that cannot be opened, whatever its name, leaves the object
    as it was; a file that is opened and whose name holds neither "xml" nor
    "txt" is refused only after the members were cleared, so the
    calibration loaded before is gone. *)
Theorem load_unrecognized_format_clears (param_file_name : string)
    (lines : list (list string)) (s : State) :
  load_calibration_parameters param_file_name None s = (s, Throws CalibrationFileNotGood) /\
  (string_contains "xml" param_file_name = false ->
   string_contains "txt" param_file_name = false ->
   load_calibration_parameters param_file_name (Some lines) s =
     (upd_self cleared_calibration s, Throws UnrecognizedCalibrationFormat)).
Proof.
  split; [reflexivity|]. intros Hxml Htxt.
  unfold load_calibration_parameters, parse_calibration_file.
  rewrite Hxml, Htxt. reflexivity.
Qed.

(** The txt loop on well-formed lines: it returns the number of value lines
    as long as that stays within 28, and writes outside the six-entry
    vector [trans_extrinsics] on the twenty-ninth. *)
Lemma read_values_outcome (lines : list (list string)) :
  forall (num_values : nat) (extrinsics trans_extrinsics : list R) (s : State),
  well_formed_value_lines lines = true ->
  ((num_values + count_values lines <= 28)%nat ->
   exists s' e t, read_values lines num_values extrinsics trans_extrinsics s =
                  (s', Normal ((num_values + count_values lines)%nat, e, t))) /\
  ((num_values <= 28)%nat -> (28 < num_values + count_values lines)%nat ->
   snd (read_values lines num_values extrinsics trans_extrinsics s) = Undefined).
Proof.
  induction lines as [|tokens rest IH]; intros num_values extrinsics trans_extrinsics s Hwf.
  - unfold count_values. cbn. split.
    + intros _. exists s, extrinsics, trans_extrinsics. rewrite Nat.add_0_r. reflexivity.
    + intros; lia.
  - cbn [well_formed_value_lines forallb] in Hwf. apply andb_prop in Hwf.
    destruct Hwf as [Hline Hrest]. fold (well_formed_value_lines rest) in Hrest.
    rewrite count_values_cons. cbn [read_values].
    unfold is_value_line in *.
    destruct (length tokens =? 0)%nat; cbn [negb andb orb] in *.
    { apply IH; assumption. }
    destruct (String.eqb (token tokens 0) "#"); cbn [negb andb orb] in *.
    { apply IH; assumption. }
    rewrite bind_unfold.
    assert (Ha : (if (1 <? length tokens)%nat
                  then assert_ (String.eqb (token tokens 1) "#") Assert_second_token_is_hash
                  else ret tt) s = (s, Normal tt)).
    { destruct (1 <? length tokens)%nat; [|reflexivity].
      cbn [negb orb] in Hline. unfold assert_. rewrite Hline. reflexivity. }
    rewrite Ha. cbv zeta.
    destruct (num_values <? 16)%nat eqn:E16.
    { apply Nat.ltb_lt in E16. rewrite bind_assign.
      match goal with |- context [read_values rest ?n ?e ?t ?s1] =>
        destruct (IH n e t s1 Hrest) as [IH1 IH2] end.
      split.
      - intros H. destruct IH1 as (s' & e & t & E); [lia|].
        exists s', e, t. rewrite E.
        replace (num_values + S (count_values rest))%nat
          with (S num_values + count_values rest)%nat by lia. reflexivity.
      - intros H1 H2. apply IH2; lia. }
    destruct (num_values <? 22)%nat eqn:E22.
    { apply Nat.ltb_lt in E22.
      match goal with |- context [read_values rest ?n ?e ?t ?s1] =>
        destruct (IH n e t s1 Hrest) as [IH1 IH2] end.
      split.
      - intros H. destruct IH1 as (s' & e & t & E); [lia|].
        exists s', e, t. rewrite E.
        replace (num_values + S (count_values rest))%nat
          with (S num_values + count_values rest)%nat by lia. reflexivity.
      - intros H1 H2. apply IH2; lia. }
    apply Nat.ltb_ge in E16, E22.
    rewrite bind_unfold. unfold in_range.
    destruct (num_values - 22 <? 6)%nat eqn:E28.
    + apply Nat.ltb_lt in E28. cbn [ret].
      match goal with |- context [read_values rest ?n ?e ?t ?s1] =>
        destruct (IH n e t s1 Hrest) as [IH1 IH2] end.
      split.
      * intros H. destruct IH1 as (s' & e & t & E); [lia|].
        exists s', e, t. rewrite E.
        replace (num_values + S (count_values rest))%nat
          with (S num_values + count_values rest)%nat by lia. reflexivity.
      * intros H1 H2. apply IH2; lia.
    + apply Nat.ltb_ge in E28. split.
      * intros H. lia.
      * intros _ _. reflexivity.
Qed.

(** X7.  A txt calibration file that holds a number of values other than 22 or
    28, and fewer than 28 of them, is refused with the error "Error reading
    calibration text file". *)
Theorem load_txt_wrong_value_count (param_file_name : string)
    (lines : list (list string)) (s : State) :
  string_contains "xml" param_file_name = false ->
  string_contains "txt" param_file_name = true ->
  well_formed_value_lines lines = true ->
  count_values lines <> 22%nat -> (count_values lines < 28)%nat ->
  snd (load_calibration_parameters param_file_name (Some lines) s) =
    Throws ErrorReadingCalibrationText.
Proof.
  intros Hxml Htxt Hwf H22 H28.
  unfold load_calibration_parameters, parse_calibration_file.
  rewrite Hxml, Htxt. rewrite bind_unfold.
  do 4 (rewrite bind_assign; cbv beta). rewrite bind_unfold.
  match goal with |- context [read_values lines 0 ?e ?t ?s1] =>
    destruct (proj1 (read_values_outcome lines 0 e t s1 Hwf)) as (s' & e' & t' & E);
      [cbn; lia|] end.
  rewrite E. cbn [Nat.add]. rewrite bind_unfold. unfold test_for_exception.
  destruct (Nat.eqb_spec (count_values lines) 22); [contradiction|].
  destruct (Nat.eqb_spec (count_values lines) 28); [lia|].
  reflexivity.
Qed.

(** X8.  A txt calibration file with more than 28 values is not refused: the
    twenty-ninth value is written past the end of a vector of six. *)
Theorem load_txt_too_many_values (param_file_name : string)
    (lines : list (list string)) (s : State) :
  string_contains "xml" param_file_name = false ->
  string_contains "txt" param_file_name = true ->
  well_formed_value_lines lines = true ->
  (28 < count_values lines)%nat ->
  snd (load_calibration_parameters param_file_name (Some lines) s) = Undefined.
Proof.
  intros Hxml Htxt Hwf H28.
  unfold load_calibration_parameters, parse_calibration_file.
  rewrite Hxml, Htxt. rewrite bind_unfold.
  do 4 (rewrite bind_assign; cbv beta). rewrite bind_unfold.
  match goal with |- context [read_values lines 0 ?e ?t ?s1] =>
    pose proof (proj2 (read_values_outcome lines 0 e t s1 Hwf) ltac:(lia) ltac:(cbn; lia))
      as E;
    destruct (read_values lines 0 e t s1) as [s' o] end.
  cbn [snd] in E. rewrite E. reflexivity.
Qed.

End LoadFailures.

Lemma store_rows (A : SerialDenseMatrix) (old : list (list R)) :
  numRows A = 4%nat -> length (values A) = 16%nat ->
  map (@length R) old = [4; 4; 4; 4]%nat ->
  loop 0 4 (fun i => loop 0 4 (fun j => set2 i j (sdm_get A i j))) old
  = rows_of (values A).
Proof.
  destruct A as [nr nc v]. cbn [numRows values]. intros -> Hv Hold. spell Hv.
  destruct old as [|o0 [|o1 [|o2 [|o3 [|]]]]]; try discriminate Hold.
  cbn [map] in Hold. injection Hold as H0 H1 H2 H3.
  spell H0. spell H1. spell H2. spell H3. reflexivity.
Qed.

Section TxtLoaded.
Context {lapack : LAPACK} {collaborators : Collaborators}.

(** X10.  A txt calibration file that loads holds 22 or 28 values: the first
    sixteen are the intrinsics of camera 0 and of camera 1, in file order;
    the next six are the pose whose matrix becomes the camera 0 to camera 1
    transform; with 28 values the last six are a pose whose inverse becomes
    the camera 0 to world transform. *)
Theorem load_txt_stores_values (param_file_name : string)
    (lines : list (list string)) (s : State) :
  string_contains "xml" param_file_name = false ->
  string_contains "txt" param_file_name = true ->
  snd (load_calibration_parameters param_file_name (Some lines) s) = Normal tt ->
  let t := self (fst (load_calibration_parameters param_file_name (Some lines) s)) in
  (count_values lines = 22%nat \/ count_values lines = 28%nat) /\
  (forall c j, (c < 2)%nat -> (j < 8)%nat -> intr t c j = txt_value lines (8 * c + j)) /\
  cal_extrinsics_ t = rows_of (values (txt_pose lines 16)) /\
  (count_values lines = 28%nat ->
   trans_extrinsics_ t = rows_of (values (rigid_inverse_of (txt_pose lines 22)))).
Proof.
  intros Hxml Htxt Hload. cbv zeta.
  unfold load_calibration_parameters in *.
  pose proof Hload as Hb. apply bind_normal in Hb.
  destruct Hb as (s1 & [] & Hparse & Hrest). rewrite Hrest.
  rewrite (proj1 (check_principal_points_spec s1)). clear Hrest Hload.
  unfold parse_calibration_file in Hparse. rewrite Hxml, Htxt in Hparse.
  do 4 (rewrite bind_assign in Hparse; cbv beta in Hparse).
  rewrite bind_unfold in Hparse.
  match type of Hparse with context [read_values lines 0 ?e ?t ?s0] =>
    pose proof (read_values_spec lines 0 e t s0) as Hframe; cbv zeta in Hframe;
    pose proof (read_values_contents lines 0 e t s0) as Hcont;
    destruct (read_values lines 0 e t s0) as [s2 [[[n e'] t']| | | |]] eqn:Hread
  end; try discriminate Hparse.
  cbn [fst snd] in Hframe. destruct Hframe as (Hce & Hte & _ & _ & _ & Hn).
  specialize (Hn n e' t' eq_refl). cbn [Nat.add] in Hn.
  destruct (Hcont s2 n e' t' eq_refl eq_refl eq_refl eq_refl) as (Hci & He & Ht).
  clear Hcont Hread.
  rewrite bind_unfold in Hparse. unfold test_for_exception in Hparse.
  assert (Hcount : n = 22%nat \/ n = 28%nat).
  { destruct (Nat.eqb_spec n 22); [auto|]. destruct (Nat.eqb_spec n 28); [auto|].
    discriminate Hparse. }
  assert (Hv : forall i, (i < 6)%nat -> vget e' i = txt_value lines (16 + i)).
  { intros i Hi. unfold vget. rewrite (He i Hi). unfold value_from, txt_value.
    rewrite <- Hn. split_conditions; try lia. rewrite Nat.sub_0_r. reflexivity. }
  assert (Hpose : convert_CB_angles_to_T (vget e' 0) (vget e' 1) (vget e' 2)
                    (vget e' 3) (vget e' 4) (vget e' 5) = txt_pose lines 16).
  { rewrite !Hv by lia. reflexivity. }
  rewrite Hpose in Hparse.
  split; [rewrite <- Hn; exact Hcount|].
  assert (Hintr : forall c j, (c < 2)%nat -> (j < 8)%nat ->
            at2 (cal_intrinsics_ (self s2)) c j = txt_value lines (8 * c + j)).
  { intros c j Hc Hj. rewrite (Hci c j Hc Hj). unfold value_from, txt_value.
    rewrite <- Hn. split_conditions; try lia. rewrite Nat.sub_0_r. reflexivity. }
  assert (Hshape_ce : map (@length R) (cal_extrinsics_ (self s2)) = [4; 4; 4; 4]%nat)
    by (rewrite Hce; reflexivity).
  assert (Hshape_te : map (@length R) (trans_extrinsics_ (self s2)) = [4; 4; 4; 4]%nat)
    by (rewrite Hte; reflexivity).
  replace (negb (n =? 22)%nat && negb (n =? 28)%nat) with false in Hparse
    by (destruct Hcount as [-> | ->]; reflexivity).
  cbn [ret] in Hparse. rewrite bind_assign in Hparse. cbv beta in Hparse.
  destruct (Nat.eqb_spec n 28) as [E28|E28].
  - assert (Hw : forall i, (i < 6)%nat -> vget t' i = txt_value lines (22 + i)).
    { intros i Hi. unfold vget. rewrite (Ht i Hi). unfold value_from, txt_value.
      rewrite <- Hn. split_conditions; try lia. rewrite Nat.sub_0_r. reflexivity. }
    assert (Hpose' : convert_CB_angles_to_T (vget t' 0) (vget t' 1) (vget t' 2)
                       (vget t' 3) (vget t' 4) (vget t' 5) = txt_pose lines 22).
    { rewrite !Hw by lia. reflexivity. }
    rewrite invert_transform_pose in Hparse. rewrite Hpose' in Hparse.
    rewrite bind_unfold in Hparse. unfold lift, assign in Hparse.
    injection Hparse as <-.
    cbn [self upd_self cal_intrinsics_ cal_extrinsics_ trans_extrinsics_
         with_cal_extrinsics_ with_trans_extrinsics_ intr].
    unfold intr.
    cbn [self upd_self cal_intrinsics_ cal_extrinsics_ trans_extrinsics_
         with_cal_extrinsics_ with_trans_extrinsics_].
    split; [exact Hintr|]. split.
    + apply store_rows; [reflexivity|reflexivity|exact Hshape_ce].
    + intros _. apply store_rows; [reflexivity|reflexivity|exact Hshape_te].
  - cbn [ret] in Hparse. injection Hparse as <-.
    unfold intr.
    cbn [self upd_self cal_intrinsics_ cal_extrinsics_ trans_extrinsics_
         with_cal_extrinsics_ with_trans_extrinsics_].
    split; [exact Hintr|]. split.
    + apply store_rows; [reflexivity|reflexivity|exact Hshape_ce].
    + intros H28. lia.
Qed.

End TxtLoaded.

Section XmlContents.
Context {lapack : LAPACK} {collaborators : Collaborators}.

(** The xml loop on two camera records leaves tokens 2 to 9 of each record
    in the row of its camera. *)
Lemma read_two_cameras_intrinsics (l0 l1 : list string) (s s' : State)
    (Ts : list SerialDenseMatrix) :
  is_camera_line l0 = true -> is_camera_line l1 = true ->
  cal_intrinsics_ (self s) = zeros2 2 8 ->
  read_cameras [l0; l1] 0 (zeros2 2 6) [sdm_zero 4 4; sdm_zero 4 4] s = (s', Normal Ts) ->
  cal_intrinsics_ (self s') =
    [ map (fun j => strtod (token l0 (2 + j))) (seq 0 8);
      map (fun j => strtod (token l1 (2 + j))) (seq 0 8) ].
Proof.
  unfold is_camera_line. intros H0 H1 Hci.
  apply andb_prop in H0. destruct H0 as [H0 H0'].
  apply andb_prop in H1. destruct H1 as [H1 H1'].
  apply negb_true_iff in H0. apply negb_true_iff in H1.
  cbn [read_cameras]. rewrite H0, H0', H1, H1'. cbn [negb].
  change (0 <? 2)%nat with true. change (1 <? 2)%nat with true.
  unfold bind, assert_, assign, ret.
  destruct (17 <? length l0)%nat; [|discriminate].
  destruct (17 <? length l1)%nat; [|discriminate].
  intros H. injection H as <- _.
  cbn [self upd_self cal_intrinsics_ with_cal_intrinsics_]. rewrite Hci. reflexivity.
Qed.

(** X11.  After a successful load of an xml calibration file with two camera
    records, the intrinsics of camera [c] are the numbers in tokens 2 to 9
    of its record, in that order, and the camera 0 to world transform is the
    rigid inverse of the pose of camera 0. *)
Theorem load_xml_stores_intrinsics (param_file_name : string)
    (lines : list (list string)) (l0 l1 : list string) (s : State) :
  string_contains "xml" param_file_name = true ->
  camera_records lines = [l0; l1] ->
  snd (load_calibration_parameters param_file_name (Some lines) s) = Normal tt ->
  let t := self (fst (load_calibration_parameters param_file_name (Some lines) s)) in
  (forall j, (j < 8)%nat -> intr t 0 j = strtod (token l0 (2 + j))) /\
  (forall j, (j < 8)%nat -> intr t 1 j = strtod (token l1 (2 + j))) /\
  trans_extrinsics_ t = rows_of (values (rigid_inverse_of (record_pose l0))).
Proof.
  intros Hxml Hrec Hload.
  assert (Hc0 : is_camera_line l0 = true).
  { apply (proj2 (proj1 (filter_In is_camera_line l0 lines)
                        ltac:(fold (camera_records lines); rewrite Hrec; left; reflexivity))). }
  assert (Hc1 : is_camera_line l1 = true).
  { apply (proj2 (proj1 (filter_In is_camera_line l1 lines)
                        ltac:(fold (camera_records lines); rewrite Hrec; right; left;
                              reflexivity))). }
  unfold load_calibration_parameters in *.
  apply bind_normal in Hload. destruct Hload as (s1 & [] & Hparse & Hrest).
  rewrite Hrest. cbv zeta.
  rewrite (proj1 (check_principal_points_spec s1)).
  clear Hrest.
  unfold parse_calibration_file in Hparse. rewrite Hxml in Hparse.
  do 3 (rewrite bind_assign in Hparse; cbv beta in Hparse).
  match type of Hparse with
  | bind (read_cameras lines 0 ?o ?Ts) ?k ?s0 = _ =>
      rewrite bind_unfold, read_cameras_records, Hrec in Hparse;
      pose proof (read_two_cameras l0 l1 s0 Hc0 Hc1) as Hrc; cbv zeta in Hrc;
      pose proof (read_two_cameras_intrinsics l0 l1 s0) as Hci;
      destruct (read_cameras [l0; l1] 0 o Ts s0) as [s3 o3] eqn:Erc
  end.
  cbn [fst snd] in Hrc. destruct Hrc as (Hce & Hte & HTs).
  destruct o3 as [Ts| | | |]; try discriminate.
  specialize (Hci s3 Ts Hc0 Hc1 eq_refl eq_refl).
  rewrite (HTs Ts eq_refl) in Hparse. clear HTs Erc.
  cbn [nth] in Hparse.
  rewrite bind_unfold in Hparse. unfold lift in Hparse.
  unfold record_pose in Hparse at 1. rewrite invert_transform_pose in Hparse.
  fold (record_pose l0) in Hparse.
  cbv beta iota zeta in Hparse. cbn [vset nth] in Hparse.
  rewrite bind_assign in Hparse. cbv beta in Hparse. unfold assign in Hparse.
  cbn [ret] in Hparse. injection Hparse as <-.
  unfold intr.
  cbn [self upd_self cal_intrinsics_ trans_extrinsics_ cal_extrinsics_
       with_trans_extrinsics_ with_cal_extrinsics_].
  rewrite Hci. split; [|split].
  - intros j Hj. do 8 (destruct j as [|j]; [reflexivity|]). lia.
  - intros j Hj. do 8 (destruct j as [|j]; [reflexivity|]). lia.
  - apply store_rows; [reflexivity|reflexivity|]. rewrite Hte. reflexivity.
Qed.

End XmlContents.

(** ** A load replaces the whole calibration *)

Lemma calibration_only_ret {A : Type} (x : A) : calibration_only (ret x).
Proof. intros a b H. split; [reflexivity|exact H]. Qed.

Lemma calibration_only_throw {A : Type} (e : runtime_error) :
  calibration_only (@throw A e).
Proof. intros a b H. split; [reflexivity|exact H]. Qed.

Lemma calibration_only_lift {A : Type} (o : outcome A) : calibration_only (lift o).
Proof. intros a b H. split; [reflexivity|exact H]. Qed.

Lemma calibration_only_assert (c : bool) (x : assertion) : calibration_only (assert_ c x).
Proof. intros a b H. unfold assert_. destruct c; split; try reflexivity; exact H. Qed.

Lemma calibration_only_in_range (c : bool) : calibration_only (in_range c).
Proof. intros a b H. unfold in_range. destruct c; split; try reflexivity; exact H. Qed.

Lemma calibration_only_test (c : bool) (e : runtime_error) :
  calibration_only (test_for_exception c e).
Proof.
  intros a b H. unfold test_for_exception. destruct c; split; try reflexivity; exact H.
Qed.

Lemma calibration_only_bind {A B : Type} (m : prog A) (k : A -> prog B) :
  calibration_only m -> (forall x, calibration_only (k x)) ->
  calibration_only (bind m k).
Proof.
  intros Hm Hk a b H. rewrite !bind_unfold.
  destruct (Hm a b H) as [Ho Hs].
  destruct (m a) as [a' oa]; destruct (m b) as [b' ob]. cbn [fst snd] in *. subst ob.
  destruct oa as [x| | | |]; try (split; [reflexivity|exact Hs]).
  apply Hk. exact Hs.
Qed.

Lemma calibration_only_intrinsics (f : list (list R) -> list (list R)) :
  calibration_only (assign (upd_self (fun t =>
    with_cal_intrinsics_ (f (cal_intrinsics_ t)) t))).
Proof.
  intros a b (H1 & H2 & H3). split; [reflexivity|].
  unfold same_calibration. cbn. rewrite H1. auto.
Qed.

Lemma calibration_only_extrinsics (f : list (list R) -> list (list R)) :
  calibration_only (assign (upd_self (fun t =>
    with_cal_extrinsics_ (f (cal_extrinsics_ t)) t))).
Proof.
  intros a b (H1 & H2 & H3). split; [reflexivity|].
  unfold same_calibration. cbn. rewrite H2. auto.
Qed.

Lemma calibration_only_trans (f : list (list R) -> list (list R)) :
  calibration_only (assign (upd_self (fun t =>
    with_trans_extrinsics_ (f (trans_extrinsics_ t)) t))).
Proof.
  intros a b (H1 & H2 & H3). split; [reflexivity|].
  unfold same_calibration. cbn. rewrite H3. auto.
Qed.


Lemma calibration_write_pure {A : Type} (m : prog A) :
  (forall s, fst (m s) = s) -> calibration_write m.
Proof. intros H s. rewrite H. auto. Qed.

Lemma calibration_write_bind {A B : Type} (m : prog A) (k : A -> prog B) :
  calibration_write m -> (forall x, calibration_write (k x)) ->
  calibration_write (bind m k).
Proof.
  intros Hm Hk s. rewrite bind_unfold. specialize (Hm s).
  destruct (m s) as [s' [x| | | |]]; cbn [fst] in *; try exact Hm.
  destruct (Hk x s') as (H1 & H2 & H3). destruct Hm as (H4 & H5 & H6).
  repeat split; congruence.
Qed.

Lemma calibration_write_assign (f : Triangulation -> Triangulation) :
  (forall t, projectives_ (f t) = projectives_ t) ->
  calibration_write (assign (upd_self f)).
Proof. intros H s. cbn. rewrite H. auto. Qed.

Lemma calibration_write_if {A : Type} (c : bool) (m1 m2 : prog A) :
  calibration_write m1 -> calibration_write m2 ->
  calibration_write (if c then m1 else m2).
Proof. destruct c; auto. Qed.

Ltac calibration_write_step :=
  first [ apply calibration_write_bind; [|intro]
        | apply calibration_write_assign; intros; reflexivity
        | apply calibration_write_pure; intros;
          first [ reflexivity
                | unfold assert_, in_range, test_for_exception, throw, ret, undefined;
                  match goal with |- context [if ?c then _ else _] => destruct c end;
                  reflexivity ]
        | apply calibration_write_if ].

Section Reload.
Context {lapack : LAPACK} {collaborators : Collaborators}.

Lemma calibration_only_read_values (lines : list (list string)) :
  forall num_values extrinsics trans_extrinsics,
  calibration_only (read_values lines num_values extrinsics trans_extrinsics).
Proof.
  induction lines as [|tokens rest IH]; intros num_values extrinsics trans_extrinsics.
  - apply calibration_only_ret.
  - cbn [read_values].
    destruct (length tokens =? 0)%nat; [apply IH|].
    destruct (String.eqb (token tokens 0) "#"); [apply IH|].
    apply calibration_only_bind.
    { destruct (1 <? length tokens)%nat;
        [apply calibration_only_assert|apply calibration_only_ret]. }
    intros _. cbv zeta.
    destruct (num_values <? 16)%nat.
    { apply calibration_only_bind; [|intros _; apply IH].
      apply (calibration_only_intrinsics (set2 _ _ _)). }
    destruct (num_values <? 22)%nat; [apply IH|].
    apply calibration_only_bind; [apply calibration_only_in_range|intros _; apply IH].
Qed.

Lemma calibration_only_read_cameras (lines : list (list string)) :
  forall camera_index cam_orientation vec_of_Ts,
  calibration_only (read_cameras lines camera_index cam_orientation vec_of_Ts).
Proof.
  induction lines as [|tokens rest IH]; intros camera_index cam_orientation vec_of_Ts.
  - apply calibration_only_ret.
  - cbn [read_cameras].
    destruct (length tokens =? 0)%nat; [apply IH|].
    destruct (negb (String.eqb (token tokens 0) "CAMERA")); [apply IH|].
    apply calibration_only_bind; [apply calibration_only_assert|intros _].
    apply calibration_only_bind; [apply calibration_only_assert|intros _].
    apply calibration_only_bind; [|intros _; apply IH].
    apply (calibration_only_intrinsics (loop 2 10 _)).
Qed.

Lemma calibration_only_check : calibration_only check_principal_points.
Proof.
  intros a b H. unfold check_principal_points.
  rewrite !bind_get. pose proof H as (H1 & H2 & H3). rewrite H1.
  match goal with |- snd (?p a) = snd (?p b) /\ _ =>
    assert (Hp : calibration_only p) end.
  { apply calibration_only_bind; [apply calibration_only_test|intros _].
    apply calibration_only_bind; [apply calibration_only_test|intros _].
    apply calibration_only_bind; [apply calibration_only_test|intros _].
    apply calibration_only_test. }
  apply Hp. exact H.
Qed.

Lemma calibration_write_read_values (lines : list (list string)) :
  forall num_values extrinsics trans_extrinsics,
  calibration_write (read_values lines num_values extrinsics trans_extrinsics).
Proof.
  induction lines as [|tokens rest IH]; intros num_values extrinsics trans_extrinsics.
  - apply calibration_write_pure. reflexivity.
  - cbn [read_values].
    destruct (length tokens =? 0)%nat; [apply IH|].
    destruct (String.eqb (token tokens 0) "#"); [apply IH|].
    cbv zeta. repeat calibration_write_step; apply IH.
Qed.

Lemma calibration_write_read_cameras (lines : list (list string)) :
  forall camera_index cam_orientation vec_of_Ts,
  calibration_write (read_cameras lines camera_index cam_orientation vec_of_Ts).
Proof.
  induction lines as [|tokens rest IH]; intros camera_index cam_orientation vec_of_Ts.
  - apply calibration_write_pure. reflexivity.
  - cbn [read_cameras].
    destruct (length tokens =? 0)%nat; [apply IH|].
    destruct (negb (String.eqb (token tokens 0) "CAMERA")); [apply IH|].
    cbv zeta. repeat calibration_write_step; apply IH.
Qed.

Lemma calibration_write_load (param_file_name : string)
    (dataFile : option (list (list string))) :
  calibration_write (load_calibration_parameters param_file_name dataFile).
Proof.
  unfold load_calibration_parameters, parse_calibration_file, check_principal_points.
  destruct dataFile as [lines|].
  2:{ repeat calibration_write_step. }
  repeat calibration_write_step;
    try apply calibration_write_read_cameras;
    try apply calibration_write_read_values.
  all: try (match goal with x : (nat * list R * list R)%type |- _ =>
              destruct x as [[n e] t] end; repeat calibration_write_step).
Qed.

(** X12.  Loading a file that can be opened ends the same way and leaves the same
    three member vectors whatever the object held before: nothing of the
    calibration loaded earlier is read or kept.  The coefficients of the
    projective transform and the static buffers are not touched. *)
Theorem load_replaces_calibration (param_file_name : string)
    (lines : list (list string)) (s1 s2 : State) :
  let r1 := load_calibration_parameters param_file_name (Some lines) s1 in
  let r2 := load_calibration_parameters param_file_name (Some lines) s2 in
  snd r1 = snd r2 /\ same_calibration (fst r1) (fst r2) /\
  projectives_ (self (fst r1)) = projectives_ (self s1) /\
  tri (fst r1) = tri s1 /\ rad (fst r1) = rad s1.
Proof.
  cbv zeta.
  assert (Hsame : forall a b,
    snd (load_calibration_parameters param_file_name (Some lines) a) =
    snd (load_calibration_parameters param_file_name (Some lines) b) /\
    same_calibration (fst (load_calibration_parameters param_file_name (Some lines) a))
                     (fst (load_calibration_parameters param_file_name (Some lines) b))).
  { intros a b. unfold load_calibration_parameters, parse_calibration_file.
    do 3 (rewrite !(bind_bind (assign _)); rewrite !bind_assign; cbv beta).
    match goal with |- context [bind ?m ?k (upd_self ?f3 (upd_self ?f2 (upd_self ?f1 a)))] =>
      apply (calibration_only_bind m k); [|intros _; apply calibration_only_check
                                          |repeat split; reflexivity]
    end.
    destruct (string_contains "xml" param_file_name).
    - apply calibration_only_bind; [apply calibration_only_read_cameras|intros Ts].
      apply calibration_only_bind; [apply calibration_only_lift|intros T0]. cbv zeta.
      apply calibration_only_bind; [|intros _].
      + apply (calibration_only_trans (loop 0 4 _)).
      + apply (calibration_only_extrinsics (loop 0 4 _)).
    - destruct (string_contains "txt" param_file_name);
        [|apply calibration_only_throw].
      apply calibration_only_bind; [|intros _].
      { apply (calibration_only_trans (loop 0 4 _)). }
      apply calibration_only_bind; [apply calibration_only_read_values|].
      intros [[n e] t].
      apply calibration_only_bind; [apply calibration_only_test|intros _].
      apply calibration_only_bind; [|intros _].
      { apply (calibration_only_extrinsics (loop 0 4 _)). }
      destruct (n =? 28)%nat; [|apply calibration_only_ret].
      apply calibration_only_bind; [apply calibration_only_lift|intros T].
      apply (calibration_only_trans (loop 0 4 _)). }
  split; [apply Hsame|]. split; [apply Hsame|].
  apply calibration_write_load.
Qed.

End Reload.

(** ** More on the radial correction *)

(** X13.  The correction is radial: the offsets of a sensor point from the
    principal point are both scaled by the same [1 - factor], so the
    corrected point stays on the line through the principal point, and the
    principal point itself is not moved, whatever the coefficients. *)
Theorem correct_radial_scales_offsets (s : State) (camera_id : nat) (x_s y_s : R) :
  inside2 (cal_intrinsics_ (self s)) camera_id 7 = true ->
  ci s camera_id 0 <> 0 -> ci s camera_id 1 <> 0 ->
  exists x y factor,
    snd (correct_lens_distortion_radial x_s y_s camera_id s) = Normal (x, y) /\
    x - ci s camera_id 0 = (1 - factor) * (x_s - ci s camera_id 0) /\
    y - ci s camera_id 1 = (1 - factor) * (y_s - ci s camera_id 1) /\
    (x_s = ci s camera_id 0 -> y_s = ci s camera_id 1 -> x = x_s /\ y = y_s).
Proof.
  intros Hin Hcx Hcy.
  rewrite (correct_lens_distortion_radial_runs s camera_id x_s y_s Hin). cbv zeta.
  cbn [snd].
  set (r1 := (x_s - ci s camera_id 0) / ci s camera_id 0).
  set (r2 := (y_s - ci s camera_id 1) / ci s camera_id 1).
  set (rho := r1 * r1 + r2 * r2).
  set (factor := ci s camera_id 5 * rho + ci s camera_id 6 * rho * rho
                 + ci s camera_id 7 * rho * rho * rho).
  exists (x_s - factor * r1 * ci s camera_id 0), (y_s - factor * r2 * ci s camera_id 1),
         factor.
  split; [reflexivity|].
  assert (E1 : r1 * ci s camera_id 0 = x_s - ci s camera_id 0)
    by (unfold r1; field; exact Hcx).
  assert (E2 : r2 * ci s camera_id 1 = y_s - ci s camera_id 1)
    by (unfold r2; field; exact Hcy).
  clearbody factor.
  split; [rewrite Rmult_assoc, E1; ring|]. split; [rewrite Rmult_assoc, E2; ring|].
  intros Hx Hy. rewrite !Rmult_assoc, E1, E2, Hx, Hy. split; ring.
Qed.

(** ** The projection as a pinhole camera *)

(** X14.  [project_camera_0_to_sensor_1] takes the point into the frame of camera
    1 with the camera 0 to camera 1 transform and applies the pinhole model
    with the intrinsics of camera 1: with (X, Y, Z) the transformed point,
    xs = fx X/Z + fs Y/Z + cx and ys = fy Y/Z + cy.  It stops at the first
    [assert] exactly when Z is zero, and changes nothing in the object. *)
Theorem project_camera_0_to_sensor_1_is_pinhole (s : State) (xc yc zc : R) :
  inside2 (cal_intrinsics_ (self s)) 1 4 && rows_inside (cal_extrinsics_ (self s)) = true ->
  let X := ce s 0 0 * xc + ce s 0 1 * yc + ce s 0 2 * zc + ce s 0 3 in
  let Y := ce s 1 0 * xc + ce s 1 1 * yc + ce s 1 2 * zc + ce s 1 3 in
  let Z := ce s 2 0 * xc + ce s 2 1 * yc + ce s 2 2 * zc + ce s 2 3 in
  (Z <> 0 ->
   project_camera_0_to_sensor_1 xc yc zc s =
     (s, Normal (ci s 1 2 * X / Z + ci s 1 4 * Y / Z + ci s 1 0,
                 ci s 1 3 * Y / Z + ci s 1 1))) /\
  (Z = 0 ->
   project_camera_0_to_sensor_1 xc yc zc s = (s, AssertFails Assert_psi2_nonzero)).
Proof.
  intros Hin X Y Z. unfold project_camera_0_to_sensor_1.
  rewrite bind_get, Hin. cbn [in_range]. rewrite bind_ret. split.
  - intros HZ. rewrite perspective_divide_runs by exact HZ.
    rewrite projection_matrix_row_0, projection_matrix_row_1.
    fold (ce s 0 0) (ce s 0 1) (ce s 0 2) (ce s 0 3)
         (ce s 1 0) (ce s 1 1) (ce s 1 2) (ce s 1 3).
    fold X Y. change (depth_term (cal_extrinsics_ (self s)) xc yc zc) with Z.
    f_equal. f_equal. f_equal; field; exact HZ.
  - intros HZ. unfold perspective_divide.
    change (depth_term (cal_extrinsics_ (self s)) xc yc zc) with Z.
    rewrite bind_unfold. unfold assert_. rewrite (Reqb_true _ _ HZ). reflexivity.
Qed.

(** ** Triangulation on a loaded calibration *)

Section TriangulateMore.
Context {lapack : LAPACK} {collaborators : Collaborators}.

(** X15.  With the flag set, [triangulate] is [triangulate] without the flag on
    the coordinates that [correct_lens_distortion_radial] gives for camera 0
    and for camera 1. *)
Theorem triangulate_corrects_then_solves (s : State) (x0 y0 x1 y1 : R) (c0 c1 : R * R) :
  Tri_shaped (tri s) ->
  snd (correct_lens_distortion_radial x0 y0 0 s) = Normal c0 ->
  snd (correct_lens_distortion_radial x1 y1 1 s) = Normal c1 ->
  snd (triangulate x0 y0 x1 y1 true s) =
  snd (triangulate (fst c0) (snd c0) (fst c1) (snd c1) false s).
Proof.
  intros Hshape H0 H1.
  destruct (triangulate_spec s x0 y0 x1 y1 true Hshape) as (s' & E & _).
  destruct (triangulate_spec s (fst c0) (snd c0) (fst c1) (snd c1) false Hshape)
    as (s'' & E' & _).
  rewrite E, E'. cbn [snd triangulate_outcome].
  destruct (correct_lens_distortion_radial_spec s x0 y0 0) as (t0 & E0 & _).
  destruct (correct_lens_distortion_radial_spec s x1 y1 1) as (t1 & E1 & _).
  rewrite E0 in H0. rewrite E1 in H1. cbn [snd] in H0, H1.
  rewrite H0, H1. reflexivity.
Qed.

Lemma triangulate_returns (s : State) (x0 y0 x1 y1 : R) (correct_lens_distortion : bool) :
  Tri_shaped (tri s) -> shaped_calibration (self s) ->
  exists out, snd (triangulate x0 y0 x1 y1 correct_lens_distortion s) = Normal out.
Proof.
  intros Hshape Hsh.
  destruct (triangulate_spec s x0 y0 x1 y1 correct_lens_distortion Hshape)
    as (s' & E & _).
  rewrite E. cbn [snd].
  destruct (shaped_calibration_inside (self s) Hsh) as (Hin & H07 & H17 & _).
  assert (Hsolve : forall a b c d, exists out,
            solve_outcome (self s) a b c d = Normal out).
  { intros a b c d. unfold solve_outcome. rewrite Hin. cbv zeta.
    destruct (GETRF 3 3 _ 3) as [[F P] info].
    destruct (GETRI 3 F 3 P LWORK) as [[[B W] k]|] eqn:HI; [eexists; reflexivity|].
    exfalso. exact (GETRI_returns _ _ _ _ _ HI). }
  unfold triangulate_outcome. destruct correct_lens_distortion; [|apply Hsolve].
  unfold corrected. rewrite (inside2_nonempty _ _ _ H07), H07, H17.
  cbn [obind]. apply Hsolve.
Qed.

(** X16.  After a load that returned, [triangulate] returns six numbers for every
    four sensor coordinates, with or without the correction: it has no way
    of refusing an input. *)
Theorem triangulate_after_load_returns (param_file_name : string)
    (dataFile : option (list (list string))) (s : State)
    (x0 y0 x1 y1 : R) (correct_lens_distortion : bool) :
  Tri_shaped (tri s) ->
  snd (load_calibration_parameters param_file_name dataFile s) = Normal tt ->
  exists out,
    snd (triangulate x0 y0 x1 y1 correct_lens_distortion
           (fst (load_calibration_parameters param_file_name dataFile s))) = Normal out.
Proof.
  intros Hshape Hload.
  pose proof (loaded_calibration_shaped param_file_name dataFile s Hload) as Hsh.
  destruct (calibration_write_load param_file_name dataFile s) as (_ & Htri & _).
  apply triangulate_returns; [rewrite Htri; exact Hshape|exact Hsh].
Qed.

(** X17.  With the identity as camera 0 to world transform, which is what the
    loader leaves unless the file gives another, the world point that
    [triangulate] returns is the camera 0 point. *)
Theorem triangulate_world_is_camera_0 (s : State) (x0 y0 x1 y1 : R)
    (correct_lens_distortion : bool) (xc yc zc xw yw zw : R) :
  Tri_shaped (tri s) ->
  trans_extrinsics_ (self s) = identity_transform ->
  snd (triangulate x0 y0 x1 y1 correct_lens_distortion s) =
    Normal (xc, yc, zc, xw, yw, zw) ->
  xw = xc /\ yw = yc /\ zw = zc.
Proof.
  intros Hshape Hte Hrun.
  destruct (triangulate_spec s x0 y0 x1 y1 correct_lens_distortion Hshape)
    as (s' & E & _).
  rewrite E in Hrun. cbn [snd] in Hrun.
  assert (Hsolve : forall a b c d,
            solve_outcome (self s) a b c d = Normal (xc, yc, zc, xw, yw, zw) ->
            xw = xc /\ yw = yc /\ zw = zc).
  { intros a b c d. unfold solve_outcome.
    destruct (triangulate_indices_inside (self s)); [|discriminate].
    cbv zeta. destruct (GETRF 3 3 _ 3) as [[F P] info].
    destruct (GETRI 3 F 3 P LWORK) as [[[B W] k]|]; [|discriminate].
    unfold solution. cbv zeta. cbn [nth]. intros H. injection H as <- <- <- <- <- <-.
    unfold to_world. rewrite Hte.
    cbv -[IZR Rplus Rmult pseudo_solution]. repeat split; ring. }
  unfold triangulate_outcome in Hrun. destruct correct_lens_distortion.
  - destruct (corrected (self s) x0 y0 0) as [c0| | | |]; try discriminate Hrun.
    destruct (corrected (self s) x1 y1 1) as [c1| | | |]; try discriminate Hrun.
    cbn [obind] in Hrun. exact (Hsolve _ _ _ _ Hrun).
  - exact (Hsolve _ _ _ _ Hrun).
Qed.

End TriangulateMore.

(** ** The estimator: what it refuses and what it leaves alone *)

Section EstimateMore.
Context {lapack : LAPACK} {collaborators : Collaborators}.

Lemma count_coords_malformed (lines : list (list string)) :
  existsb is_malformed_point_line lines = true ->
  forall (num_coords : nat) (s : State),
  count_coords lines num_coords s = (s, Throws ProjectionLineNotFourValues).
Proof.
  induction lines as [|tokens rest IH]; intros H num_coords s; [discriminate H|].
  cbn [existsb] in H. unfold is_malformed_point_line in H at 1. cbn [count_coords].
  destruct (length tokens =? 0)%nat; cbn [negb andb orb] in H.
  - apply IH. exact H.
  - destruct (length tokens =? 4)%nat; cbn [negb orb test_for_exception] in *.
    + rewrite bind_ret. apply IH. exact H.
    + reflexivity.
Qed.

(** X19.  A correspondence file with a line that holds some fields but not four
    is refused with the error "should be 4 values per line", however many
    good points it holds and wherever the line is, and the object is left as
    it was. *)
Theorem estimate_refuses_malformed_line (left_img right_img : Image)
    (output_projected_image : bool) (lines : list (list string)) (s : State) :
  existsb is_malformed_point_line lines = true ->
  estimate_projective_transform left_img right_img output_projected_image (Some lines) s
    = (s, Throws ProjectionLineNotFourValues).
Proof.
  intros H.
  unfold estimate_projective_transform.
  rewrite bind_unfold, (count_coords_malformed lines H 0 s). reflexivity.
Qed.

Lemma for_each_state {X : Type} (l : list nat) (body : nat -> X -> prog X) :
  (forall i x s, fst (body i x s) = s) ->
  forall x s, fst (for_each l body x s) = s.
Proof.
  intros Hbody. induction l as [|i rest IH]; intros x s; [reflexivity|].
  cbn [for_each]. rewrite bind_unfold. specialize (Hbody i x s).
  destruct (body i x s) as [s1 [x'| | | |]]; cbn [fst] in *; subst s1;
    try reflexivity.
  apply IH.
Qed.

Lemma project_left_to_right_state (xl yl : R) (s : State) :
  fst (project_left_to_right_sensor_coords xl yl s) = s.
Proof.
  unfold project_left_to_right_sensor_coords. rewrite bind_get.
  destruct (projectives_ (self s)) as [p|]; [|reflexivity].
  unfold assert_ at 1. rewrite bind_unfold.
  destruct (length p =? 8)%nat; reflexivity.
Qed.

(** X20.  A call of the estimator that returns has written the coefficient vector
    in place and nothing else: the calibration and the static variables are
    as before, the vector has the length it had and holds the coefficients
    reported as optimized; if that length is 8, the left-to-right mapper
    returns on every point afterwards. *)
Theorem estimate_writes_coefficients_only (left_img right_img : Image)
    (output_projected_image : bool) (projDataFile : option (list (list string)))
    (s : State) (out : estimate_output) :
  snd (estimate_projective_transform left_img right_img output_projected_image
                                     projDataFile s) = Normal out ->
  let s' := fst (estimate_projective_transform left_img right_img output_projected_image
                                               projDataFile s) in
  same_calibration s' s /\ tri s' = tri s /\ rad s' = rad s /\
  projectives_ (self s') = Some (optimized_parameters out) /\
  (exists p, projectives_ (self s) = Some p /\
             length (optimized_parameters out) = length p) /\
  (length (optimized_parameters out) = 8%nat ->
   forall xl yl, exists xr yr,
     project_left_to_right_sensor_coords xl yl s' = (s', Normal (xr, yr))).
Proof.
  cbv zeta. unfold estimate_projective_transform.
  destruct projDataFile as [lines|]; [|discriminate].
  rewrite bind_unfold.
  pose proof (count_coords_state lines 0 s) as Hs1.
  destruct (count_coords lines 0 s) as [s1 [n| | | |]]; try discriminate.
  cbn [fst] in Hs1. subst s1.
  destruct (n <? 4)%nat; cbn [test_for_exception]; [discriminate|].
  rewrite bind_ret, bind_unfold.
  pose proof (read_coords_state lines 0
                (repeat 0 n, repeat 0 n, repeat 0 n, repeat 0 n) s) as Hs2.
  destruct (read_coords lines 0 _ s) as [s2 [[[[proj_xl proj_yl] proj_xr] proj_yr]| | | |]];
    try discriminate.
  cbn [fst] in Hs2. subst s2. cbv zeta.
  destruct (GETRF _ _ _ _) as [[LU IPIV] INFO].
  destruct (GETRI _ _ _ _ _) as [[[A WORK] INFO']|]; [|discriminate].
  rewrite bind_get.
  destruct (projectives_ (self s)) as [p|] eqn:Hp; [|discriminate].
  rewrite bind_unfold. unfold in_range.
  destruct (8 <=? _)%nat; [|discriminate]. cbn [ret].
  rewrite bind_assign.
  match goal with |- context [minimize ?l ?r ?q ?d] =>
    assert (Hq : length q = length p);
    [|destruct (minimize l r q d) as [[refined iterations] successful];
      set (p1 := q) in *]
  end.
  { apply (loop_invariant (fun v => length v = length p)).
    - intros i y Hy.
      apply (loop_invariant (fun v => length v = length p)); [|exact Hy].
      intros j z Hz. rewrite vset_length. exact Hz.
    - apply (loop_invariant (fun v => length v = length p)); [|reflexivity].
      intros i y Hy. rewrite vset_length. exact Hy. }
  clearbody p1. rewrite bind_assign.
  destruct successful; cbn [negb test_for_exception]; [|discriminate].
  rewrite bind_ret.
  set (s3 := upd_self (with_projectives_ (Some (write_buffer p1 refined)))
               (upd_self (with_projectives_ (Some p1)) s)).
  match goal with |- context [bind ?m ?k s3] =>
    assert (Hfst : fst (m s3) = s3); [|set (images_of := m) in *]
  end.
  { destruct output_projected_image; [|reflexivity].
    rewrite bind_unfold.
    match goal with |- context [for_each ?l ?b ?x s3] =>
      assert (Hfe : fst (for_each l b x s3) = s3);
      [|destruct (for_each l b x s3) as [s4 [a| | | |]]; exact Hfe]
    end.
    apply for_each_state. intros j x s0. apply for_each_state. intros i [d t] s5.
    rewrite bind_unfold.
    pose proof (project_left_to_right_state (INR i) (INR j) s5) as Hpr.
    destruct (project_left_to_right_sensor_coords (INR i) (INR j) s5)
      as [s6 [[xr yr]| | | |]]; cbn [fst] in *; exact Hpr. }
  clearbody images_of.
  rewrite bind_unfold.
  destruct (images_of s3) as [s4 [images| | | |]]; try discriminate.
  cbn [fst] in Hfst. subst s4. cbn [ret fst snd].
  intros Hout. injection Hout as <-. cbn [optimized_parameters].
  split; [repeat split; reflexivity|]. split; [reflexivity|]. split; [reflexivity|].
  split; [reflexivity|]. split.
  - exists p. split; [reflexivity|]. rewrite write_buffer_length. exact Hq.
  - intros H8 xl yl. unfold project_left_to_right_sensor_coords.
    rewrite bind_get. cbn [s3 self upd_self projectives_ with_projectives_].
    unfold assert_ at 1. rewrite bind_unfold.
    rewrite H8. cbn [Nat.eqb]. do 2 eexists. reflexivity.
Qed.

End EstimateMore.

(** ** Loops that fill and accumulate *)

Lemma loop_S {X : Type} (n : nat) (body : nat -> X -> X) (x : X) :
  loop 0 (S n) body x = body n (loop 0 n body x).
Proof.
  unfold loop. rewrite !Nat.sub_0_r, seq_S, fold_left_app. reflexivity.
Qed.

Lemma loop_0 {X : Type} (body : nat -> X -> X) (x : X) : loop 0 0 body x = x.
Proof. reflexivity. Qed.

Lemma sum_upto_ext (n : nat) (f g : nat -> R) :
  (forall i, (i < n)%nat -> f i = g i) -> sum_upto n f = sum_upto n g.
Proof.
  induction n as [|n IH]; intros H; [reflexivity|].
  cbn. rewrite IH by (intros i Hi; apply H; lia). rewrite H by lia. reflexivity.
Qed.

Lemma sum_upto_plus (n : nat) (f g : nat -> R) :
  sum_upto n (fun i => f i + g i) = sum_upto n f + sum_upto n g.
Proof. induction n as [|n IH]; cbn; [ring|rewrite IH; ring]. Qed.

Lemma sum_upto_scal (n : nat) (c : R) (f : nat -> R) :
  sum_upto n (fun i => f i * c) = sum_upto n f * c.
Proof. induction n as [|n IH]; cbn; [ring|rewrite IH; ring]. Qed.

Lemma sum_upto_pairs (n : nat) (f : nat -> R) :
  sum_upto (n * 2) f = sum_upto n (fun i => f (i * 2 + 0)%nat + f (i * 2 + 1)%nat).
Proof.
  induction n as [|n IH]; [reflexivity|].
  replace (S n * 2)%nat with (S (S (n * 2))) by lia. cbn [sum_upto]. rewrite IH.
  replace (n * 2 + 0)%nat with (n * 2)%nat by lia.
  replace (n * 2 + 1)%nat with (S (n * 2)) by lia. ring.
Qed.

Lemma sdm_zero_ok (nr nc : nat) : sdm_ok (sdm_zero nr nc) nr nc.
Proof. split; [reflexivity|]. cbn. apply repeat_length. Qed.

Lemma sdm_get_zero (nr nc i j : nat) : sdm_get (sdm_zero nr nc) i j = 0.
Proof.
  unfold sdm_get, sdm_zero. cbn [values numRows].
  destruct (Nat.lt_ge_cases (i + j * nr) (nr * nc)) as [H|H].
  - apply nth_repeat_lt. exact H.
  - apply nth_overflow. rewrite repeat_length. exact H.
Qed.

Lemma sdm_set_ok (i j : nat) (x : R) (A : SerialDenseMatrix) (nr nc : nat) :
  sdm_ok A nr nc -> sdm_ok (sdm_set i j x A) nr nc.
Proof.
  intros [H1 H2]. split; [exact H1|]. cbn [sdm_set values]. rewrite vset_length. exact H2.
Qed.

Lemma sdm_get_set (i j i' j' : nat) (x : R) (A : SerialDenseMatrix) (nr nc : nat) :
  sdm_ok A nr nc -> (i < nr)%nat -> (j < nc)%nat -> (i' < nr)%nat ->
  sdm_get (sdm_set i j x A) i' j' =
  if (i =? i')%nat && (j =? j')%nat then x else sdm_get A i' j'.
Proof.
  intros [H1 H2] Hi Hj Hi'. unfold sdm_get, sdm_set. cbn [values numRows].
  rewrite H1. rewrite nth_vset by (rewrite H2; nia).
  destruct (Nat.eqb_spec (i + j * nr) (i' + j' * nr)) as [E|E];
    destruct (Nat.eqb_spec i i') as [Ei|Ei]; destruct (Nat.eqb_spec j j') as [Ej|Ej];
    cbn [andb]; try reflexivity; exfalso; nia.
Qed.

Lemma sdm_get_set_column (i j i' j' : nat) (x : R) (A : SerialDenseMatrix) (nr nc : nat) :
  sdm_ok A nr nc -> (i < nr)%nat -> (j < nc)%nat -> (i' < nr)%nat -> j <> j' ->
  sdm_get (sdm_set i j x A) i' j' = sdm_get A i' j'.
Proof.
  intros Hok Hi Hj Hi' Hne. rewrite (sdm_get_set _ _ _ _ _ _ nr nc) by assumption.
  destruct (Nat.eqb_spec j j'); [contradiction|]. rewrite andb_false_r. reflexivity.
Qed.

Lemma sdm_get_set_row (i j i' : nat) (x : R) (A : SerialDenseMatrix) (nr nc : nat) :
  sdm_ok A nr nc -> (i < nr)%nat -> (j < nc)%nat -> (i' < nr)%nat ->
  sdm_get (sdm_set i j x A) i' j = if (i =? i')%nat then x else sdm_get A i' j.
Proof.
  intros Hok Hi Hj Hi'. rewrite (sdm_get_set _ _ _ _ _ _ nr nc) by assumption.
  rewrite Nat.eqb_refl, andb_true_r. reflexivity.
Qed.

Lemma sdm_add_ok (i j : nat) (x : R) (A : SerialDenseMatrix) (nr nc : nat) :
  sdm_ok A nr nc -> sdm_ok (sdm_add i j x A) nr nc.
Proof. apply sdm_set_ok. Qed.

Lemma sdm_get_add (i j i' j' : nat) (x : R) (A : SerialDenseMatrix) (nr nc : nat) :
  sdm_ok A nr nc -> (i < nr)%nat -> (j < nc)%nat -> (i' < nr)%nat ->
  sdm_get (sdm_add i j x A) i' j' =
  sdm_get A i' j' + if (i =? i')%nat && (j =? j')%nat then x else 0.
Proof.
  intros Hok Hi Hj Hi'. unfold sdm_add. rewrite (sdm_get_set _ _ _ _ _ _ nr nc) by assumption.
  destruct (Nat.eqb_spec i i') as [<-|Ei]; destruct (Nat.eqb_spec j j') as [<-|Ej];
    cbn [andb]; ring.
Qed.

(** The innermost loop of a product: one entry grows by a sum. *)
Lemma accumulate_entry (c : nat) (f : nat -> R) (k m : nat) (A : SerialDenseMatrix)
    (nr nc : nat) :
  sdm_ok A nr nc -> (k < nr)%nat -> (m < nc)%nat ->
  sdm_ok (loop 0 c (fun j => sdm_add k m (f j)) A) nr nc /\
  forall k' m', (k' < nr)%nat ->
    sdm_get (loop 0 c (fun j => sdm_add k m (f j)) A) k' m' =
    sdm_get A k' m' + if (k =? k')%nat && (m =? m')%nat then sum_upto c f else 0.
Proof.
  intros Hok Hk Hm. induction c as [|c [IH1 IH2]].
  - split; [exact Hok|]. intros k' m' Hk'. rewrite loop_0. cbn [sum_upto].
    destruct ((k =? k')%nat && (m =? m')%nat); ring.
  - rewrite loop_S. split; [apply sdm_add_ok; exact IH1|].
    intros k' m' Hk'. rewrite (sdm_get_add _ _ _ _ _ _ nr nc) by assumption.
    rewrite IH2 by exact Hk'. cbn [sum_upto].
    destruct ((k =? k')%nat && (m =? m')%nat); ring.
Qed.

(** The three loops of a product [C(k,m) += f j k m]. *)
Lemma accumulate_matrix (a b c : nat) (f : nat -> nat -> nat -> R)
    (A : SerialDenseMatrix) :
  sdm_ok A a b ->
  sdm_ok (loop 0 a (fun k => loop 0 b (fun m => loop 0 c (fun j =>
            sdm_add k m (f j k m)))) A) a b /\
  forall k' m', (k' < a)%nat -> (m' < b)%nat ->
    sdm_get (loop 0 a (fun k => loop 0 b (fun m => loop 0 c (fun j =>
               sdm_add k m (f j k m)))) A) k' m' =
    sdm_get A k' m' + sum_upto c (fun j => f j k' m').
Proof.
  intros Hok.
  assert (Hrow : forall k B b', (k < a)%nat -> (b' <= b)%nat -> sdm_ok B a b ->
            sdm_ok (loop 0 b' (fun m => loop 0 c (fun j => sdm_add k m (f j k m))) B) a b /\
            forall k' m', (k' < a)%nat ->
              sdm_get (loop 0 b' (fun m => loop 0 c (fun j => sdm_add k m (f j k m))) B)
                      k' m' =
              sdm_get B k' m' + if (k =? k')%nat && (m' <? b')%nat
                                then sum_upto c (fun j => f j k m') else 0).
  { intros k B b' Hk. induction b' as [|b' IHb]; intros Hb HB.
    - split; [exact HB|]. intros k' m' Hk'. rewrite loop_0.
      split_conditions; try lia; ring.
    - destruct (IHb ltac:(lia) HB) as [I1 I2]. rewrite loop_S.
      destruct (accumulate_entry c (fun j => f j k b') k b' _ a b I1 Hk ltac:(lia))
        as [J1 J2].
      split; [exact J1|]. intros k' m' Hk'. rewrite J2, I2 by exact Hk'.
      split_conditions; subst; try lia; ring. }
  assert (Hall : forall a', (a' <= a)%nat ->
            sdm_ok (loop 0 a' (fun k => loop 0 b (fun m => loop 0 c (fun j =>
                      sdm_add k m (f j k m)))) A) a b /\
            forall k' m', (k' < a)%nat -> (m' < b)%nat ->
              sdm_get (loop 0 a' (fun k => loop 0 b (fun m => loop 0 c (fun j =>
                         sdm_add k m (f j k m)))) A) k' m' =
              sdm_get A k' m' + if (k' <? a')%nat
                                then sum_upto c (fun j => f j k' m') else 0).
  { induction a' as [|a' IHa]; intros Ha.
    - split; [exact Hok|]. intros k' m' Hk' Hm'. rewrite loop_0. cbn. ring.
    - destruct (IHa ltac:(lia)) as [I1 I2]. rewrite loop_S.
      destruct (Hrow a' _ b ltac:(lia) (Nat.le_refl b) I1) as [J1 J2].
      split; [exact J1|]. intros k' m' Hk' Hm'. rewrite J2, I2 by assumption.
      split_conditions; subst; try lia; ring. }
  destruct (Hall a (Nat.le_refl a)) as [H1 H2]. split; [exact H1|].
  intros k' m' Hk' Hm'. rewrite H2 by assumption.
  destruct (Nat.ltb_spec k' a); [reflexivity|lia].
Qed.

(** The same for a vector: [v[i] += f j i]. *)
Lemma accumulate_vector (a c : nat) (f : nat -> nat -> R) (v : list R) :
  (a <= length v)%nat ->
  length (loop 0 a (fun i => loop 0 c (fun j w => vset i (vget w i + f j i) w)) v)
    = length v /\
  forall i', (i' < a)%nat ->
    nth i' (loop 0 a (fun i => loop 0 c (fun j w => vset i (vget w i + f j i) w)) v) 0 =
    nth i' v 0 + sum_upto c (fun j => f j i').
Proof.
  intros Hlen.
  assert (Hone : forall i w c', (i < length w)%nat ->
            length (loop 0 c' (fun j w => vset i (vget w i + f j i) w) w) = length w /\
            forall i',
              nth i' (loop 0 c' (fun j w => vset i (vget w i + f j i) w) w) 0 =
              nth i' w 0 + if (i =? i')%nat then sum_upto c' (fun j => f j i) else 0).
  { intros i w c' Hi. induction c' as [|c' [I1 I2]].
    - split; [reflexivity|]. intros i'. rewrite loop_0. cbn [sum_upto].
      destruct (i =? i')%nat; ring.
    - rewrite loop_S. split; [rewrite vset_length; exact I1|].
      intros i'. rewrite nth_vset by (rewrite I1; exact Hi). unfold vget.
      rewrite !I2. cbn [sum_upto].
      split_conditions; subst; try lia; ring. }
  assert (Hall : forall a', (a' <= a)%nat ->
            length (loop 0 a' (fun i => loop 0 c (fun j w => vset i (vget w i + f j i) w)) v)
              = length v /\
            forall i',
              nth i' (loop 0 a' (fun i => loop 0 c (fun j w =>
                        vset i (vget w i + f j i) w)) v) 0 =
              nth i' v 0 + if (i' <? a')%nat then sum_upto c (fun j => f j i') else 0).
  { induction a' as [|a' IHa]; intros Ha.
    - split; [reflexivity|]. intros i'. rewrite loop_0. cbn. ring.
    - destruct (IHa ltac:(lia)) as [I1 I2]. rewrite loop_S.
      destruct (Hone a' (loop 0 a' (fun i => loop 0 c (fun j w =>
                   vset i (vget w i + f j i) w)) v) c ltac:(rewrite I1; lia)) as [J1 J2].
      split; [rewrite J1; exact I1|]. intros i'. rewrite J2, I2.
      split_conditions; subst; try lia; ring. }
  destruct (Hall a (Nat.le_refl a)) as [H1 H2]. split; [exact H1|].
  intros i' Hi'. rewrite H2. destruct (Nat.ltb_spec i' a); [reflexivity|lia].
Qed.

(** ** The linear system of the estimator *)

Ltac sdm_side :=
  first [ lia | assumption | repeat apply sdm_set_ok; assumption ].

Lemma dlt_K_entries (xl yl xr yr : list R) (n : nat) :
  sdm_ok (dlt_K xl yl xr yr n) (n * 2) 8 /\
  numCols (dlt_K xl yl xr yr n) = 8%nat /\
  forall i c, (i < n)%nat -> (c < 8)%nat ->
    sdm_get (dlt_K xl yl xr yr n) (i * 2 + 0) c =
      nth c (dlt_row (vget xl i) (vget yl i) (vget xr i) (vget yr i) false) 0 /\
    sdm_get (dlt_K xl yl xr yr n) (i * 2 + 1) c =
      nth c (dlt_row (vget xl i) (vget yl i) (vget xr i) (vget yr i) true) 0.
Proof.
  unfold dlt_K.
  match goal with |- context [loop 0 n ?b ?z] => set (body := b); set (Z0 := z) end.
  assert (H : forall m, (m <= n)%nat ->
            sdm_ok (loop 0 m body Z0) (n * 2) 8 /\
            numCols (loop 0 m body Z0) = 8%nat /\
            forall i c, (i < n)%nat -> (c < 8)%nat ->
              sdm_get (loop 0 m body Z0) (i * 2 + 0) c =
                (if (i <? m)%nat
                 then nth c (dlt_row (vget xl i) (vget yl i) (vget xr i) (vget yr i) false) 0
                 else 0) /\
              sdm_get (loop 0 m body Z0) (i * 2 + 1) c =
                (if (i <? m)%nat
                 then nth c (dlt_row (vget xl i) (vget yl i) (vget xr i) (vget yr i) true) 0
                 else 0)).
  { induction m as [|m IH]; intros Hm.
    - rewrite loop_0. split; [apply sdm_zero_ok|]. split; [reflexivity|].
      intros i c Hi Hc. unfold Z0. rewrite !sdm_get_zero. auto.
    - destruct (IH ltac:(lia)) as (Hok & Hnc & Hent). rewrite loop_S.
      set (A := loop 0 m body Z0) in *. clearbody A.
      unfold body at 1 3 4. cbn [block fold_left].
      split; [repeat apply sdm_set_ok; exact Hok|]. split; [exact Hnc|].
      intros i c Hi Hc. destruct (Hent i c Hi Hc) as [E0 E1].
      do 8 (destruct c as [|c]; [
        split;
          repeat first [ rewrite (sdm_get_set_column _ _ _ _ _ _ (n * 2) 8) by sdm_side
                       | rewrite (sdm_get_set_row _ _ _ _ _ (n * 2) 8) by sdm_side ];
          first [rewrite E0|rewrite E1]; unfold dlt_row; cbn [nth];
          split_conditions; try lia;
          repeat match goal with E : (_ * 2 + _ = _ * 2 + _)%nat |- _ =>
                   assert (m = i) by lia; clear E end;
          subst; try lia; reflexivity | ]).
      lia. }
  destruct (H n (Nat.le_refl n)) as (H1 & H2 & H3).
  split; [exact H1|]. split; [exact H2|].
  intros i c Hi Hc. destruct (H3 i c Hi Hc) as [E0 E1].
  rewrite E0, E1. destruct (Nat.ltb_spec i n); [auto|lia].
Qed.

Lemma dlt_F_entries (xr yr : list R) (n : nat) :
  length (dlt_F xr yr n) = (n * 2)%nat /\
  forall i, (i < n)%nat ->
    nth (i * 2 + 0) (dlt_F xr yr n) 0 = vget xr i /\
    nth (i * 2 + 1) (dlt_F xr yr n) 0 = vget yr i.
Proof.
  unfold dlt_F.
  match goal with |- context [loop 0 n ?b ?z] => set (body := b); set (Z0 := z) end.
  assert (H : forall m, (m <= n)%nat ->
            length (loop 0 m body Z0) = (n * 2)%nat /\
            forall i, (i < n)%nat ->
              nth (i * 2 + 0) (loop 0 m body Z0) 0 = (if (i <? m)%nat then vget xr i else 0) /\
              nth (i * 2 + 1) (loop 0 m body Z0) 0 = (if (i <? m)%nat then vget yr i else 0)).
  { induction m as [|m IH]; intros Hm.
    - rewrite loop_0. split; [apply repeat_length|].
      intros i Hi. unfold Z0. rewrite !nth_repeat. auto.
    - destruct (IH ltac:(lia)) as (Hlen & Hent). rewrite loop_S.
      set (v := loop 0 m body Z0) in *. clearbody v.
      unfold body. cbn [block fold_left].
      split; [rewrite !vset_length; exact Hlen|].
      intros i Hi. destruct (Hent i Hi) as [E0 E1].
      split; rewrite !nth_vset by (rewrite ?vset_length; lia);
        first [rewrite E0|rewrite E1];
        split_conditions; try lia;
        repeat match goal with E : (_ * 2 + _ = _ * 2 + _)%nat |- _ =>
                 assert (m = i) by lia; clear E end;
        subst; try lia; reflexivity. }
  destruct (H n (Nat.le_refl n)) as (H1 & H2). split; [exact H1|].
  intros i Hi. destruct (H2 i Hi) as [E0 E1]. rewrite E0, E1.
  destruct (Nat.ltb_spec i n); [auto|lia].
Qed.

Lemma dlt_KTK_entries (K : SerialDenseMatrix) (n : nat) :
  sdm_ok (dlt_KTK K n) 8 8 /\ numCols (dlt_KTK K n) = 8%nat /\
  forall k m, (k < 8)%nat -> (m < 8)%nat ->
    sdm_get (dlt_KTK K n) k m = sum_upto (n * 2) (fun j => sdm_get K j k * sdm_get K j m).
Proof.
  unfold dlt_KTK.
  destruct (accumulate_matrix 8 8 (n * 2) (fun j k m => sdm_get K j k * sdm_get K j m)
              (sdm_zero 8 8) (sdm_zero_ok 8 8)) as [H1 H2].
  split; [exact H1|]. split.
  - apply (loop_invariant (fun A => numCols A = 8%nat)); [|reflexivity].
    intros k A HA. apply (loop_invariant (fun A => numCols A = 8%nat)); [|exact HA].
    intros m B HB. apply (loop_invariant (fun A => numCols A = 8%nat)); [|exact HB].
    intros j C HC. exact HC.
  - intros k m Hk Hm. rewrite H2 by assumption. rewrite sdm_get_zero. ring.
Qed.

Lemma dlt_KTu_entries (K : SerialDenseMatrix) (F : list R) (n : nat) :
  length (dlt_KTu K F n) = 8%nat /\
  forall i, (i < 8)%nat ->
    nth i (dlt_KTu K F n) 0 = sum_upto (n * 2) (fun j => sdm_get K j i * vget F j).
Proof.
  unfold dlt_KTu.
  destruct (accumulate_vector 8 (n * 2) (fun j i => sdm_get K j i * vget F j)
              (repeat 0 8) ltac:(cbn; lia)) as [H1 H2].
  split; [exact H1|]. intros i Hi. rewrite H2 by exact Hi. rewrite nth_repeat. ring.
Qed.

Section ReadCoords.
Context {collaborators : Collaborators}.

Lemma point_lines_cons (tokens : list string) (rest : list (list string)) :
  point_lines (tokens :: rest) =
  if is_point_line tokens then tokens :: point_lines rest else point_lines rest.
Proof. unfold point_lines. cbn [filter]. destruct (is_point_line tokens); reflexivity. Qed.

(** The second pass leaves field [k] of point [i] in entry [i] of vector
    [k]. *)
Lemma read_coords_contents (lines : list (list string)) :
  forall (coord_index : nat) (xl yl xr yr xl' yl' xr' yr' : list R) (s s' : State),
  read_coords lines coord_index (xl, yl, xr, yr) s = (s', Normal (xl', yl', xr', yr')) ->
  length yl = length xl -> length xr = length xl -> length yr = length xl ->
  forall i,
    let later (k : nat) (old : R) :=
      if (coord_index <=? i)%nat && (i <? coord_index + count_points lines)%nat
      then strtod (token (nth (i - coord_index) (point_lines lines) []) k)
      else old in
    nth i xl' 0 = later 0%nat (nth i xl 0) /\ nth i yl' 0 = later 1%nat (nth i yl 0) /\
    nth i xr' 0 = later 2%nat (nth i xr 0) /\ nth i yr' 0 = later 3%nat (nth i yr 0).
Proof.
  induction lines as [|tokens rest IH];
    intros coord_index xl yl xr yr xl' yl' xr' yr' s s' Hrun Hyl Hxr Hyr i; cbv zeta.
  - cbn in Hrun. injection Hrun as _ <- <- <- <-.
    unfold count_points. cbn [filter length].
    repeat split; split_conditions; try reflexivity; lia.
  - rewrite count_points_cons, point_lines_cons. cbn [read_coords] in Hrun.
    unfold is_point_line.
    destruct (length tokens =? 0)%nat; cbn [negb].
    { apply (IH _ _ _ _ _ _ _ _ _ _ _ Hrun Hyl Hxr Hyr). }
    unfold assert_ at 1 in Hrun. rewrite bind_unfold in Hrun.
    destruct (length tokens =? 4)%nat; [|discriminate Hrun].
    rewrite bind_unfold in Hrun. unfold in_range in Hrun.
    destruct (coord_index <? length xl)%nat eqn:Hin; [|discriminate Hrun].
    apply Nat.ltb_lt in Hin. cbn [ret] in Hrun.
    destruct (IH _ _ _ _ _ _ _ _ _ _ _ Hrun
                ltac:(rewrite !vset_length; exact Hyl)
                ltac:(rewrite !vset_length; exact Hxr)
                ltac:(rewrite !vset_length; exact Hyr) i) as (H0 & H1 & H2 & H3).
    rewrite H0, H1, H2, H3. rewrite !nth_vset by lia.
    repeat split; split_conditions; subst; try reflexivity; try lia;
      match goal with
      | |- context [nth ?j (?t :: ?l) ?d] =>
          first [ replace j with 0%nat by lia; reflexivity
                | match goal with
                  | |- context [nth ?k l d] => replace j with (S k) by lia; reflexivity
                  end ]
      end.
Qed.

End ReadCoords.

(** ** Solving the normal equations of an exact system *)

Lemma sum_upto_swap (n m : nat) (g : nat -> nat -> R) :
  sum_upto n (fun i => sum_upto m (fun k => g i k)) =
  sum_upto m (fun k => sum_upto n (fun i => g i k)).
Proof.
  induction m as [|m IH]; cbn [sum_upto].
  - induction n as [|n IHn]; cbn; [reflexivity|rewrite IHn; ring].
  - rewrite sum_upto_plus, IH. reflexivity.
Qed.

Lemma sum_upto_scal_l (n : nat) (c : R) (f : nat -> R) :
  sum_upto n (fun i => c * f i) = c * sum_upto n f.
Proof. induction n as [|n IH]; cbn; [ring|rewrite IH; ring]. Qed.

Lemma sum_upto_delta (n a : nat) (f : nat -> R) :
  (a < n)%nat -> sum_upto n (fun m => kronecker a m * f m) = f a.
Proof.
  unfold kronecker. induction n as [|n IH]; intros Ha; [lia|]. cbn [sum_upto].
  destruct (Nat.eqb_spec a n) as [->|Hne].
  - rewrite (sum_upto_ext n _ (fun _ => 0)).
    + rewrite (sum_upto_scal_l n 0 (fun _ => 1)) || idtac.
      assert (E : sum_upto n (fun _ => 0) = 0)
        by (clear; induction n as [|n IHn]; cbn; [reflexivity|rewrite IHn; ring]).
      rewrite E. ring.
    + intros i Hi. destruct (Nat.eqb_spec n i); [lia|ring].
  - rewrite IH by lia. ring.
Qed.

Lemma nth_map_seq (N idx : nat) (f : nat -> R) :
  (idx < N)%nat -> nth idx (map f (seq 0 N)) 0 = f idx.
Proof.
  intros H. rewrite (nth_indep _ 0 (f 0%nat)) by (rewrite length_map, length_seq; exact H).
  rewrite map_nth, seq_nth by exact H. reflexivity.
Qed.

Lemma column_major_index (n i j : nat) :
  (i < n)%nat -> ((i + j * n) mod n = i /\ (i + j * n) / n = j)%nat.
Proof.
  intros H. split.
  - rewrite Nat.Div0.mod_add. apply Nat.mod_small. exact H.
  - rewrite Nat.div_add by lia. rewrite Nat.div_small by exact H. reflexivity.
Qed.

Lemma cm_mul_entry (n : nat) (A B : list R) (i j : nat) :
  (i < n)%nat -> (j < n)%nat ->
  cm_get n (cm_mul n A B) i j = sum_upto n (fun k => cm_get n A i k * cm_get n B k j).
Proof.
  intros Hi Hj. unfold cm_get at 1. unfold cm_mul.
  rewrite nth_map_seq by nia.
  destruct (column_major_index n i j Hi) as [-> ->]. reflexivity.
Qed.

Lemma cm_id_entry (n i j : nat) :
  (i < n)%nat -> (j < n)%nat -> cm_get n (cm_id n) i j = kronecker i j.
Proof.
  intros Hi Hj. unfold cm_get, cm_id, kronecker.
  rewrite nth_map_seq by nia.
  destruct (column_major_index n i j Hi) as [-> ->]. reflexivity.
Qed.

(** When [F = K h] holds exactly and [B] is a left inverse of [K^T K], then
    [B (K^T F)] is [h]. *)
Lemma normal_equations_exact (rows n : nat) (K : nat -> nat -> R) (F h : nat -> R)
    (A B : list R) :
  (forall k m, (k < n)%nat -> (m < n)%nat ->
     cm_get n A k m = sum_upto rows (fun r => K r k * K r m)) ->
  cm_mul n B A = cm_id n ->
  (forall r, (r < rows)%nat -> F r = sum_upto n (fun m => K r m * h m)) ->
  forall a, (a < n)%nat ->
    sum_upto n (fun j => cm_get n B a j * sum_upto rows (fun r => K r j * F r)) = h a.
Proof.
  intros HA HB HF a Ha.
  assert (HKF : forall j, (j < n)%nat ->
            sum_upto rows (fun r => K r j * F r) =
            sum_upto n (fun m => cm_get n A j m * h m)).
  { intros j Hj.
    rewrite (sum_upto_ext rows _ (fun r => sum_upto n (fun m => K r j * K r m * h m))).
    2:{ intros r Hr. rewrite (HF r Hr), <- sum_upto_scal_l.
        apply sum_upto_ext. intros m Hm. ring. }
    rewrite sum_upto_swap. apply sum_upto_ext. intros m Hm.
    rewrite (HA j m Hj Hm). apply sum_upto_scal. }
  transitivity (sum_upto n (fun m =>
                  sum_upto n (fun j => cm_get n B a j * cm_get n A j m) * h m)).
  - rewrite (sum_upto_ext n _ (fun j =>
               sum_upto n (fun m => cm_get n B a j * cm_get n A j m * h m))).
    2:{ intros j Hj. rewrite (HKF j Hj), <- sum_upto_scal_l.
        apply sum_upto_ext. intros m Hm. ring. }
    rewrite sum_upto_swap. apply sum_upto_ext. intros m Hm. apply sum_upto_scal.
  - rewrite (sum_upto_ext n _ (fun m => kronecker a m * h m)).
    2:{ intros m Hm. rewrite <- cm_mul_entry, HB, cm_id_entry by assumption.
        reflexivity. }
    apply sum_upto_delta. exact Ha.
Qed.

(** ** The point-matching step recovers an exact homography *)

Lemma list_eq_by_entries (l l' : list R) :
  length l = length l' -> (forall i, (i < length l)%nat -> nth i l 0 = nth i l' 0) ->
  l = l'.
Proof. intros H1 H2. apply (nth_ext l l' 0 0 H1 H2). Qed.

Lemma halves (r n : nat) :
  (r < n * 2)%nat -> exists i, (i < n)%nat /\ (r = i * 2 + 0 \/ r = i * 2 + 1)%nat.
Proof.
  intros H. exists (r / 2)%nat.
  pose proof (Nat.div_mod_eq r 2) as E.
  pose proof (Nat.mod_upper_bound r 2 ltac:(lia)) as Hm.
  split; [apply Nat.Div0.div_lt_upper_bound; lia|]. lia.
Qed.

Section PointMatching.
Context {lapack : LAPACK} {collaborators : Collaborators}.

(** X21.  If every correspondence of the file is a left point and the right point
    that [project_left_to_right_sensor_coords] gives for it under the
    coefficients [h], with a denominator that is not zero, and the points
    determine the system ([K^T K] has an inverse), then the coefficients
    that the estimator computes from the points, before the simplex search,
    are [h]. *)
Theorem estimate_point_matching_recovers_coefficients (left_img right_img : Image)
    (output_projected_image : bool) (lines : list (list string)) (s : State)
    (p0 h : list R) (out : estimate_output) :
  (forall tokens, In tokens lines -> length tokens = 0%nat \/ length tokens = 4%nat) ->
  projectives_ (self s) = Some p0 -> length p0 = 8%nat -> length h = 8%nat ->
  cm_invertible 8 (dlt_normal lines) ->
  (forall i, (i < count_points lines)%nat ->
     vget h 6 * point_field lines i 0 + vget h 7 * point_field lines i 1 + 1 <> 0 /\
     snd (project_left_to_right_sensor_coords
            (point_field lines i 0) (point_field lines i 1)
            (upd_self (with_projectives_ (Some h)) s))
       = Normal (point_field lines i 2, point_field lines i 3)) ->
  snd (estimate_projective_transform left_img right_img output_projected_image
                                     (Some lines) s) = Normal out ->
  point_matching_parameters out = h.
Proof.
  intros Hlines Hp0 Hlen0 Hlenh Hinv Hexact.
  unfold estimate_projective_transform.
  rewrite bind_unfold, (count_coords_spec lines Hlines 0 s). cbn [Nat.add].
  set (n := count_points lines) in *.
  destruct (n <? 4)%nat; cbn [test_for_exception]; [discriminate|].
  rewrite bind_ret, bind_unfold.
  pose proof (read_coords_state lines 0
                (repeat 0 n, repeat 0 n, repeat 0 n, repeat 0 n) s) as Hs2.
  destruct (read_coords lines 0 _ s) as [s2 [[[[xl yl] xr] yr]| | | |]] eqn:Hread;
    try discriminate.
  cbn [fst] in Hs2. subst s2.
  pose proof (read_coords_contents lines 0 _ _ _ _ _ _ _ _ _ _ Hread
                eq_refl eq_refl eq_refl) as Hcont.
  cbv zeta in Hcont.
  assert (Hfield : forall i, (i < n)%nat ->
            vget xl i = point_field lines i 0 /\ vget yl i = point_field lines i 1 /\
            vget xr i = point_field lines i 2 /\ vget yr i = point_field lines i 3).
  { intros i Hi. destruct (Hcont i) as (H0 & H1 & H2 & H3). unfold vget, point_field.
    rewrite H0, H1, H2, H3. fold n.
    destruct (Nat.leb_spec 0 i); [|lia]. destruct (Nat.ltb_spec i (0 + n)); [|lia].
    cbn [andb]. rewrite Nat.sub_0_r. auto. }
  clear Hcont Hread.
  cbv zeta.
  fold (dlt_K xl yl xr yr n). fold (dlt_F xr yr n).
  set (K := dlt_K xl yl xr yr n). set (F := dlt_F xr yr n).
  fold (dlt_KTK K n). fold (dlt_KTu K F n).
  destruct (dlt_K_entries xl yl xr yr n) as (HokK & _ & HentK). fold K in HokK, HentK.
  destruct (dlt_F_entries xr yr n) as (HlenF & HentF). fold F in HlenF, HentF.
  destruct (dlt_KTK_entries K n) as ([HnrA HlenA] & HncA & HentA).
  destruct (dlt_KTu_entries K F n) as (HlenU & HentU).
  set (A := dlt_KTK K n) in *. set (U := dlt_KTu K F n) in *.
  clearbody A U.
  (* the normal matrix is the one of the points *)
  assert (HA : values A = dlt_normal lines).
  { apply list_eq_by_entries.
    - rewrite HlenA. unfold dlt_normal. rewrite length_map, length_seq. reflexivity.
    - rewrite HlenA. intros idx Hidx.
      assert (Hk : (idx mod 8 < 8)%nat) by (apply Nat.mod_upper_bound; lia).
      assert (Hm : (idx / 8 < 8)%nat) by (apply Nat.Div0.div_lt_upper_bound; lia).
      replace (nth idx (values A) 0) with (sdm_get A (idx mod 8) (idx / 8)).
      2:{ unfold sdm_get. rewrite HnrA. f_equal.
          pose proof (Nat.div_mod_eq idx 8). lia. }
      rewrite (HentA _ _ Hk Hm), sum_upto_pairs.
      unfold dlt_normal. rewrite nth_map_seq by lia. fold n.
      apply sum_upto_ext. intros i Hi.
      destruct (HentK i (idx mod 8)%nat Hi Hk) as [-> ->].
      destruct (HentK i (idx / 8)%nat Hi Hm) as [-> ->].
      destruct (Hfield i Hi) as (-> & -> & -> & ->). reflexivity. }
  rewrite <- HA in Hinv.
  destruct (GETRF_GETRI_inverse 8 (values A) (8 * 8) ltac:(lia) Hinv)
    as (LU & P & B & W & HLU & HI & HB).
  pose proof (GETRF_lengths 8 8 (values A) 8) as [HlLU _].
  rewrite HLU in HlLU. cbn [fst] in HlLU.
  rewrite HnrA, HncA, HLU. cbv iota beta.
  unfold sdm_write at 1 2 3. cbn [numRows values].
  rewrite HnrA, (write_buffer_full (values A) LU HlLU), HI. cbv iota beta.
  rewrite bind_get, Hp0. cbv iota beta.
  assert (Ezero : loop 0 (length p0) (fun i => vset i 0) p0 = repeat 0 8).
  { spell Hlen0. reflexivity. }
  rewrite Ezero. change (8 <=? length (repeat 0%R 8))%nat with true.
  cbn [in_range]. rewrite bind_ret, bind_assign.
  match goal with |- context [minimize left_img right_img ?q ?d] =>
    assert (Hp1 : q = h); [|rewrite Hp1; destruct (minimize left_img right_img h d)
                                           as [[refined iterations] successful]]
  end.
  { destruct (accumulate_vector 8 8
                (fun j i => sdm_get (sdm_write (sdm_write A LU) B) i j * vget U j)
                (repeat 0 8) ltac:(cbn; lia)) as [Hl1 He1].
    apply list_eq_by_entries; [rewrite Hl1, Hlenh; reflexivity|].
    rewrite Hl1, repeat_length. intros a Ha.
    rewrite (He1 a Ha), nth_repeat, Rplus_0_l.
    destruct HB as (_ & HlB & HBA & _).
    rewrite (sum_upto_ext 8 _ (fun j => cm_get 8 B a j
               * sum_upto (n * 2) (fun r => sdm_get K r j * vget F r))).
    2:{ intros j Hj. unfold vget at 1. rewrite (HentU j Hj). f_equal.
        unfold sdm_get, sdm_write, cm_get. cbn [numRows values].
        rewrite HnrA, (write_buffer_full (values A) LU HlLU).
        rewrite write_buffer_full by (rewrite HlB, HlLU, HlenA; reflexivity).
        reflexivity. }
    apply (normal_equations_exact (n * 2) 8 (sdm_get K) (vget F) (fun m => nth m h 0)
             (values A) B).
    - intros k m Hk Hm. rewrite <- (HentA k m Hk Hm).
      unfold cm_get, sdm_get. rewrite HnrA. reflexivity.
    - exact HBA.
    - intros r Hr. destruct (halves r n Hr) as (i & Hi & Hri).
      destruct (Hexact i Hi) as [Hden Hmap].
      unfold project_left_to_right_sensor_coords in Hmap.
      rewrite bind_get in Hmap.
      cbn [self upd_self projectives_ with_projectives_] in Hmap.
      unfold assert_ at 1 in Hmap. rewrite bind_unfold in Hmap.
      rewrite Hlenh in Hmap. cbn [Nat.eqb ret snd] in Hmap.
      injection Hmap as Hx Hy.
      destruct (Hfield i Hi) as (Exl & Eyl & Exr & Eyr).
      destruct (HentF i Hi) as [EF0 EF1].
      unfold vget in *.
      set (den := nth 6 h 0 * point_field lines i 0
                  + nth 7 h 0 * point_field lines i 1 + 1) in *.
      assert (Hx' : point_field lines i 2 * den =
                    nth 0 h 0 * point_field lines i 0
                    + nth 1 h 0 * point_field lines i 1 + nth 2 h 0)
        by (rewrite <- Hx; field; exact Hden).
      assert (Hy' : point_field lines i 2 * 0 + point_field lines i 3 * den =
                    nth 3 h 0 * point_field lines i 0
                    + nth 4 h 0 * point_field lines i 1 + nth 5 h 0)
        by (rewrite <- Hy; field; exact Hden).
      destruct Hri as [-> | ->].
      + rewrite EF0, Exr. cbn [sum_upto].
        rewrite (proj1 (HentK i 0%nat Hi ltac:(lia))),
          (proj1 (HentK i 1%nat Hi ltac:(lia))),
          (proj1 (HentK i 2%nat Hi ltac:(lia))),
          (proj1 (HentK i 3%nat Hi ltac:(lia))),
          (proj1 (HentK i 4%nat Hi ltac:(lia))),
          (proj1 (HentK i 5%nat Hi ltac:(lia))),
          (proj1 (HentK i 6%nat Hi ltac:(lia))),
          (proj1 (HentK i 7%nat Hi ltac:(lia))). unfold dlt_row. cbn [nth].
        rewrite Exl, Eyl, Exr. unfold den in Hx'. lra.
      + rewrite EF1, Eyr. cbn [sum_upto].
        rewrite (proj2 (HentK i 0%nat Hi ltac:(lia))),
          (proj2 (HentK i 1%nat Hi ltac:(lia))),
          (proj2 (HentK i 2%nat Hi ltac:(lia))),
          (proj2 (HentK i 3%nat Hi ltac:(lia))),
          (proj2 (HentK i 4%nat Hi ltac:(lia))),
          (proj2 (HentK i 5%nat Hi ltac:(lia))),
          (proj2 (HentK i 6%nat Hi ltac:(lia))),
          (proj2 (HentK i 7%nat Hi ltac:(lia))). unfold dlt_row. cbn [nth].
        rewrite Exl, Eyl, Eyr. unfold den in Hy'. lra.
    - exact Ha. }
  rewrite bind_assign.
  destruct successful; cbn [negb test_for_exception]; [|discriminate].
  rewrite bind_ret, bind_unfold.
  match goal with |- context [match ?m ?s3 with _ => _ end] =>
    destruct (m s3) as [s4 [images| | | |]]
  end; try discriminate.
  cbn [ret snd]. intros Hout. injection Hout as <-. reflexivity.
Qed.

End PointMatching.

(** * TIFF images *)

Lemma raster_spec (width height x y : nat) :
  In (x, y) (Tiff.raster width height) <-> (x < width)%nat /\ (y < height)%nat.
Proof.
  unfold Tiff.raster. rewrite in_flat_map. split.
  - intros (y' & Hy & Hx). apply in_map_iff in Hx. destruct Hx as (x' & E & Hx).
    injection E as <- <-. apply in_seq in Hx, Hy. lia.
  - intros [Hx Hy]. exists y. split; [apply in_seq; lia|].
    apply in_map_iff. exists x. split; [reflexivity|apply in_seq; lia].
Qed.

Lemma pair_in_dec (p : nat * nat) (l : list (nat * nat)) : {In p l} + {~ In p l}.
Proof. apply in_dec. decide equality; apply Nat.eq_dec. Qed.

Lemma shape_row {A : Type} (v w : list (list A)) (i : nat) :
  map (@length A) v = map (@length A) w ->
  length v = length w /\ length (nth i v []) = length (nth i w []).
Proof.
  intros H. split.
  - rewrite <- (length_map (@length A) v), H. apply length_map.
  - rewrite <- (map_nth (@length A) v [] i), <- (map_nth (@length A) w [] i), H.
    reflexivity.
Qed.

Lemma set_pixel_shape (x y : nat) (p : Z) (rows : list (list Z)) :
  map (@length Z) (Tiff.set_pixel x y p rows) = map (@length Z) rows.
Proof.
  unfold Tiff.set_pixel.
  assert (H : forall (w : list Z) k (u : list (list Z)),
            length w = length (nth k u []) ->
            map (@length Z) (vset k w u) = map (@length Z) u).
  { intros w k u. revert k. induction u as [|h t IH]; intros [|k] Hw; cbn in *;
      try reflexivity.
    - rewrite Hw. reflexivity.
    - rewrite IH; [reflexivity|exact Hw]. }
  apply H. apply vset_length.
Qed.

Lemma pixel_at_set_pixel (x y x' y' : nat) (p : Z) (rows : list (list Z)) :
  (y < length rows)%nat -> (x < length (nth y rows []))%nat ->
  Tiff.pixel_at (Tiff.set_pixel x y p rows) x' y' =
  if (x =? x')%nat && (y =? y')%nat then p else Tiff.pixel_at rows x' y'.
Proof.
  intros Hy Hx. unfold Tiff.pixel_at, Tiff.set_pixel.
  destruct (Nat.eqb_spec y y') as [<-|Hne].
  - rewrite nth_vset_same by exact Hy.
    destruct (Nat.eqb_spec x x') as [<-|Hne]; cbn [andb].
    + apply nth_vset_same. exact Hx.
    + apply nth_vset_other. exact Hne.
  - rewrite andb_false_r. rewrite nth_vset_other by exact Hne. reflexivity.
Qed.

Lemma new_image_rows (width height x y : nat) :
  (x < width)%nat -> (y < height)%nat ->
  (y < length (Tiff.new_image width height))%nat /\
  (x < length (nth y (Tiff.new_image width height) []))%nat.
Proof.
  intros Hx Hy. unfold Tiff.new_image. rewrite repeat_length. split; [exact Hy|].
  rewrite (nth_indep _ [] (repeat 0%Z width)) by (rewrite repeat_length; exact Hy).
  rewrite nth_repeat, repeat_length. exact Hx.
Qed.

(** Once a loop has gone wrong it stays so. *)
Lemma for_raster_stuck {X : Type} (body : nat -> nat -> X -> Tiff.result X)
    (l : list (nat * nat)) (r : Tiff.result X) :
  (forall v, r <> Tiff.Done v) ->
  fold_left (fun acc xy => match acc with
                           | Tiff.Done v => body (fst xy) (snd xy) v
                           | other => other
                           end) l r = r.
Proof.
  intros H. induction l as [|xy l IH]; [reflexivity|].
  cbn [fold_left]. destruct r as [v| | | |]; try exact IH.
  exfalso. exact (H v eq_refl).
Qed.

(** ** The conversion to 8 bits *)

Lemma to_gray8_defined (v : R) :
  (exists p, Tiff.to_gray8 v = Some p) <-> -1 < v < 256.
Proof.
  unfold Tiff.to_gray8, Tiff.truncate.
  destruct (Rle_dec 0 v) as [Hv|Hv].
  - destruct (base_Int_part v) as [Hlo Hhi].
    destruct (Z.leb_spec 0 (Int_part v)) as [H0|H0];
      destruct (Z.leb_spec (Int_part v) 255) as [H1|H1]; cbn [andb]; split;
        try (intros [p Hp]; discriminate Hp);
        try (intros _; eexists; reflexivity).
    + intros _. apply IZR_le in H1. lra.
    + intros Hr. exfalso.
      assert (H2 : (256 <= Int_part v)%Z) by lia. apply IZR_le in H2. lra.
    + intros Hr. exfalso.
      assert (H2 : (Int_part v <= -1)%Z) by lia. apply IZR_le in H2. lra.
    + intros Hr. exfalso. lia.
  - assert (Hneg : 0 < - v) by lra.
    destruct (base_Int_part (- v)) as [Hlo Hhi].
    destruct (Z.leb_spec 0 (- Int_part (- v))) as [H0|H0];
      destruct (Z.leb_spec (- Int_part (- v)) 255) as [H1|H1]; cbn [andb]; split;
        try (intros [p Hp]; discriminate Hp);
        try (intros _; eexists; reflexivity).
    + intros _. assert (H2 : (Int_part (- v) <= 0)%Z) by lia. apply IZR_le in H2. lra.
    + intros Hr. exfalso.
      assert (H2 : (0 <= Int_part (- v))%Z).
      { apply le_IZR. apply Rnot_lt_le. intros Hc.
        assert (H3 : (Int_part (- v) <= -1)%Z) by (apply lt_IZR in Hc; lia).
        apply IZR_le in H3. lra. }
      lia.
    + intros Hr. exfalso.
      assert (H2 : (1 <= Int_part (- v))%Z) by lia. apply IZR_le in H2. lra.
    + intros Hr. exfalso.
      assert (H2 : (1 <= Int_part (- v))%Z) by lia. apply IZR_le in H2. lra.
Qed.

Lemma to_gray8_integer (k : Z) :
  (0 <= k <= 255)%Z -> Tiff.to_gray8 (IZR k) = Some k.
Proof.
  intros Hk. unfold Tiff.to_gray8, Tiff.truncate.
  destruct (Rle_dec 0 (IZR k)) as [Hv|Hv].
  - rewrite <- (Int_part_spec (IZR k) k) by lra.
    destruct (Z.leb_spec 0 k); destruct (Z.leb_spec k 255); try lia. reflexivity.
  - exfalso. apply Hv. apply IZR_le. lia.
Qed.

Lemma to_gray8_range (v : R) (p : Z) :
  Tiff.to_gray8 v = Some p -> p = Tiff.truncate v /\ (0 <= p <= 255)%Z.
Proof.
  unfold Tiff.to_gray8.
  cbv zeta.
  destruct (Z.leb_spec 0 (Tiff.truncate v)) as [H0|H0];
    destruct (Z.leb_spec (Tiff.truncate v) 255) as [H1|H1];
    cbn [andb]; try discriminate.
  intros E. injection E as <-. split; [reflexivity|lia].
Qed.

(** ** The two loops *)

Section TiffLoops.
Variable intensities : list (list R).

Lemma write_loop_done (l : list (nat * nat)) :
  forall img img',
  fold_left (fun acc xy => match acc with
                           | Tiff.Done v => Tiff.store_pixel intensities (fst xy) (snd xy) v
                           | other => other
                           end) l (Tiff.Done img) = Tiff.Done img' ->
  (forall x y, In (x, y) l ->
     (y < length img)%nat /\ (x < length (nth y img []))%nat) ->
  map (@length Z) img' = map (@length Z) img /\
  (forall x y, In (x, y) l ->
     inside2 intensities x y = true /\
     Tiff.to_gray8 (at2 intensities x y) = Some (Tiff.pixel_at img' x y)) /\
  (forall x y, ~ In (x, y) l -> Tiff.pixel_at img' x y = Tiff.pixel_at img x y).
Proof.
  induction l as [|[x0 y0] l IH]; intros img img' Hrun Hin.
  - cbn in Hrun. injection Hrun as <-. split; [reflexivity|].
    split; [intros x y []|reflexivity].
  - cbn [fold_left fst snd] in Hrun. unfold Tiff.store_pixel in Hrun at 2.
    destruct (inside2 intensities x0 y0) eqn:Hins.
    2:{ rewrite for_raster_stuck in Hrun by discriminate. discriminate Hrun. }
    destruct (Tiff.to_gray8 (at2 intensities x0 y0)) as [p|] eqn:Hp.
    2:{ rewrite for_raster_stuck in Hrun by discriminate. discriminate Hrun. }
    destruct (Hin x0 y0 (or_introl eq_refl)) as [Hy0 Hx0].
    pose proof (set_pixel_shape x0 y0 p img) as Hshape.
    destruct (IH _ _ Hrun) as (Hs & Hset & Hkeep).
    { intros x y Hxy. destruct (Hin x y (or_intror Hxy)) as [Hy Hx].
      destruct (shape_row _ _ y Hshape) as [E1 E2]. rewrite E1, E2. auto. }
    split; [congruence|]. split.
    + intros x y Hxy. destruct (pair_in_dec (x, y) l) as [Hl|Hl]; [exact (Hset x y Hl)|].
      destruct Hxy as [E|Hxy]; [|contradiction]. injection E as <- <-.
      split; [exact Hins|]. rewrite (Hkeep x0 y0 Hl).
      rewrite pixel_at_set_pixel by assumption.
      rewrite !Nat.eqb_refl. exact Hp.
    + intros x y Hxy. rewrite (Hkeep x y) by (intros Hl; apply Hxy; right; exact Hl).
      rewrite pixel_at_set_pixel by assumption.
      destruct (Nat.eqb_spec x0 x) as [<-|Hne]; [|reflexivity].
      destruct (Nat.eqb_spec y0 y) as [<-|Hne]; [|reflexivity].
      exfalso. apply Hxy. left. reflexivity.
Qed.

Lemma write_loop_runs (l : list (nat * nat)) :
  (forall x y, In (x, y) l ->
     inside2 intensities x y = true /\
     exists p, Tiff.to_gray8 (at2 intensities x y) = Some p) ->
  forall img, exists img',
  fold_left (fun acc xy => match acc with
                           | Tiff.Done v => Tiff.store_pixel intensities (fst xy) (snd xy) v
                           | other => other
                           end) l (Tiff.Done img) = Tiff.Done img'.
Proof.
  induction l as [|[x0 y0] l IH]; intros H img.
  - exists img. reflexivity.
  - cbn [fold_left fst snd]. unfold Tiff.store_pixel at 2.
    destruct (H x0 y0 (or_introl eq_refl)) as [Hins [p Hp]]. rewrite Hins, Hp.
    apply IH. intros x y Hxy. apply H. right. exact Hxy.
Qed.

End TiffLoops.

Section TiffReadLoop.
Variable rows : list (list Z).

Lemma read_loop_done (l : list (nat * nat)) :
  forall v v',
  fold_left (fun acc xy => match acc with
                           | Tiff.Done v => Tiff.load_pixel rows (fst xy) (snd xy) v
                           | other => other
                           end) l (Tiff.Done v) = Tiff.Done v' ->
  map (@length R) v' = map (@length R) v /\
  (forall x y, In (x, y) l ->
     inside2 v x y = true /\ at2 v' x y = IZR (Tiff.pixel_at rows x y)) /\
  (forall x y, ~ In (x, y) l -> at2 v' x y = at2 v x y).
Proof.
  induction l as [|[x0 y0] l IH]; intros v v' Hrun.
  - cbn in Hrun. injection Hrun as <-. split; [reflexivity|].
    split; [intros x y []|reflexivity].
  - cbn [fold_left fst snd] in Hrun. unfold Tiff.load_pixel in Hrun at 2.
    destruct (inside2 v x0 y0) eqn:Hins.
    2:{ rewrite for_raster_stuck in Hrun by discriminate. discriminate Hrun. }
    pose proof (set2_shape x0 y0 (IZR (Tiff.pixel_at rows x0 y0)) v) as Hshape.
    destruct (IH _ _ Hrun) as (Hs & Hset & Hkeep).
    split; [congruence|]. split.
    + intros x y Hxy. destruct (pair_in_dec (x, y) l) as [Hl|Hl].
      * destruct (Hset x y Hl) as [H1 H2]. split; [|exact H2].
        rewrite <- H1. symmetry. apply inside2_shape. exact Hshape.
      * destruct Hxy as [E|Hxy]; [|contradiction]. injection E as <- <-.
        split; [exact Hins|]. rewrite (Hkeep x0 y0 Hl).
        apply at2_set2_same. exact Hins.
    + intros x y Hxy. rewrite (Hkeep x y) by (intros Hl; apply Hxy; right; exact Hl).
      rewrite at2_set2 by exact Hins.
      destruct (Nat.eqb_spec x0 x) as [<-|Hne]; [|reflexivity].
      destruct (Nat.eqb_spec y0 y) as [<-|Hne]; [|reflexivity].
      exfalso. apply Hxy. left. reflexivity.
Qed.

Lemma read_loop_runs (l : list (nat * nat)) :
  forall v,
  (forall x y, In (x, y) l -> inside2 v x y = true) ->
  exists v',
  fold_left (fun acc xy => match acc with
                           | Tiff.Done v => Tiff.load_pixel rows (fst xy) (snd xy) v
                           | other => other
                           end) l (Tiff.Done v) = Tiff.Done v'.
Proof.
  induction l as [|[x0 y0] l IH]; intros v H.
  - exists v. reflexivity.
  - cbn [fold_left fst snd]. unfold Tiff.load_pixel at 2.
    rewrite (H x0 y0 (or_introl eq_refl)).
    apply IH. intros x y Hxy.
    rewrite (inside2_shape _ v) by apply set2_shape.
    apply H. right. exact Hxy.
Qed.

End TiffReadLoop.

(** ** Writing an image and reading it back *)

(** X22.  On a store that takes the write, [write_image] returns exactly when the
    file name is not empty and every pixel [(x, y)] with [x < width] and
    [y < height] is inside the view and holds a value greater than -1 and
    less than 256: no other value has an 8-bit representation, and none is
    clamped. *)
Theorem write_image_returns_iff (file_name : string) (width height : nat)
    (intensities : list (list R)) (disk : Tiff.Disk) :
  (exists disk', Tiff.write_image file_name width height intensities disk = Tiff.Done disk')
  <->
  file_name <> EmptyString /\
  (forall x y, (x < width)%nat -> (y < height)%nat ->
     inside2 intensities x y = true /\ -1 < at2 intensities x y < 256).
Proof.
  unfold Tiff.write_image, Tiff.for_raster.
  destruct (String.eqb_spec file_name "") as [E|E].
  - split; [intros [d H]; discriminate H|intros [H _]; contradiction].
  - split.
    + intros [disk' H]. split; [exact E|]. intros x y Hx Hy.
      destruct (fold_left _ _ _) as [img| | | |] eqn:Hrun; try discriminate H.
      destruct (write_loop_done intensities _ _ _ Hrun) as (_ & Hset & _).
      { intros x1 y1 Hin. apply raster_spec in Hin. apply new_image_rows; tauto. }
      destruct (Hset x y (proj2 (raster_spec width height x y) (conj Hx Hy)))
        as [Hins Hp].
      split; [exact Hins|]. apply to_gray8_defined. eexists. exact Hp.
    + intros [_ H].
      destruct (write_loop_runs intensities (Tiff.raster width height)) with
        (img := Tiff.new_image width height) as [img Hrun].
      { intros x y Hin. apply raster_spec in Hin. destruct Hin as [Hx Hy].
        destruct (H x y Hx Hy) as [Hins Hr]. split; [exact Hins|].
        apply to_gray8_defined. exact Hr. }
      rewrite Hrun. eexists. reflexivity.
Qed.

(** X23.  What [write_image] wrote under a name is what [read_image] and
    [read_image_dimensions] find there: every pixel of the view that is read
    into comes back as the written value truncated towards zero, so a view
    of integers from 0 to 255 comes back as it was, and the view is
    untouched outside the image. *)
Theorem write_then_read_image (file_name : string) (width height : nat)
    (written view : list (list R)) (disk disk' : Tiff.Disk) :
  Tiff.write_image file_name width height written disk = Tiff.Done disk' ->
  (forall x y, (x < width)%nat -> (y < height)%nat -> inside2 view x y = true) ->
  Tiff.read_image_dimensions file_name disk' = Tiff.Done (width, height) /\
  exists view',
    Tiff.read_image file_name view disk' = Tiff.Done view' /\
    map (@length R) view' = map (@length R) view /\
    (forall x y, (x < width)%nat -> (y < height)%nat ->
       at2 view' x y = IZR (Tiff.truncate (at2 written x y)) /\
       (forall k, at2 written x y = IZR k -> at2 view' x y = at2 written x y)) /\
    (forall x y, ~ ((x < width)%nat /\ (y < height)%nat) ->
       at2 view' x y = at2 view x y).
Proof.
  unfold Tiff.write_image, Tiff.for_raster.
  destruct (String.eqb_spec file_name "") as [E|E]; [discriminate|].
  destruct (fold_left _ _ _) as [img| | | |] eqn:Hrun; try discriminate.
  intros H Hview. injection H as <-.
  destruct (write_loop_done written _ _ _ Hrun) as (_ & Hset & _).
  { intros x1 y1 Hin. apply raster_spec in Hin. apply new_image_rows; tauto. }
  unfold Tiff.read_image_dimensions, Tiff.read_image, Tiff.tiff_read_dimensions,
    Tiff.tiff_read_and_convert_image, Tiff.tiff_write_view, Tiff.for_raster.
  cbn [Tiff.lookup]. rewrite String.eqb_refl.
  destruct (String.eqb_spec file_name "") as [E'|_]; [contradiction|].
  cbn [Tiff.width Tiff.height Tiff.rows fst snd].
  split; [reflexivity|].
  destruct (read_loop_runs img (Tiff.raster width height) view) as [view' Hread].
  { intros x y Hin. apply raster_spec in Hin. apply Hview; tauto. }
  exists view'. split; [exact Hread|].
  destruct (read_loop_done img _ _ _ Hread) as (Hshape & Hget & Hkeep).
  split; [exact Hshape|]. split.
  - intros x y Hx Hy.
    pose proof (proj2 (raster_spec width height x y) (conj Hx Hy)) as Hin.
    destruct (Hget x y Hin) as [_ Hv]. destruct (Hset x y Hin) as [_ Hp].
    apply to_gray8_range in Hp. destruct Hp as [Hp Hrange].
    split; [rewrite Hv, Hp; reflexivity|].
    intros k Hk. rewrite Hv, Hp, Hk. f_equal.
    rewrite Hk in Hp. rewrite Hp in Hrange.
    assert (Hg : Tiff.to_gray8 (IZR k) = Some (Tiff.truncate (IZR k))).
    { unfold Tiff.to_gray8. cbv zeta.
      destruct (Z.leb_spec 0 (Tiff.truncate (IZR k)));
        destruct (Z.leb_spec (Tiff.truncate (IZR k)) 255); try lia. reflexivity. }
    destruct (to_gray8_defined (IZR k)) as [Hdef _].
    specialize (Hdef (ex_intro _ _ Hg)).
    assert (Hk0 : (0 <= k <= 255)%Z).
    { split; [apply le_IZR|].
      - apply Rnot_lt_le. intros Hc.
        assert (H3 : (k <= -1)%Z) by (apply lt_IZR in Hc; lia).
        apply IZR_le in H3. lra.
      - assert (H3 : (k < 256)%Z) by (apply lt_IZR; lra). lia. }
    rewrite (to_gray8_integer k Hk0) in Hg. injection Hg as <-. reflexivity.
  - intros x y Hout. apply Hkeep. rewrite raster_spec. exact Hout.
Qed.

(** X24.  [read_image] on a file that is there returns exactly when the name is
    not empty and the view holds every pixel of the image; it then leaves the
    shape of the view, overwrites the pixels of the image with integers from
    the file and leaves the others.  On a name that no file has it ends with
    the exception of the library, after the [assert]. *)
Theorem read_image_window (file_name : string) (view : list (list R))
    (disk : Tiff.Disk) :
  (file_name = EmptyString -> Tiff.read_image file_name view disk = Tiff.AssertionFailed) /\
  (file_name <> EmptyString -> Tiff.lookup file_name disk = None ->
   Tiff.read_image file_name view disk = Tiff.LibraryThrows) /\
  (forall img, file_name <> EmptyString -> Tiff.lookup file_name disk = Some img ->
   ((exists view', Tiff.read_image file_name view disk = Tiff.Done view') <->
    (forall x y, (x < Tiff.width img)%nat -> (y < Tiff.height img)%nat ->
       inside2 view x y = true)) /\
   (forall view', Tiff.read_image file_name view disk = Tiff.Done view' ->
    map (@length R) view' = map (@length R) view /\
    (forall x y, (x < Tiff.width img)%nat -> (y < Tiff.height img)%nat ->
       at2 view' x y = IZR (Tiff.pixel_at (Tiff.rows img) x y)) /\
    (forall x y, ~ ((x < Tiff.width img)%nat /\ (y < Tiff.height img)%nat) ->
       at2 view' x y = at2 view x y))).
Proof.
  unfold Tiff.read_image, Tiff.tiff_read_and_convert_image, Tiff.for_raster.
  split; [intros ->; reflexivity|]. split.
  - intros E Hnone. destruct (String.eqb_spec file_name ""); [contradiction|].
    rewrite Hnone. reflexivity.
  - intros img E Hsome. destruct (String.eqb_spec file_name ""); [contradiction|].
    rewrite Hsome. cbv zeta. split; [split|].
    + intros [view' Hread] x y Hx Hy.
      destruct (read_loop_done _ _ _ _ Hread) as (_ & Hget & _).
      apply (Hget x y). apply raster_spec. auto.
    + intros H. apply read_loop_runs. intros x y Hin.
      apply raster_spec in Hin. apply H; tauto.
    + intros view' Hread.
      destruct (read_loop_done _ _ _ _ Hread) as (Hshape & Hget & Hkeep).
      split; [exact Hshape|]. split.
      * intros x y Hx Hy. apply (Hget x y). apply raster_spec. auto.
      * intros x y Hout. apply Hkeep. rewrite raster_spec. exact Hout.
Qed.

(** ** The further properties at work on the sample data *)

Lemma invert_transform_always_returns_witness :
  exists T', invert_transform (lapack := exact_lapack) (sdm_zero 4 4) = Normal T' /\
             numRows T' = numRows (sdm_zero 4 4) /\ numCols T' = numCols (sdm_zero 4 4) /\
             length (values T') = 16%nat.
Proof.
  apply (invert_transform_always_returns (lapack := exact_lapack)). reflexivity.
Defined.

Lemma load_unrecognized_format_clears_witness :
  load_calibration_parameters (lapack := exact_lapack)
    (collaborators := sample_collaborators) "cal.txt" None sample_state
    = (sample_state, Throws CalibrationFileNotGood) /\
  load_calibration_parameters (lapack := exact_lapack)
    (collaborators := sample_collaborators) "cal.dat" (Some sample_txt_file) sample_state
    = (upd_self cleared_calibration sample_state, Throws UnrecognizedCalibrationFormat).
Proof.
  split.
  - exact (proj1 (load_unrecognized_format_clears (lapack := exact_lapack)
                    (collaborators := sample_collaborators)
                    "cal.txt" sample_txt_file sample_state)).
  - exact (proj2 (load_unrecognized_format_clears (lapack := exact_lapack)
                    (collaborators := sample_collaborators)
                    "cal.dat" sample_txt_file sample_state) eq_refl eq_refl).
Defined.

Lemma load_txt_wrong_value_count_witness :
  snd (load_calibration_parameters (lapack := exact_lapack)
         (collaborators := sample_collaborators)
         "cal.txt" (Some three_values_txt_file) sample_state)
    = Throws ErrorReadingCalibrationText.
Proof.
  apply (load_txt_wrong_value_count (lapack := exact_lapack)
           (collaborators := sample_collaborators)).
  - reflexivity.
  - reflexivity.
  - reflexivity.
  - vm_compute. lia.
  - vm_compute. lia.
Defined.

Lemma load_txt_too_many_values_witness :
  snd (load_calibration_parameters (lapack := exact_lapack)
         (collaborators := sample_collaborators)
         "cal.txt" (Some too_long_txt_file) sample_state) = Undefined.
Proof.
  apply (load_txt_too_many_values (lapack := exact_lapack)
           (collaborators := sample_collaborators)).
  - reflexivity.
  - reflexivity.
  - reflexivity.
  - vm_compute. lia.
Defined.

Lemma load_xml_needs_two_cameras_witness :
  length (camera_records sample_xml_file) = 2%nat.
Proof.
  exact (load_xml_needs_two_cameras (lapack := exact_lapack)
           (collaborators := sample_collaborators)
           "cal.xml" sample_xml_file sample_state eq_refl load_sample_xml_file).
Defined.

Lemma load_txt_stores_values_witness :
  let t := self (fst (load_calibration_parameters (lapack := exact_lapack)
                        (collaborators := sample_collaborators)
                        "cal.txt" (Some sample_txt_file) sample_state)) in
  (count_values sample_txt_file = 22%nat \/ count_values sample_txt_file = 28%nat) /\
  (forall c j, (c < 2)%nat -> (j < 8)%nat ->
     intr t c j = txt_value (collaborators := sample_collaborators)
                            sample_txt_file (8 * c + j)) /\
  cal_extrinsics_ t =
    rows_of (values (txt_pose (collaborators := sample_collaborators) sample_txt_file 16)) /\
  (count_values sample_txt_file = 28%nat ->
   trans_extrinsics_ t =
     rows_of (values (rigid_inverse_of
                        (txt_pose (collaborators := sample_collaborators)
                                  sample_txt_file 22)))).
Proof.
  exact (load_txt_stores_values (lapack := exact_lapack)
           (collaborators := sample_collaborators)
           "cal.txt" sample_txt_file sample_state eq_refl eq_refl load_sample_txt_file).
Defined.

Lemma load_xml_stores_intrinsics_witness :
  let t := self (fst (load_calibration_parameters (lapack := exact_lapack)
                        (collaborators := sample_collaborators)
                        "cal.xml" (Some sample_xml_file) sample_state)) in
  (forall j, (j < 8)%nat ->
     intr t 0 j = strtod (Collaborators := sample_collaborators)
                         (token (nth 1 sample_xml_file []) (2 + j))) /\
  (forall j, (j < 8)%nat ->
     intr t 1 j = strtod (Collaborators := sample_collaborators)
                         (token (nth 3 sample_xml_file []) (2 + j))) /\
  trans_extrinsics_ t =
    rows_of (values (rigid_inverse_of
                       (record_pose (collaborators := sample_collaborators)
                                    (nth 1 sample_xml_file [])))).
Proof.
  exact (load_xml_stores_intrinsics (lapack := exact_lapack)
           (collaborators := sample_collaborators)
           "cal.xml" sample_xml_file (nth 1 sample_xml_file []) (nth 3 sample_xml_file [])
           sample_state eq_refl eq_refl load_sample_xml_file).
Defined.

Lemma correct_radial_scales_offsets_witness :
  exists x y factor,
    snd (correct_lens_distortion_radial 2 3 0 sample_state) = Normal (x, y) /\
    x - ci sample_state 0 0 = (1 - factor) * (2 - ci sample_state 0 0) /\
    y - ci sample_state 0 1 = (1 - factor) * (3 - ci sample_state 0 1) /\
    (2 = ci sample_state 0 0 -> 3 = ci sample_state 0 1 -> x = 2 /\ y = 3).
Proof.
  apply (correct_radial_scales_offsets sample_state 0 2 3).
  - reflexivity.
  - cbv -[IZR]. lra.
  - cbv -[IZR]. lra.
Defined.

Lemma project_camera_0_to_sensor_1_is_pinhole_witness :
  let X := ce sample_state 0 0 * 0 + ce sample_state 0 1 * 0 + ce sample_state 0 2 * 1
           + ce sample_state 0 3 in
  let Y := ce sample_state 1 0 * 0 + ce sample_state 1 1 * 0 + ce sample_state 1 2 * 1
           + ce sample_state 1 3 in
  let Z := ce sample_state 2 0 * 0 + ce sample_state 2 1 * 0 + ce sample_state 2 2 * 1
           + ce sample_state 2 3 in
  (Z <> 0 ->
   project_camera_0_to_sensor_1 0 0 1 sample_state =
     (sample_state,
      Normal (ci sample_state 1 2 * X / Z + ci sample_state 1 4 * Y / Z + ci sample_state 1 0,
              ci sample_state 1 3 * Y / Z + ci sample_state 1 1))) /\
  (Z = 0 ->
   project_camera_0_to_sensor_1 0 0 1 sample_state
     = (sample_state, AssertFails Assert_psi2_nonzero)).
Proof.
  apply (project_camera_0_to_sensor_1_is_pinhole sample_state 0 0 1). reflexivity.
Defined.

Lemma triangulate_corrects_then_solves_witness :
  exists c0 c1,
    snd (correct_lens_distortion_radial 1 1 0 sample_state) = Normal c0 /\
    snd (correct_lens_distortion_radial 2 1 1 sample_state) = Normal c1 /\
    snd (triangulate (lapack := exact_lapack) 1 1 2 1 true sample_state) =
    snd (triangulate (lapack := exact_lapack) (fst c0) (snd c0) (fst c1) (snd c1) false
           sample_state).
Proof.
  destruct (correct_lens_distortion_radial_spec sample_state 1 1 0) as (t0 & E0 & _).
  destruct (correct_lens_distortion_radial_spec sample_state 2 1 1) as (t1 & E1 & _).
  eexists. eexists. split; [rewrite E0; reflexivity|]. split; [rewrite E1; reflexivity|].
  apply (triangulate_corrects_then_solves (lapack := exact_lapack)).
  - exact Tri_initial_shaped.
  - rewrite E0. reflexivity.
  - rewrite E1. reflexivity.
Defined.

Lemma triangulate_after_load_returns_witness :
  exists out,
    snd (triangulate (lapack := exact_lapack) 5 6 7 8 true
           (fst (load_calibration_parameters (lapack := exact_lapack)
                   (collaborators := sample_collaborators)
                   "cal.txt" (Some sample_txt_file) sample_state))) = Normal out.
Proof.
  apply (triangulate_after_load_returns (lapack := exact_lapack)
           (collaborators := sample_collaborators)).
  - exact Tri_initial_shaped.
  - exact load_sample_txt_file.
Defined.

Lemma sample_calibration_shaped : shaped_calibration sample_calibration.
Proof. repeat split; reflexivity. Qed.

Lemma triangulate_world_is_camera_0_witness :
  exists xc yc zc xw yw zw,
    snd (triangulate (lapack := exact_lapack) 1 1 2 1 false sample_state)
      = Normal (xc, yc, zc, xw, yw, zw) /\
    xw = xc /\ yw = yc /\ zw = zc.
Proof.
  destruct (triangulate_returns (lapack := exact_lapack) sample_state 1 1 2 1 false
              Tri_initial_shaped sample_calibration_shaped)
    as ([[[[[xc yc] zc] xw] yw] zw] & E).
  exists xc, yc, zc, xw, yw, zw. split; [exact E|].
  apply (triangulate_world_is_camera_0 (lapack := exact_lapack)
           sample_state 1 1 2 1 false xc yc zc xw yw zw).
  - exact Tri_initial_shaped.
  - reflexivity.
  - exact E.
Defined.

Lemma triangulate_least_squares_witness :
  exists B xc yc zc,
    cm_inverse 3 (normal_values (design_values (self sample_state) 1 1 2 1)) B /\
    xc = pseudo_solution B (design_values (self sample_state) 1 1 2 1)
                         (rhs_values (self sample_state) 2 1) 0 /\
    yc = pseudo_solution B (design_values (self sample_state) 1 1 2 1)
                         (rhs_values (self sample_state) 2 1) 1 /\
    zc = pseudo_solution B (design_values (self sample_state) 1 1 2 1)
                         (rhs_values (self sample_state) 2 1) 2 /\
    snd (triangulate (lapack := exact_lapack) 1 1 2 1 false sample_state) =
      Normal (xc, yc, zc, to_world (self sample_state) [xc; yc; zc] 0,
              to_world (self sample_state) [xc; yc; zc] 1,
              to_world (self sample_state) [xc; yc; zc] 2) /\
    forall Y0 Y1 Y2,
      residual (design_values (self sample_state) 1 1 2 1)
               (rhs_values (self sample_state) 2 1) xc yc zc
      <= residual (design_values (self sample_state) 1 1 2 1)
                  (rhs_values (self sample_state) 2 1) Y0 Y1 Y2.
Proof.
  apply (triangulate_least_squares (lapack := exact_lapack) sample_state 1 1 2 1).
  - exact Tri_initial_shaped.
  - reflexivity.
  - exact sample_normal_matrix_invertible.
Defined.

Lemma estimate_refuses_malformed_line_witness :
  estimate_projective_transform (lapack := exact_lapack)
    (collaborators := sample_collaborators) tt tt false (Some malformed_points) sample_state
    = (sample_state, Throws ProjectionLineNotFourValues).
Proof.
  apply (estimate_refuses_malformed_line (lapack := exact_lapack)
           (collaborators := sample_collaborators)). reflexivity.
Defined.

Lemma estimate_writes_coefficients_only_witness :
  exists out,
    snd (estimate_projective_transform (lapack := exact_lapack)
           (collaborators := sample_collaborators)
           tt tt false (Some sample_points) sample_state) = Normal out /\
    let s' := fst (estimate_projective_transform (lapack := exact_lapack)
                     (collaborators := sample_collaborators)
                     tt tt false (Some sample_points) sample_state) in
    same_calibration s' sample_state /\ tri s' = tri sample_state /\
    rad s' = rad sample_state /\
    projectives_ (self s') = Some (optimized_parameters out) /\
    (exists p, projectives_ (self sample_state) = Some p /\
               length (optimized_parameters out) = length p) /\
    (length (optimized_parameters out) = 8%nat ->
     forall xl yl, exists xr yr,
       project_left_to_right_sensor_coords xl yl s' = (s', Normal (xr, yr))).
Proof.
  destruct (estimate_runs_on_sample (lapack := exact_lapack)) as (s' & out & E).
  exists out. split; [rewrite E; reflexivity|].
  apply (estimate_writes_coefficients_only (lapack := exact_lapack)
           (collaborators := sample_collaborators)).
  rewrite E. reflexivity.
Defined.

Lemma sample_points_well_formed (tokens : list string) :
  In tokens sample_points -> length tokens = 0%nat \/ length tokens = 4%nat.
Proof. intros [<-|[<-|[<-|[<-|[<-|[]]]]]]; cbn; auto. Qed.

Lemma sample_points_normal_matrix :
  dlt_normal (collaborators := sample_collaborators) sample_points = sample_normal_matrix.
Proof.
  cbv -[Rplus Rmult Rminus Ropp Rdiv Rinv IZR]. repeat f_equal; ring.
Qed.

Lemma sample_points_determined :
  cm_invertible 8 (dlt_normal (collaborators := sample_collaborators) sample_points).
Proof.
  rewrite sample_points_normal_matrix.
  exists sample_normal_inverse.
  split; [reflexivity|]. split; [reflexivity|].
  split; cbv -[Rplus Rmult Rminus Ropp Rdiv Rinv IZR]; repeat f_equal; ring.
Qed.

Lemma sample_points_on_identity (i : nat) :
  (i < count_points sample_points)%nat ->
  vget identity_coefficients 6 * point_field (collaborators := sample_collaborators)
                                             sample_points i 0
  + vget identity_coefficients 7 * point_field (collaborators := sample_collaborators)
                                               sample_points i 1 + 1 <> 0 /\
  snd (project_left_to_right_sensor_coords
         (point_field (collaborators := sample_collaborators) sample_points i 0)
         (point_field (collaborators := sample_collaborators) sample_points i 1)
         (upd_self (with_projectives_ (Some identity_coefficients)) sample_state))
    = Normal (point_field (collaborators := sample_collaborators) sample_points i 2,
              point_field (collaborators := sample_collaborators) sample_points i 3).
Proof.
  intros Hi. change (count_points sample_points) with 4%nat in Hi.
  do 4 (destruct i as [|i]; [
    split; [cbv -[Rplus Rmult Rminus Ropp Rdiv Rinv IZR]; lra|];
    cbv -[Rplus Rmult Rminus Ropp Rdiv Rinv IZR]; f_equal; f_equal; field | ]).
  lia.
Qed.

Lemma estimate_point_matching_recovers_coefficients_witness :
  exists out,
    snd (estimate_projective_transform (lapack := exact_lapack)
           (collaborators := sample_collaborators)
           tt tt false (Some sample_points) sample_state) = Normal out /\
    point_matching_parameters out = identity_coefficients.
Proof.
  destruct (estimate_runs_on_sample (lapack := exact_lapack)) as (s' & out & E).
  exists out. split; [rewrite E; reflexivity|].
  apply (estimate_point_matching_recovers_coefficients (lapack := exact_lapack)
           (collaborators := sample_collaborators)
           tt tt false sample_points sample_state [0; 0; 0; 0; 0; 0; 0; 0]).
  - exact sample_points_well_formed.
  - reflexivity.
  - reflexivity.
  - reflexivity.
  - exact sample_points_determined.
  - exact sample_points_on_identity.
  - rewrite E. reflexivity.
Defined.

Lemma write_sample_view :
  Tiff.write_image "a.tif" 2 2 sample_view [] =
  Tiff.Done [ ("a.tif"%string,
               {| Tiff.width := 2; Tiff.height := 2;
                  Tiff.rows := [ [0; 12]; [255; 100] ]%Z |}) ].
Proof.
  unfold Tiff.write_image, Tiff.for_raster.
  cbv -[Tiff.to_gray8 IZR].
  rewrite !to_gray8_integer by lia. reflexivity.
Qed.

Lemma write_then_read_image_witness :
  Tiff.read_image_dimensions "a.tif"
    [ ("a.tif"%string,
       {| Tiff.width := 2; Tiff.height := 2; Tiff.rows := [ [0; 12]; [255; 100] ]%Z |}) ]
    = Tiff.Done (2%nat, 2%nat) /\
  exists view',
    Tiff.read_image "a.tif" blank_view
      [ ("a.tif"%string,
         {| Tiff.width := 2; Tiff.height := 2; Tiff.rows := [ [0; 12]; [255; 100] ]%Z |}) ]
      = Tiff.Done view' /\
    map (@length R) view' = map (@length R) blank_view /\
    (forall x y, (x < 2)%nat -> (y < 2)%nat ->
       at2 view' x y = IZR (Tiff.truncate (at2 sample_view x y)) /\
       (forall k, at2 sample_view x y = IZR k -> at2 view' x y = at2 sample_view x y)) /\
    (forall x y, ~ ((x < 2)%nat /\ (y < 2)%nat) -> at2 view' x y = at2 blank_view x y).
Proof.
  apply (write_then_read_image "a.tif" 2 2 sample_view blank_view []).
  - exact write_sample_view.
  - intros x y Hx Hy.
    destruct x as [|[|x]]; [| |lia]; destruct y as [|[|y]]; try lia; reflexivity.
Defined.
